(** * Dependency resolution scripts of the EPICS environment manager

    A shallow embedding of [scripts/check_excludes.py] and
    [scripts/get_prerequisites.py], and the properties of version
    comparison, version matching, version selection and dependency
    resolution that the specification states about them.

    Python values are modelled as follows: [str] is [string], [int] is [Z],
    [None]-or-string is [option string], a raised exception is the [Raise]
    constructor of [result], and a [set] is a [gset]. *)

From Stdlib Require Import ZArith Ascii String List Bool Lia.
From stdpp Require Import base option list gmap strings sorting.

Local Open Scope string_scope.
Local Open Scope Z_scope.
Local Open Scope list_scope.

(** ** Exceptions *)

Inductive exn : Type :=
| IndexError
| TypeError
| ValueError
| OSError
| IOError.

Inductive result (A : Type) : Type :=
| Ok (a : A)
| Raise (e : exn).
Arguments Ok {A} a.
Arguments Raise {A} e.

Definition rbind {A B : Type} (m : result A) (f : A -> result B) : result B :=
  match m with
  | Ok a => f a
  | Raise e => Raise e
  end.

#[global] Instance result_ret : MRet result := @Ok.
#[global] Instance result_bind : MBind result := fun A B f m => rbind m f.

(** ** Characters and strings, as the [str] methods the scripts call *)

Module Str.

Definition in_range (lo hi c : ascii) : bool :=
  (nat_of_ascii lo <=? nat_of_ascii c)%nat && (nat_of_ascii c <=? nat_of_ascii hi)%nat.

Definition is_digit (c : ascii) : bool := in_range "0" "9" c.

(** The characters [str.strip()] removes: space, \t, \n, \v, \f, \r. *)
Definition is_space (c : ascii) : bool :=
  let n := nat_of_ascii c in
  (n =? 32)%nat || ((9 <=? n)%nat && (n <=? 13)%nat).

Fixpoint lstrip (s : string) : string :=
  match s with
  | String c s' => if is_space c then lstrip s' else s
  | EmptyString => EmptyString
  end.

(** [rstrip] drops the trailing run of white space. *)
Fixpoint rstrip (s : string) : string :=
  match s with
  | String c s' =>
      match rstrip s' with
      | EmptyString => if is_space c then EmptyString else String c EmptyString
      | t => String c t
      end
  | EmptyString => EmptyString
  end.

Definition strip (s : string) : string := rstrip (lstrip s).

(** [s.split(sep)] for a one-character separator: every occurrence splits. *)
Fixpoint split (sep : ascii) (s : string) : list string :=
  match s with
  | EmptyString => [EmptyString]
  | String c s' =>
      if Ascii.eqb c sep then EmptyString :: split sep s'
      else match split sep s' with
           | w :: ws => String c w :: ws
           | [] => [String c EmptyString]
           end
  end.

(** [s.split(sep, n)]: at most [n] splits, counted from the left. *)
Fixpoint split_max (sep : ascii) (n : nat) (s : string) : list string :=
  match n with
  | O => [s]
  | S n' =>
      match s with
      | EmptyString => [EmptyString]
      | String c s' =>
          if Ascii.eqb c sep then EmptyString :: split_max sep n' s'
          else match split_max sep n s' with
               | w :: ws => String c w :: ws
               | [] => [String c EmptyString]
               end
      end
  end.

(** [s.rsplit(sep, 1)]: one split, at the last occurrence of [sep]. *)
Fixpoint rsplit1 (sep : ascii) (s : string) : list string :=
  match s with
  | EmptyString => [EmptyString]
  | String c s' =>
      match rsplit1 sep s' with
      | [w] => if Ascii.eqb c sep then [EmptyString; w] else [String c w]
      | w :: ws => String c w :: ws
      | [] => [String c EmptyString]
      end
  end.

Fixpoint all_digits (s : string) : bool :=
  match s with
  | EmptyString => true
  | String c s' => is_digit c && all_digits s'
  end.

Fixpoint digits_value (acc : Z) (s : string) : Z :=
  match s with
  | EmptyString => acc
  | String c s' => digits_value (10 * acc + (Z.of_nat (nat_of_ascii c) - 48)) s'
  end.

(** [int(s)]: white space around the literal is ignored, one sign is
    allowed, and anything but a non-empty run of decimal digits raises
    [ValueError]. *)
Definition int (s : string) : result Z :=
  match strip s with
  | String "+" d =>
      if all_digits d && negb (String.eqb d "") then Ok (digits_value 0 d) else Raise ValueError
  | String "-" d =>
      if all_digits d && negb (String.eqb d "") then Ok (- digits_value 0 d) else Raise ValueError
  | d => if all_digits d && negb (String.eqb d "") then Ok (digits_value 0 d) else Raise ValueError
  end.

(** [int(x)] where [x] may be [None]. *)
Definition int_opt (x : option string) : result Z :=
  match x with
  | Some s => int s
  | None => Raise TypeError
  end.

(** Truth value of a string-or-None. *)
Definition truthy (x : option string) : bool :=
  match x with
  | Some s => negb (String.eqb s "")
  | None => false
  end.

Fixpoint take (n : nat) (s : string) : string :=
  match n, s with
  | S n', String c s' => String c (take n' s')
  | _, _ => EmptyString
  end.

(** [s[n:]] *)
Fixpoint drop (n : nat) (s : string) : string :=
  match n, s with
  | S n', String _ s' => drop n' s'
  | _, _ => s
  end.

(** [s.startswith(p)] *)
Fixpoint startswith (p s : string) : bool :=
  match p, s with
  | EmptyString, _ => true
  | String a p', String b s' => Ascii.eqb a b && startswith p' s'
  | String _ _, EmptyString => false
  end.

(** [needle in s], for two strings. *)
Fixpoint contains (needle s : string) : bool :=
  startswith needle s
  || match s with
     | String _ s' => contains needle s'
     | EmptyString => false
     end.

End Str.

(** ** Regular expressions, as [re.match] runs them

    The engine is the backtracking one of Python's [re]: alternatives are
    tried left to right, [*] and [?] are greedy, and a failure of what
    follows makes the engine come back and try the next possibility. The
    matcher is written in continuation-passing style, the continuation being
    "what follows". *)

Module Re.

Inductive regex : Type :=
| Lit (c : ascii)
| Class (ranges : list (ascii * ascii))
| Cat (r1 r2 : regex)
| Alt (r1 r2 : regex)
| Star (r : regex)
| Opt (r : regex)
| Group (n : nat) (r : regex)
| Bol
| Eol.

Definition captures : Type := list (nat * string).

Definition in_class (ranges : list (ascii * ascii)) (c : ascii) : bool :=
  existsb (fun lh => Str.in_range (fst lh) (snd lh) c) ranges.

Section Matcher.

Context {A : Type}.

Definition cont : Type := string -> captures -> option A.

(** Greedy iteration: one more round of [step] first, and what follows the
    star only when that fails. A round that consumes nothing ends the
    iteration, as in Python. *)
Fixpoint star_loop (step : string -> captures -> cont -> option A)
    (fuel : nat) (s : string) (caps : captures) (k : cont) : option A :=
  match fuel with
  | O => k s caps
  | S fuel' =>
      match step s caps (fun s' caps' =>
              if (String.length s' <? String.length s)%nat
              then star_loop step fuel' s' caps' k else None) with
      | Some x => Some x
      | None => k s caps
      end
  end.

(** [whole] is the length of the subject string, which [^] needs. *)
Fixpoint run (whole : nat) (r : regex) (s : string) (caps : captures) (k : cont)
    : option A :=
  match r with
  | Lit c =>
      match s with
      | String c' s' => if Ascii.eqb c' c then k s' caps else None
      | EmptyString => None
      end
  | Class ranges =>
      match s with
      | String c' s' => if in_class ranges c' then k s' caps else None
      | EmptyString => None
      end
  | Cat r1 r2 => run whole r1 s caps (fun s' caps' => run whole r2 s' caps' k)
  | Alt r1 r2 =>
      match run whole r1 s caps k with
      | Some x => Some x
      | None => run whole r2 s caps k
      end
  | Star r' => star_loop (run whole r') (String.length s) s caps k
  | Opt r' =>
      match run whole r' s caps k with
      | Some x => Some x
      | None => k s caps
      end
  | Group n r' =>
      run whole r' s caps (fun s' caps' =>
        k s' ((n, Str.take (String.length s - String.length s') s) :: caps'))
  | Bol => if (String.length s =? whole)%nat then k s caps else None
  | Eol =>
      match s with
      | EmptyString => k s caps
      | String c EmptyString => if Ascii.eqb c "010" then k s caps else None
      | _ => None
      end
  end.

End Matcher.

(** [re.match(pattern, s)]: the match is anchored at the start of [s] and
    may stop before its end. The result is the match object (its groups),
    or [None]. *)
Definition match_ (pattern : regex) (s : string) : option captures :=
  run (String.length s) pattern s [] (fun _ caps => Some caps).

(** [m.group(n)]; [None] for a group that took no part in the match. *)
Fixpoint group (m : captures) (n : nat) : option string :=
  match m with
  | [] => None
  | (i, g) :: m' => if (i =? n)%nat then Some g else group m' n
  end.

(** The pieces the scripts' patterns are made of. *)
Definition digit : regex := Class [("0", "9")]%char.
Definition digit19 : regex := Class [("1", "9")]%char.
Definition dot : regex := Lit ".".
Definition plus_opt : regex := Opt (Lit "+").

(** The numeric component [0|[1-9][0-9]*], captured as group [n]. *)
Definition number (n : nat) : regex :=
  Group n (Alt (Lit "0") (Cat digit19 (Star digit))).

(** What a successful run consumed: [matches r s s'] reads "from [s], the
    expression [r] can match and leave [s']". *)
Inductive matches : regex -> string -> string -> Prop :=
| matches_Lit c s : matches (Lit c) (String c s) s
| matches_Class ranges c s : in_class ranges c = true -> matches (Class ranges) (String c s) s
| matches_Cat r1 r2 s s1 s2 :
    matches r1 s s1 -> matches r2 s1 s2 -> matches (Cat r1 r2) s s2
| matches_Alt_l r1 r2 s s' : matches r1 s s' -> matches (Alt r1 r2) s s'
| matches_Alt_r r1 r2 s s' : matches r2 s s' -> matches (Alt r1 r2) s s'
| matches_Star_nil r s : matches (Star r) s s
| matches_Star_cons r s s1 s2 :
    matches r s s1 -> matches (Star r) s1 s2 -> matches (Star r) s s2
| matches_Opt_some r s s' : matches r s s' -> matches (Opt r) s s'
| matches_Opt_none r s : matches (Opt r) s s
| matches_Group n r s s' : matches r s s' -> matches (Group n r) s s'
| matches_Bol s : matches Bol s s
| matches_Eol s : s = EmptyString \/ s = String "010" EmptyString -> matches Eol s s.

(** The bodies of the groups numbered [n] in [r]. *)
Fixpoint bodies (r : regex) (n : nat) : list regex :=
  match r with
  | Group m r' => (if (m =? n)%nat then [r'] else []) ++ bodies r' n
  | Cat r1 r2 | Alt r1 r2 => bodies r1 n ++ bodies r2 n
  | Star r' | Opt r' => bodies r' n
  | _ => []
  end.

(** [recorded r (n, g)]: the text [g] is what the body of a group [n] of
    [r] consumed in some run. *)
Definition recorded (r : regex) (e : nat * string) : Prop :=
  exists b s s',
    In b (bodies r (fst e)) /\ matches b s s'
    /\ snd e = Str.take (String.length s - String.length s') s.

(** The groups every successful run of [r] records. *)
Fixpoint defines (r : regex) (n : nat) : bool :=
  match r with
  | Group m r' => (m =? n)%nat || defines r' n
  | Cat r1 r2 => defines r1 n || defines r2 n
  | Alt r1 r2 => defines r1 n && defines r2 n
  | _ => false
  end.


End Re.

Infix "+++" := Re.Cat (at level 60, right associativity).

(** ** scripts/check_excludes.py *)

Module check_excludes.

Import Re.

(** [EpicsModule = collections.namedtuple('EpicsModule', 'major minor patch exact')] *)
Record EpicsModule : Type := mkEpicsModule {
  major : Z;
  minor : Z;
  patch : Z;
  exact : bool
}.

(** [eval('lhs.f {} rhs.f'.format(op))] for the two operators that reach it. *)
Definition eval_op (op : string) (a b : Z) : bool :=
  if String.eqb op "<" then a <? b
  else if String.eqb op ">" then a >? b
  else false.

(** [comp[0]] *)
Definition first_char (comp : string) : string :=
  match comp with
  | String c _ => String c EmptyString
  | EmptyString => EmptyString
  end.

(** The result is [None] when [comp] is none of the five operators (the
    function then falls off its end). *)
Definition module_compare (lhs rhs : EpicsModule) (comp : string) : option bool :=
  if String.eqb comp "<" || String.eqb comp ">" then
    Some (eval_op comp (major lhs) (major rhs)
          || ((major lhs =? major rhs) && eval_op comp (minor lhs) (minor rhs))
          || ((major lhs =? major rhs) && (minor lhs =? minor rhs)
              && eval_op comp (patch lhs) (patch rhs)))
  else if String.eqb comp "<=" || String.eqb comp ">=" then
    Some (eval_op (first_char comp) (major lhs) (major rhs)
          || ((major lhs =? major rhs) && eval_op (first_char comp) (minor lhs) (minor rhs))
          || ((major lhs =? major rhs) && (minor lhs =? minor rhs)
              && eval_op (first_char comp) (patch lhs) (patch rhs))
          || ((major lhs =? major rhs) && (minor lhs =? minor rhs)
              && (patch lhs =? patch rhs)))
  else if String.eqb comp "=" then
    Some ((major lhs =? major rhs) && (minor lhs =? minor rhs) && (patch lhs =? patch rhs))
  else None.

(** The three patterns of [version_to_tup], most specific first:
    MAJOR.MINOR.PATCH, MAJOR.MINOR and MAJOR, each with an optional
    trailing plus sign as its last group. *)
Definition pat_major_minor_patch : regex :=
  number 1 +++ dot +++ number 2 +++ dot +++ number 3 +++ Group 4 plus_opt.
Definition pat_major_minor : regex :=
  number 1 +++ dot +++ number 2 +++ Group 3 plus_opt.
Definition pat_major : regex :=
  number 1 +++ Group 2 plus_opt.

(** The string begins with a decimal digit. *)
Definition leading_digit (s : string) : bool :=
  match s with
  | String c _ => Str.is_digit c
  | EmptyString => false
  end.

(** [not m.group(n) == '+'] *)
Definition not_plus (g : option string) : bool :=
  match g with
  | Some s => negb (String.eqb s "+")
  | None => true
  end.

Definition version_to_tup (version : string) : result EpicsModule :=
  match match_ pat_major_minor_patch version with
  | Some m =>
      a ← Str.int_opt (group m 1);
      b ← Str.int_opt (group m 2);
      c ← Str.int_opt (group m 3);
      Ok (mkEpicsModule a b c (not_plus (group m 4)))
  | None =>
      match match_ pat_major_minor version with
      | Some m =>
          a ← Str.int_opt (group m 1);
          b ← Str.int_opt (group m 2);
          Ok (mkEpicsModule a b 0 (not_plus (group m 3)))
      | None =>
          match match_ pat_major version with
          | Some m =>
              a ← Str.int_opt (group m 1);
              Ok (mkEpicsModule a 0 0 (not_plus (group m 2)))
          | None => Ok (mkEpicsModule 0 0 0 false)
          end
      end
  end.

(** The pattern [check] validates its version with (no end anchor). *)
Definition pat_version : regex :=
  number 1 +++ dot +++ number 2 +++ dot +++ number 3.

(** A condition: an operator among [<], [>], [<=], [>=], [=], then digits
    and dots, then an optional plus sign, anchored at both ends. *)
Definition pat_condition : regex :=
  Bol
  +++ Group 1 (Alt (Class [("<", "<"); (">", ">")]%char +++ Opt (Lit "=")) (Lit "="))
  +++ Group 2 (Star (Class [("0", "9"); (".", ".")]%char))
  +++ Group 3 plus_opt
  +++ Eol.

(** Truth value of what [module_compare] returns. *)
Definition is_true_value (v : option bool) : bool :=
  match v with
  | Some b => b
  | None => false
  end.

(** The [for condition in conditions] loop of [check]. *)
Fixpoint check_loop (version : string) (conditions : list string) : result bool :=
  match conditions with
  | [] => Ok false
  | condition :: rest =>
      match match_ pat_condition condition with
      | None => Ok false
      | Some m =>
          match group m 1, group m 2 with
          | Some comp, Some rversion =>
              let comp := if negb (not_plus (group m 3)) then ">=" else comp in
              lhs ← version_to_tup version;
              rhs ← version_to_tup rversion;
              if is_true_value (module_compare lhs rhs comp) then Ok true
              else check_loop version rest
          | _, _ => Raise TypeError
          end
      end
  end.

(** [pat_version] has three groups, so [len(matches.groups()) != 3] is
    never true and only the failure of the match rejects the version. *)
Definition check (version : string) (conditions : list string) : result bool :=
  match match_ pat_version version with
  | None => Ok false
  | Some _ => check_loop version conditions
  end.

(** An argument of [module_match]: a [str], which is parsed, or a tuple. *)
Inductive version_arg : Type :=
| Text (s : string)
| Tuple (t : EpicsModule).

Definition as_tup (v : version_arg) : result EpicsModule :=
  match v with
  | Text s => version_to_tup s
  | Tuple t => Ok t
  end.

(** The boolean expression of [module_match], on the two tuples. *)
Definition high_enough (ver oth : EpicsModule) : bool :=
  (major ver =? 0)
  || (exact ver
      && (((minor ver =? 0) && (major oth =? major ver))
          || ((patch ver =? 0) && (major oth =? major ver) && (minor oth =? minor ver))
          || ((major ver =? major ver) && (minor oth =? minor ver) && (patch oth =? patch ver))))
  || (negb (exact ver)
      && (((minor ver =? 0) && (major oth >=? major ver))
          || ((patch ver =? 0) && (major oth =? major oth) && (minor oth >=? minor ver))
          || ((major oth =? major ver) && (minor oth =? minor ver) && (patch oth >=? patch ver)))).

Definition module_match (version other : version_arg) : result bool :=
  ver ← as_tup version;
  oth ← as_tup other;
  Ok (high_enough ver oth).

End check_excludes.

(** ** scripts/get_prerequisites.py *)

(** *** The world the script runs in: files, environment, log *)

(** What a path names. A file is the list of its lines, as iterating over
    the file handle yields them (each with its end of line). *)
Inductive node : Type :=
| File (lines : list string)
| Dir (entries : list string).

(** The file system: what each path names, which paths are symbolic links,
    and the walk of a directory tree. [walk top] holds, for each directory
    that [os.walk(top)] visits and in the order of its visit, the path of
    the directory and the names of the entries in it that are no
    directories; [os.walk] passes over a directory that cannot be listed and
    raises nothing. *)
Record FileSystem : Type := mkFileSystem {
  lookup_path : string -> option node;
  islink : string -> bool;
  walk : string -> list (string * list string)
}.

(** The two variables the script reads from [os.environ]. *)
Record Environ : Type := mkEnviron {
  EPICS_BASES_PATH : string;
  EPICS_MODULES_PATH : string
}.

Inductive level : Type := DEBUG | INFO | WARNING.

(** A log record: the level, the message's format string and the arguments
    it is formatted with ([logger.info('... {} {}'.format(a, b))]). *)
Record log_record : Type := mkRecord {
  record_level : level;
  record_format : string;
  record_args : list string
}.

(** A computation that writes to the log and returns or raises. *)
Record M (A : Type) : Type := mkM {
  log : list log_record;
  outcome : result A
}.
Arguments mkM {A} log outcome.
Arguments log {A} m.
Arguments outcome {A} m.

Definition M_ret {A : Type} (a : A) : M A := mkM [] (Ok a).

Definition M_bind {A B : Type} (m : M A) (f : A -> M B) : M B :=
  match outcome m with
  | Ok a => mkM (log m ++ log (f a)) (outcome (f a))
  | Raise e => mkM (log m) (Raise e)
  end.

#[global] Instance M_mret : MRet M := @M_ret.
#[global] Instance M_mbind : MBind M := fun A B f m => M_bind m f.

Definition lift {A : Type} (r : result A) : M A := mkM [] r.

Definition logger (lvl : level) (format : string) (args : list string) : M unit :=
  mkM [mkRecord lvl format args] (Ok tt).

(** A [for] loop whose body updates an accumulator. *)
Fixpoint for_each {A S : Type} (body : S -> A -> M S) (xs : list A) (acc : S) : M S :=
  match xs with
  | [] => mret acc
  | x :: xs' => acc' ← body acc x; for_each body xs' acc'
  end.

Module os.

(** [os.path.join] of two components. *)
Definition join2 (a b : string) : string :=
  match b with
  | String "/" _ => b
  | _ =>
      if String.eqb a "" then b
      else if String.eqb (Str.take 1 (String.rev a)) "/" then a +:+ b
      else a +:+ "/" +:+ b
  end.

(** [os.path.join(a, *p)] *)
Definition join (a : string) (p : list string) : string := fold_left join2 p a.

Section FS.

Variable fs : FileSystem.

Definition isfile (p : string) : bool :=
  match lookup_path fs p with
  | Some (File _) => true
  | _ => false
  end.

Definition isdir (p : string) : bool :=
  match lookup_path fs p with
  | Some (Dir _) => true
  | _ => false
  end.

Definition listdir (p : string) : result (list string) :=
  match lookup_path fs p with
  | Some (Dir entries) => Ok entries
  | _ => Raise OSError
  end.

(** [open(p)] followed by the iteration over its lines. *)
Definition readlines (p : string) : result (list string) :=
  match lookup_path fs p with
  | Some (File lines) => Ok lines
  | _ => Raise IOError
  end.

End FS.

End os.

Module get_prerequisites.

Import Re check_excludes.

(** A dependency: the module name with its version, or with [None]. *)
Definition dependency : Type := (string * option string)%type.

(** The key the installed versions are sorted by. *)
Definition version_key : Type := (Z * Z * Z)%type.

Definition module_key (version : string) : result version_key :=
  match Str.split_max "." 2 version with
  | [a; b; c] =>
      x ← Str.int a;
      y ← Str.int b;
      z ← Str.int c;
      Ok (x, y, z)
  | _ => Ok (0, 0, 0)
  end.

(** The order of Python tuples: lexicographic. *)
Definition key_le (k1 k2 : version_key) : Prop :=
  let '(a1, b1, c1) := k1 in
  let '(a2, b2, c2) := k2 in
  a1 < a2 \/ (a1 = a2 /\ (b1 < b2 \/ (b1 = b2 /\ c1 <= c2))).

#[global] Instance key_le_dec (k1 k2 : version_key) : Decision (key_le k1 k2).
Proof. destruct k1 as [[a1 b1] c1], k2 as [[a2 b2] c2]; simpl; apply _. Defined.

(** The order [sorted(..., key=module_key)] sorts the decorated versions by. *)
Definition by_key (x y : version_key * string) : Prop := key_le (fst x) (fst y).

#[global] Instance by_key_dec (x y : version_key * string) : Decision (by_key x y).
Proof. unfold by_key; apply _. Defined.

(** [sorted(versions, key=module_key)]: every key is computed first. *)
Definition sorted_by_module_key (versions : list string) : result (list string) :=
  decorated ← mapM (fun v => k ← module_key v; Ok (k, v)) versions;
  Ok (map snd (merge_sort by_key decorated)).

(** The pattern a version directory must match to count as installed:
    MAJOR.MINOR.PATCH up to the end of the name. *)
Definition pat_strict_version : regex :=
  number 1 +++ dot +++ number 2 +++ dot +++ number 3 +++ Eol.

Definition is_strict_version (version : string) : bool :=
  match match_ pat_strict_version version with
  | Some _ => true
  | None => false
  end.

(** [modulename] holds a character outside letters, digits and underscore. *)
Fixpoint has_unsupported_char (s : string) : bool :=
  match s with
  | EmptyString => false
  | String c s' =>
      negb (in_class [("A", "Z"); ("a", "z"); ("0", "9"); ("_", "_")]%char c)
      || has_unsupported_char s'
  end.

Section World.

Variable fs : FileSystem.
Variable env : Environ.

Fixpoint search_lines (lines : list string) (module : string) : result (option string) :=
  match lines with
  | [] => Ok None
  | line :: rest =>
      match Str.rsplit1 "," (Str.strip line) with
      | name :: tail =>
          if String.eqb name module then
            match tail with
            | version :: _ => Ok (Some version)
            | [] => Raise IndexError
            end
          else search_lines rest module
      | [] => Raise IndexError
      end
  end.

Definition search_dep_file (depfile module : string) : result (option string) :=
  lines ← os.readlines fs depfile;
  search_lines lines module.

(** The loop over [reversed(sorted_installed_versions)]. *)
Fixpoint first_match (comp_version : string) (versions : list string)
    : result (option string) :=
  match versions with
  | [] => Ok None
  | version :: rest =>
      ok ← module_match (Text comp_version) (Text version);
      if (ok : bool) then Ok (Some version) else first_match comp_version rest
  end.

Definition arch_default_file (epics_base_version target_arch : string) : string :=
  os.join (os.join (EPICS_BASES_PATH env) ["base-" +:+ epics_base_version])
    ["configure"; "default." +:+ target_arch +:+ ".dep"].

Definition epics_default_file (epics_base_version : string) : string :=
  os.join (os.join (EPICS_BASES_PATH env) ["base-" +:+ epics_base_version])
    ["configure"; "default.dep"].

Definition module_depfile (module version epics_base_version target_arch : string) : string :=
  os.join (os.join (EPICS_MODULES_PATH env) [module])
    [version; epics_base_version; "lib"; target_arch; module +:+ ".dep"].

(** The set [installed_versions] that [module_version] collects. *)
Definition installed_versions (module epics_base_version target_arch : string)
    : result (gset string) :=
  let module_dir := os.join (EPICS_MODULES_PATH env) [module] in
  if os.isdir fs module_dir then
    entries ← os.listdir fs module_dir;
    Ok (list_to_set (List.filter (fun version =>
          os.isfile fs (module_depfile module version epics_base_version target_arch)
          && is_strict_version version) entries))
  else Ok ∅.

Definition module_version (module comp_version epics_base_version target_arch : string)
    : M (option string) :=
  let arch_default := arch_default_file epics_base_version target_arch in
  version ← (if os.isfile fs arch_default
             then lift (search_dep_file arch_default module) else mret None);
  if Str.truthy version then mret version else
  let epics_default := epics_default_file epics_base_version in
  version ← (if os.isfile fs epics_default
             then lift (search_dep_file epics_default module) else mret None);
  if Str.truthy version then mret version else
  installed ← lift (installed_versions module epics_base_version target_arch);
  found ← (if decide (installed = ∅) then mret None
           else sorted_installed_versions ← lift (sorted_by_module_key (elements installed));
                lift (first_match comp_version (reverse sorted_installed_versions)));
  match found with
  | Some version => mret (Some version)
  | None =>
      logger DEBUG "No version found for module {}" [module];;
      mret None
  end.

(** *** class DependencyResolver *)

(** [files]: the lists under the keys 'dep', 'db' and 'subs'. *)
Record Files : Type := mkFiles {
  dep : list string;
  db : list string;
  subs : list string
}.

(** [self._matches]: the evidence found in the module's own sources. *)
Record Matches : Type := mkMatches {
  headers : gset string;
  records : gset string;
  dtyps : gset (string * string);
  templates : gset string
}.

Record DependencyResolver : Type := mkDependencyResolver {
  _name : string;
  _files : Files;
  _prefix : string;
  _eb_version : string;
  _ta : string;
  _ud : list string;
  _dependencies : gset dependency;
  _matches : Matches
}.

Definition set_dependencies (self : DependencyResolver) (deps : gset dependency)
    : DependencyResolver :=
  mkDependencyResolver (_name self) (_files self) (_prefix self) (_eb_version self)
    (_ta self) (_ud self) deps (_matches self).

Definition set_matches (self : DependencyResolver) (m : Matches) : DependencyResolver :=
  mkDependencyResolver (_name self) (_files self) (_prefix self) (_eb_version self)
    (_ta self) (_ud self) (_dependencies self) m.

(** *** The evidence in the sources of the module

    The three loops at the head of [resolve] read the dependency files the
    compiler wrote, the template files and the substitution files, line by
    line. *)

(** The classes of the patterns: white space as [\s] reads it in a byte
    string, and the negated classes, as the ranges of the bytes they
    hold. *)
Definition space_class : list (ascii * ascii) := [("009", "013"); (" ", " ")]%char.
Definition dquote : ascii := "034"%char.

(** Every byte but the slash. *)
Definition header_class : list (ascii * ascii) := [("000", "."); ("0", "255")]%char.

(** Every byte but white space. *)
Definition word_class : list (ascii * ascii) :=
  [("000", "008"); ("014", "031"); ("!", "255")]%char.

(** Every byte but white space, the double quote and the comma. *)
Definition record_class : list (ascii * ascii) :=
  [("000", "008"); ("014", "031"); ("!", "!"); ("#", "+"); ("-", "255")]%char.

(** Every byte but the double quote. *)
Definition dtyp_class : list (ascii * ascii) := [("000", "!"); ("#", "255")]%char.

(** Every byte but the double quote and white space. *)
Definition file_class : list (ascii * ascii) :=
  [("000", "008"); ("014", "031"); ("!", "!"); ("#", "255")]%char.

Definition spaces : regex := Star (Class space_class).

(** The pattern of an included header, without the look-behind that stands
    before it: a byte that is no slash, bytes that are no white space, and
    [.h]; the whole is group 1. *)
Definition pat_header : regex :=
  Group 1 (Class header_class +++ Star (Class word_class) +++ Lit "." +++ Lit "h").

(** The pattern of a record definition: [record], a parenthesis, an
    optional quote, the record type as group 1, a comma; white space may
    stand before [record] and on each side of the parenthesis. *)
Definition pat_record : regex :=
  spaces +++ Lit "r" +++ Lit "e" +++ Lit "c" +++ Lit "o" +++ Lit "r" +++ Lit "d"
  +++ spaces +++ Lit "(" +++ spaces +++ Opt (Lit dquote)
  +++ Group 1 (Class record_class +++ Star (Class record_class)) +++ Lit ",".

(** The pattern of a DTYP field: [field(], [DTYP], a comma, an optional
    quote, the device type as group 1, an optional quote, a closing
    parenthesis. *)
Definition pat_dtyp : regex :=
  Bol +++ spaces +++ Lit "f" +++ Lit "i" +++ Lit "e" +++ Lit "l" +++ Lit "d" +++ Lit "("
  +++ spaces +++ Lit "D" +++ Lit "T" +++ Lit "Y" +++ Lit "P" +++ spaces +++ Lit ","
  +++ spaces +++ Opt (Lit dquote)
  +++ Group 1 (Class dtyp_class +++ Star (Class dtyp_class))
  +++ Opt (Lit dquote) +++ spaces +++ Lit ")".

(** The pattern of a file entry of a substitution file: [file], an optional
    quote, the name of the template as group 1, an optional quote. *)
Definition pat_file : regex :=
  Bol +++ spaces +++ Lit "f" +++ Lit "i" +++ Lit "l" +++ Lit "e" +++ spaces
  +++ Opt (Lit dquote)
  +++ Group 1 (Class file_class +++ Star (Class file_class))
  +++ Opt (Lit dquote).

Definition EPICS_BASE_RECORDS : list string :=
  ["aai"; "aao"; "ai"; "ao"; "aSub"; "bi"; "bo"; "calc"; "calcout"; "compress"; "dfanout";
   "event"; "fanout"; "histogram"; "longin"; "longout"; "lsi"; "lso"; "mbbi"; "mbbiDirect";
   "mbbo"; "mbboDirect"; "permissive"; "printf"; "sel"; "seq"; "state"; "stringin";
   "stringout"; "sub"; "subArray"; "waveform"].

Definition EPICS_BASE_DEVICESUPPORTS : list string :=
  ["Async Soft Channel"; "Db State"; "General Time"; "Raw Soft Channel"; "Soft Channel";
   "Soft Timestamp"; "stdio"; "Test Asyn"].

(** [x in l], for a list of strings. *)
Definition member (x : string) (l : list string) : bool := existsb (String.eqb x) l.

Definition add_header (m : Matches) (header : string) : Matches :=
  mkMatches ({[ header ]} ∪ headers m) (records m) (dtyps m) (templates m).

Definition add_record (m : Matches) (record : string) : Matches :=
  mkMatches (headers m) ({[ record ]} ∪ records m) (dtyps m) (templates m).

Definition add_dtyp (m : Matches) (dtyp : string * string) : Matches :=
  mkMatches (headers m) (records m) ({[ dtyp ]} ∪ dtyps m) (templates m).

Definition add_template (m : Matches) (template : string) : Matches :=
  mkMatches (headers m) (records m) (dtyps m) ({[ template ]} ∪ templates m).

(** [m.group(1)] of a match of one of the patterns, whose group 1 takes
    part in every match. *)
Definition group1 (mo : captures) : M string :=
  match group mo 1 with
  | Some g => mret g
  | None => lift (Raise TypeError)
  end.

(** [[match.group(1) for match in re.finditer(pattern, line)]] for the
    pattern of an included header: the subject is searched from left to
    right, a match begins only where the byte before it is white space (the
    look-behind; there is none at the start of the line), and the search
    goes on where the match ended. [behind] tells whether the byte before
    [s] is white space, and [skip] counts the bytes of [s] that belong to
    the match found last. *)
Fixpoint header_names_from (behind : bool) (skip : nat) (s : string) : list string :=
  match s with
  | EmptyString => []
  | String c s' =>
      match skip with
      | S skip' => header_names_from (Str.is_space c) skip' s'
      | O =>
          match (if behind then match_ pat_header s else None) with
          | Some mo =>
              match group mo 1 with
              | Some header =>
                  header :: header_names_from (Str.is_space c) (String.length header - 1) s'
              | None => header_names_from (Str.is_space c) 0 s'
              end
          | None => header_names_from (Str.is_space c) 0 s'
          end
      end
  end.

Definition header_names (line : string) : list string := header_names_from false 0 line.

(** [for dfile in self._files['dep']] *)
Definition scan_depfile (m : Matches) (dfile : string) : M Matches :=
  if negb (os.isfile fs dfile) then
    logger DEBUG "Wasn't a dfile {}" [dfile];;
    mret m
  else
    lines ← lift (os.readlines fs dfile);
    mret (fold_left (fun m line => fold_left add_header (header_names line) m) lines m).

(** The body of the loop over the lines of a template file has two parts,
    one for each pattern; the state is [last_record] and the matches. *)
Definition scan_record (state : string * Matches) (line : string) : M (string * Matches) :=
  match match_ pat_record line with
  | Some mo =>
      record ← group1 mo;
      if negb (member record EPICS_BASE_RECORDS)
      then mret (record, add_record (snd state) record)
      else logger DEBUG "Skipping: {}" [record];; mret (record, snd state)
  | None => mret state
  end.

Definition scan_dtyp (state : string * Matches) (line : string) : M (string * Matches) :=
  match match_ pat_dtyp line with
  | Some mo =>
      dtyp ← group1 mo;
      if negb (member dtyp EPICS_BASE_DEVICESUPPORTS)
      then mret (fst state, add_dtyp (snd state) (fst state, dtyp))
      else logger DEBUG "Skipping: {}" [dtyp];; mret state
  | None => mret state
  end.

Definition scan_db_line (state : string * Matches) (line : string) : M (string * Matches) :=
  state ← scan_record state line;
  scan_dtyp state line.

(** The body of the loop over the lines of a substitution file. *)
Definition scan_subs_line (m : Matches) (line : string) : M Matches :=
  match match_ pat_file line with
  | Some mo =>
      template ← group1 mo;
      mret (add_template m template)
  | None => mret m
  end.

(** [for dbfile in self._files['db']] *)
Definition scan_dbfile (m : Matches) (dbfile : string) : M Matches :=
  if negb (os.isfile fs dbfile) then
    logger DEBUG "Wasn't a dbfile: {}" [dbfile];;
    mret m
  else
    lines ← lift (os.readlines fs dbfile);
    state ← for_each scan_db_line lines ("", m);
    mret (snd state).

(** [for subsfile in self._files['subs']] *)
Definition scan_subsfile (m : Matches) (subsfile : string) : M Matches :=
  if negb (os.isfile fs subsfile) then
    logger DEBUG "Wasn't a subsfile: {}" [subsfile];;
    mret m
  else
    lines ← lift (os.readlines fs subsfile);
    for_each scan_subs_line lines m.

(** The second and the third loop of [resolve], on the matches found so
    far. *)
Definition scan_templates (files : Files) (m : Matches) : M Matches :=
  m ← for_each scan_dbfile (db files) m;
  for_each scan_subsfile (subs files) m.

(** The three loops at the head of [resolve]. *)
Definition scan_sources (files : Files) (m : Matches) : M Matches :=
  m ← for_each scan_depfile (dep files) m;
  scan_templates files m.

(** *** The evidence in an installed module

    The four [find_*] methods go through a set of matches, in the order in
    which the iteration over the set yields its elements. *)

(** [includename == header or headerfile == header] for one of the files
    of the walk of [common_dir]. *)
Definition is_header (common_dir header : string) (entry : string * list string) : bool :=
  existsb (fun headerfile =>
             let includename :=
               os.join (Str.drop (String.length common_dir + 1) (fst entry)) [headerfile] in
             String.eqb includename header || String.eqb headerfile header)
    (snd entry).

(** [for header in self._matches['headers']] *)
Fixpoint find_headers_loop (common_dir : string) (headers : list string) : M bool :=
  match headers with
  | [] => mret false
  | header :: rest =>
      logger DEBUG "  header: {}" [header];;
      if existsb (is_header common_dir header) (walk fs common_dir) then
        logger INFO "Found dependency on header {}" [header];;
        mret true
      else find_headers_loop common_dir rest
  end.

Definition find_headers (m : Matches) (common_dir : string) : M bool :=
  find_headers_loop common_dir (elements (headers m)).

(** [for record in self._matches['records']] *)
Fixpoint find_records_loop (dbd_file : string) (records : list string) : M bool :=
  match records with
  | [] => mret false
  | record :: rest =>
      logger DEBUG "  record: {}" [record];;
      lines ← lift (os.readlines fs dbd_file);
      if existsb (Str.contains ("recordtype(" +:+ record +:+ ")")) lines then
        logger INFO "Found dependency on record {}" [record];;
        mret true
      else find_records_loop dbd_file rest
  end.

Definition find_records (m : Matches) (dbd_file : string) : M bool :=
  find_records_loop dbd_file (elements (records m)).

(** [find_dtyps] builds a pattern out of the record type and the device
    type of a match, which it inserts as they are into the pattern of a
    device declaration, and tries it on every line of the file. The
    building and the trial of that pattern are not modelled:
    [device_line dtyp line] stands for the test [re.match(...) is not None]
    of the pattern built from [dtyp] on [line], and [re.match] raises when
    the text built is no regular expression. *)
Variable device_line : string * string -> string -> result bool.

(** [for line in filehandler], up to the first line that matches. *)
Fixpoint any_device_line (dtyp : string * string) (lines : list string) : result bool :=
  match lines with
  | [] => Ok false
  | line :: rest =>
      hit ← device_line dtyp line;
      if (hit : bool) then Ok true else any_device_line dtyp rest
  end.

(** [for dtyp in self._matches['dtyps']]; the argument of the two log
    records is the pair, whose two components are recorded. *)
Fixpoint find_dtyps_loop (dbd_file : string) (dtyps : list (string * string)) : M bool :=
  match dtyps with
  | [] => mret false
  | dtyp :: rest =>
      logger DEBUG "    dtyp: {}" [fst dtyp; snd dtyp];;
      lines ← lift (os.readlines fs dbd_file);
      hit ← lift (any_device_line dtyp lines);
      if (hit : bool) then
        logger INFO "Found dependency on dtyp {}" [fst dtyp; snd dtyp];;
        mret true
      else find_dtyps_loop dbd_file rest
  end.

Definition find_dtyps (m : Matches) (dbd_file : string) : M bool :=
  find_dtyps_loop dbd_file (elements (dtyps m)).

(** [for template in self._matches['templates']] *)
Fixpoint find_templates_loop (db_dir : string) (templates : list string) : M bool :=
  match templates with
  | [] => mret false
  | template :: rest =>
      logger DEBUG "template: {}" [template];;
      entries ← lift (os.listdir fs db_dir);
      if member template entries then
        logger INFO "Found dependency on template {}" [template];;
        mret true
      else find_templates_loop db_dir rest
  end.

Definition find_templates (m : Matches) (db_dir : string) : M bool :=
  find_templates_loop db_dir (elements (templates m)).

(** *** The dependencies *)

(** [module.rsplit(',', 1)[0]] *)
Definition override_name (module : string) : string :=
  hd "" (Str.rsplit1 "," module).

(** The version of a user-defined dependency: the one given after the
    comma ([len(tmp) == 2]), else the one [module_version] selects. *)
Definition override_version (eb_version ta module : string) : M (option string) :=
  match Str.rsplit1 "," module with
  | [_; v] => mret (Some v)
  | _ => module_version (override_name module) "" eb_version ta
  end.

(** The loop of [__init__] over the user-defined dependencies. *)
Fixpoint init_loop (name eb_version ta : string) (ud : list string)
    (deps : gset dependency) : M (gset dependency) :=
  match ud with
  | [] => mret deps
  | module :: rest =>
      let modulename := override_name module in
      moduleversion ← override_version eb_version ta module;
      (if has_unsupported_char modulename
       then logger WARNING "Library {} contains unsupported characters" [modulename]
       else mret tt);;
      if String.eqb modulename name then init_loop name eb_version ta rest deps
      else init_loop name eb_version ta rest ({[ (modulename, moduleversion) ]} ∪ deps)
  end.

Definition empty_matches : Matches := mkMatches ∅ ∅ ∅ ∅.

Definition __init__ (name : string) (files : Files) (prefix eb_version ta : string)
    (ud : list string) : M DependencyResolver :=
  logger INFO "Dependency resolver for {}" [name];;
  deps ← init_loop name eb_version ta ud ∅;
  mret (mkDependencyResolver name files prefix eb_version ta ud deps empty_matches).

Definition depends_on (self : DependencyResolver) (modulename : string) : bool :=
  existsb (fun x => String.eqb (fst x) modulename) (elements (_dependencies self)).

Definition add_dependency (self : DependencyResolver) (modulename : string)
    : M DependencyResolver :=
  if existsb (String.eqb modulename) (map override_name (_ud self)) then mret self
  else
    version ← module_version modulename "" (_eb_version self) (_ta self);
    logger INFO "Found dependency on {}" [modulename];;
    mret (set_dependencies self ({[ (modulename, version) ]} ∪ _dependencies self)).

(** The tests [resolve] runs on one version directory of an installed
    module, in their order; [true] means that a dependency was found, after
    which [resolve] adds it and leaves the loop over the versions. *)
Definition has_evidence (self : DependencyResolver) (installed_module modulepath version : string)
    : M bool :=
  let db_dir := os.join modulepath [version; "db"] in
  let header_dir := os.join modulepath [version; _eb_version self; "include"] in
  let dbd_file :=
    os.join modulepath [version; _eb_version self; "dbd"; installed_module +:+ ".dbd"] in
  h ← (if os.isdir fs header_dir then find_headers (_matches self) header_dir
       else mret false);
  if (h : bool) then mret true else
  r ← (if os.isfile fs dbd_file then find_records (_matches self) dbd_file
       else mret false);
  if (r : bool) then mret true else
  d ← (if os.isfile fs dbd_file then find_dtyps (_matches self) dbd_file
       else mret false);
  if (d : bool) then mret true else
  if os.isdir fs db_dir then find_templates (_matches self) db_dir else mret false.

(** [for version in os.listdir(modulepath)] *)
Fixpoint scan_versions (self : DependencyResolver) (installed_module modulepath : string)
    (versions : list string) : M DependencyResolver :=
  match versions with
  | [] => mret self
  | version :: rest =>
      if negb (os.isdir fs (os.join modulepath [version])) then
        scan_versions self installed_module modulepath rest
      else if negb (is_strict_version version) then
        logger INFO "Skipping {} {}, not MAJOR.MINOR.PATCH format"
          [installed_module; version];;
        scan_versions self installed_module modulepath rest
      else
        logger INFO "Checking against {} {}" [installed_module; version];;
        found ← has_evidence self installed_module modulepath version;
        if (found : bool) then add_dependency self installed_module
        else scan_versions self installed_module modulepath rest
  end.

(** The body of [for installed_module in os.listdir(self._prefix)]. *)
Definition resolve_module (self : DependencyResolver) (installed_module : string)
    : M DependencyResolver :=
  let modulepath := os.join (_prefix self) [installed_module] in
  if String.eqb installed_module (_name self) then mret self
  else if depends_on self installed_module then mret self
  else if negb (os.isdir fs modulepath) || islink fs modulepath then mret self
  else
    versions ← lift (os.listdir fs modulepath);
    scan_versions self installed_module modulepath versions.

(** The three loops over the sources add to [self._matches]; the loop over
    the installed modules follows. *)
Definition resolve (self : DependencyResolver) : M DependencyResolver :=
  matches ← scan_sources (_files self) (_matches self);
  let self := set_matches self matches in
  installed ← lift (os.listdir fs (_prefix self));
  for_each resolve_module installed self.

Definition list_deps (self : DependencyResolver) : gset dependency := _dependencies self.

(** *** recursive_solve *)

(** The fields of [args] that [recursive_solve] reads. *)
Record Args : Type := mkArgs {
  prefix : string;
  epicsbase : string;
  targetarch : string
}.

(** The dependency a line of a recorded dependency file stands for. *)
Definition line_dependency (args : Args) (line : string) : M dependency :=
  let depmodule := Str.split "," (Str.strip line) in
  match depmodule with
  | [name; comp_version] =>
      version ← module_version name comp_version (epicsbase args) (targetarch args);
      mret (name, version)
  | name :: _ =>
      version ← module_version name "" (epicsbase args) (targetarch args);
      mret (name, version)
  | [] => lift (Raise IndexError)
  end.

(** [module_path]: the include directory of a module version for the
    active base version. *)
Definition include_dir (args : Args) (name version : string) : string :=
  os.join (prefix args) [name; version; epicsbase args; "include"].

(** [depfile]: the dependency file recorded for a module version. *)
Definition recorded_depfile (args : Args) (name version : string) : string :=
  os.join (EPICS_MODULES_PATH env)
    [name; version; epicsbase args; "lib"; targetarch args; name +:+ ".dep"].

(** [depth] counts down from 10; the callers never pass a negative one. *)
Fixpoint recursive_solve (module : dependency) (args : Args) (depth : nat)
    : M (gset dependency) :=
  match depth with
  | O =>
      logger WARNING "Reached depth 10, not looking further." [];;
      mret ∅
  | S depth =>
      let deps : gset dependency := {[ module ]} in
      match snd module with
      | None => mret deps
      | Some version =>
          if String.eqb version "" then mret deps else
          let module_path := include_dir args (fst module) version in
          if negb (os.isdir fs module_path) then
            logger DEBUG "Could not find {}" [module_path];;
            mret deps
          else
            let depfile := recorded_depfile args (fst module) version in
            if negb (os.isfile fs depfile) then
              logger WARNING "Could not find {}" [depfile];;
              mret deps
            else
              lines ← lift (os.readlines fs depfile);
              for_each (fun deps line =>
                          rmodule ← line_dependency args line;
                          more ← recursive_solve rmodule args depth;
                          mret (deps ∪ more))
                lines deps
      end
  end.

(** *** main: the set of dependencies that is printed *)

(** [deps] as [main] computes it once [resolve] has run: with
    [--recursive] the union of what [recursive_solve] returns for each
    dependency of the resolver, at its default depth of 10, and else the
    resolver's own set. *)
Definition main_deps (recursive : bool) (dpres : DependencyResolver) (args : Args)
    : M (gset dependency) :=
  if recursive then
    for_each (fun deps module =>
                more ← recursive_solve module args 10;
                mret (deps ∪ more))
      (elements (list_deps dpres)) ∅
  else mret (list_deps dpres).

End World.

(** *** The output formats

    The formatting functions iterate over the dependencies they are given,
    in the order in which the iteration yields them; they are modelled on
    the list of the dependencies in that order. *)

(** The end of a line. *)
Definition nl : string := String "010" EmptyString.

Definition format_dbflags (modules : list dependency) (prefix : string) : string :=
  fold_left (fun res module =>
      if Str.truthy (snd module) then
        let temp := os.join prefix [fst module; default "" (snd module); "db"] in
        res +:+ ("-I" +:+ temp +:+ " ")
      else res)
    modules " ".

Definition format_make (modules : list dependency) (epics_base prefix osclass : string)
    : string :=
  fold_left (fun res module =>
      if Str.truthy (snd module) then
        let temp :=
          os.join prefix [fst module; default "" (snd module); epics_base; "include"] in
        let res := res +:+ ("-I" +:+ temp +:+ " ") in
        let temp :=
          os.join prefix [fst module; default "" (snd module); epics_base; "include";
                          "os"; osclass] in
        let res := res +:+ ("-I" +:+ temp +:+ " ") in
        let temp :=
          os.join prefix [fst module; default "" (snd module); epics_base; "include";
                          "os"; "default"] in
        res +:+ ("-I" +:+ temp +:+ " ")
      else res)
    modules "DEPENDENCIES_INCLUDES = ".

Definition format_cflags (modules : list dependency) (epics_base prefix osclass : string)
    : string :=
  fold_left (fun res module =>
      if Str.truthy (snd module) then
        let temp :=
          os.join prefix [fst module; default "" (snd module); epics_base; "include"] in
        let res := res +:+ ("-I" +:+ temp +:+ " ") in
        let temp :=
          os.join prefix [fst module; default "" (snd module); epics_base; "include";
                          "os"; osclass] in
        let res := res +:+ ("-I" +:+ temp +:+ " ") in
        let temp :=
          os.join prefix [fst module; default "" (snd module); epics_base; "include";
                          "os"; "default"] in
        res +:+ ("-I" +:+ temp +:+ " ")
      else res)
    modules " ".

(** [format_vpath] prints the name of each module while it builds its
    result: the value is the list of the lines printed and the result. *)
Definition format_vpath (modules : list dependency) (epics_base prefix osclass : string)
    : list string * string :=
  fold_left (fun state module =>
      let printed := fst state ++ [fst module] in
      let res := snd state in
      if Str.truthy (snd module) then
        let res :=
          res +:+ os.join prefix [fst module; default "" (snd module); epics_base; "include"] in
        let res := res +:+ " " in
        let res :=
          res +:+ os.join prefix [fst module; default "" (snd module); epics_base; "include";
                                  "os"; osclass] in
        let res := res +:+ " " in
        let res :=
          res +:+ os.join prefix [fst module; default "" (snd module); epics_base; "include";
                                  "os"; "default"] in
        let res := res +:+ " " in
        (printed, res)
      else (printed, res))
    modules ([], " ").

(** One line for each dependency: [name,MAJOR.MINOR+] for a version of two
    components or more, [name,version] for a version of one component, and
    the bare name for a dependency without version. *)
Definition format_dep (modules : list dependency) : string :=
  fold_left (fun res module =>
      if Str.truthy (snd module) then
        let version := Str.split "." (default "" (snd module)) in
        match version with
        | v0 :: v1 :: _ => res +:+ (fst module +:+ "," +:+ v0 +:+ "." +:+ v1 +:+ "+" +:+ nl)
        | [v0] => res +:+ (fst module +:+ "," +:+ v0 +:+ nl)
        | [] => res
        end
      else res +:+ (fst module +:+ nl))
    modules "".

End get_prerequisites.

(** ** The texts the patterns are written for *)

Module Shapes.

(** A numeric component as the patterns read it: [0], or digits that do not
    begin with [0]. *)
Definition numeral (s : string) : bool :=
  String.eqb s "0"
  || match s with
     | String c ds => Str.in_range "1" "9" c && Str.all_digits ds
     | EmptyString => false
     end.

(** Every character of [s] belongs to the class [ranges]. *)
Fixpoint all_in (ranges : list (ascii * ascii)) (s : string) : bool :=
  match s with
  | EmptyString => true
  | String c s' => Re.in_class ranges c && all_in ranges s'
  end.

(** [s] begins with a character of the class [ranges]. *)
Definition starts_in (ranges : list (ascii * ascii)) (s : string) : bool :=
  match s with
  | String c _ => Re.in_class ranges c
  | EmptyString => false
  end.

(** [s] begins with a plus sign. *)
Definition starts_plus (s : string) : bool :=
  match s with
  | String c _ => Ascii.eqb c "+"
  | EmptyString => false
  end.

(** The five comparison operators of a condition, and the classes its
    pattern is made of: the two signs an operator may begin with, and the
    digits and the dot of a version. *)
Definition operators : list string := ["<"; "<="; ">"; ">="; "="].
Definition op_class : list (ascii * ascii) := [("<", "<"); (">", ">")]%char.
Definition version_class : list (ascii * ascii) := [("0", "9"); (".", ".")]%char.

(** The text MAJOR.MINOR.PATCH. *)
Definition dotted (a b c : string) : string :=
  a +:+ String "." (b +:+ String "." c).

(** The number that a numeral writes in base ten. *)
Definition decimal (s : string) : Z :=
  fold_left (fun n c => 10 * n + (Z.of_nat (nat_of_ascii c) - 48)) (list_ascii_of_string s) 0.

(** [s] without the plus sign it may end with. *)
Fixpoint without_plus (s : string) : string :=
  match s with
  | EmptyString => EmptyString
  | String c s' =>
      match s' with
      | EmptyString => if Ascii.eqb c "+" then EmptyString else s
      | _ => String c (without_plus s')
      end
  end.

(** [s] without the line feed it may end with. *)
Fixpoint without_newline (s : string) : string :=
  match s with
  | EmptyString => EmptyString
  | String c s' =>
      match s' with
      | EmptyString => if Ascii.eqb c "010" then EmptyString else s
      | _ => String c (without_newline s')
      end
  end.

(** The texts of the form MAJOR[.MINOR[.PATCH]][+]: one, two or three
    numerals with dots between them, and a plus sign or nothing after
    them. *)
Definition version_form (s : string) : bool :=
  match Str.split "." (without_plus s) with
  | [a] => numeral a
  | [a; b] => numeral a && numeral b
  | [a; b; c] => numeral a && numeral b && numeral c
  | _ => false
  end.

(** The digits [s] begins with, and what follows them. *)
Fixpoint digit_run (s : string) : string * string :=
  match s with
  | String c s' =>
      if Str.is_digit c
      then let '(ds, rest) := digit_run s' in (String c ds, rest)
      else (EmptyString, s)
  | EmptyString => (EmptyString, EmptyString)
  end.

(** The numeral [s] begins with, and what follows it. A zero is a numeral
    on its own, whatever follows it; another digit begins the numeral made
    of all the digits that follow it. *)
Definition first_numeral (s : string) : option (string * string) :=
  match s with
  | String c s' =>
      if Ascii.eqb c "0" then Some ("0", s')
      else if Str.is_digit c
           then let '(ds, rest) := digit_run s' in Some (String c ds, rest)
           else None
  | EmptyString => None
  end.

(** The numeral that follows the dot [s] begins with. *)
Definition next_numeral (s : string) : option (string * string) :=
  match s with
  | String c s' => if Ascii.eqb c "." then first_numeral s' else None
  | EmptyString => None
  end.

(** The version that a text begins with: its longest beginning MAJOR,
    MAJOR.MINOR or MAJOR.MINOR.PATCH is read, a component that is missing
    counts as zero, and the version is exact unless a plus sign follows that
    beginning. Whatever else follows is not looked at. A text that begins
    with no numeral is read as the zero version, which is not exact. *)
Definition read_version (s : string) : check_excludes.EpicsModule :=
  match first_numeral s with
  | None => check_excludes.mkEpicsModule 0 0 0 false
  | Some (a, r1) =>
      match next_numeral r1 with
      | None => check_excludes.mkEpicsModule (decimal a) 0 0 (negb (starts_plus r1))
      | Some (b, r2) =>
          match next_numeral r2 with
          | None =>
              check_excludes.mkEpicsModule (decimal a) (decimal b) 0 (negb (starts_plus r2))
          | Some (c, r3) =>
              check_excludes.mkEpicsModule (decimal a) (decimal b) (decimal c)
                (negb (starts_plus r3))
          end
      end
  end.

End Shapes.

(** ** Version selection, as the specification words it

    The selection of a version is described by three sources tried in
    order: the entry for the module in the architecture-specific mapping
    file, the entry in the architecture-independent one, and the highest
    installed version that satisfies the requested comparison version. The
    definitions of this module say what an entry, an installed version and
    a highest version are, without running the script. *)

Module Selection.

Import check_excludes get_prerequisites Shapes.

Fixpoint comma_free (s : string) : bool :=
  match s with
  | EmptyString => true
  | String c s' => negb (Ascii.eqb c ",") && comma_free s'
  end.

(** A line of a mapping file is the entry [module,version]. *)
Definition is_entry (module version line : string) : Prop :=
  Str.strip line = module +:+ "," +:+ version /\ comma_free version = true.

(** A line that is the name of [module] alone, with no comma and no
    version after it. *)
Definition bare_name (module line : string) : Prop :=
  Str.strip line = module /\ comma_free module = true.

(** What the lines of a mapping file say about [module]: the version of
    the first line that names the module, and nothing when no line names
    it. When the first line that names the module is its bare name, the
    file cannot be read for the module, and the reading ends in
    [IndexError]. *)
Inductive first_entry (module : string) : list string -> result (option string) -> Prop :=
| first_entry_nil : first_entry module [] (Ok None)
| first_entry_here line rest version :
    is_entry module version line ->
    first_entry module (line :: rest) (Ok (Some version))
| first_entry_bare line rest :
    bare_name module line ->
    first_entry module (line :: rest) (Raise IndexError)
| first_entry_skip line rest r :
    (forall version, ~ is_entry module version line) ->
    ~ bare_name module line ->
    first_entry module rest r ->
    first_entry module (line :: rest) r.

(** The three numbers of a strictly numeric version: the name is made of
    three numerals with dots between them, and is read as the triple of the
    numbers they write. The name of a directory may end with a line feed,
    which the end anchor of the pattern of an installed version lets pass;
    such a name is read without it. *)
Definition version_triple (version : string) : option (Z * Z * Z) :=
  match Str.split "." (without_newline version) with
  | [a; b; c] =>
      if numeral a && numeral b && numeral c
      then Some (decimal a, decimal b, decimal c)
      else None
  | _ => None
  end.

Definition strictly_numeric (version : string) : bool :=
  match version_triple version with
  | Some _ => true
  | None => false
  end.

(** The order of the triples (major, minor, patch): the major numbers
    decide, then the minor ones, then the patch ones. *)
Definition triple_le (t1 t2 : Z * Z * Z) : Prop :=
  let '(a1, b1, c1) := t1 in
  let '(a2, b2, c2) := t2 in
  a1 < a2 \/ (a1 = a2 /\ b1 < b2) \/ (a1 = a2 /\ b1 = b2 /\ c1 <= c2).

(** Version [other] is not above [version]. *)
Definition not_above (other version : string) : Prop :=
  match version_triple other, version_triple version with
  | Some t', Some t => triple_le t' t
  | _, _ => False
  end.

Section World.

Variable fs : FileSystem.
Variable env : Environ.

(** What the mapping file [file] says about [module]; a file that does not
    exist says nothing. *)
Definition default_in (file module : string) (d : result (option string)) : Prop :=
  match lookup_path fs file with
  | Some (File lines) => first_entry module lines d
  | _ => d = Ok None
  end.

(** No line of [file] is the bare name of [module]. *)
Definition no_bare_entry (file module : string) : Prop :=
  forall lines,
    lookup_path fs file = Some (File lines) ->
    Forall (fun line => ~ bare_name module line) lines.

(** [version] is a version of [module] in the installation: an entry of
    the directory of the module whose name is strictly numeric. *)
Definition listed (module version : string) : Prop :=
  exists entries,
    lookup_path fs (os.join (EPICS_MODULES_PATH env) [module]) = Some (Dir entries)
    /\ In version entries
    /\ strictly_numeric version = true.

(** [version] is installed for the base version and the architecture: it
    is a version of the module that holds the dependency file of the module
    for them. *)
Definition installed (module epics_base_version target_arch version : string) : Prop :=
  listed module version
  /\ os.isfile fs (module_depfile env module version epics_base_version target_arch) = true.

(** An installed version that satisfies the comparison version. *)
Definition candidate (module comp_version epics_base_version target_arch version : string)
    : Prop :=
  installed module epics_base_version target_arch version
  /\ module_match (Text comp_version) (Text version) = Ok true.

(** [r] is a highest candidate, or [None] when there is no candidate. *)
Definition highest_installed (module comp_version epics_base_version target_arch : string)
    (r : option string) : Prop :=
  match r with
  | Some version =>
      candidate module comp_version epics_base_version target_arch version
      /\ forall other,
           candidate module comp_version epics_base_version target_arch other ->
           not_above other version
  | None =>
      forall version,
        ~ candidate module comp_version epics_base_version target_arch version
  end.

(** The outcome of the selection: the first of the three sources that
    names a version, which is not empty, decides. A source is consulted
    only when those before it named no version, and a mapping file that
    cannot be read for the module ends the selection with its exception. *)
Inductive selected (module comp_version epics_base_version target_arch : string)
    : result (option string) -> Prop :=
| selected_arch version :
    default_in (arch_default_file env epics_base_version target_arch) module
      (Ok (Some version)) ->
    version <> "" ->
    selected module comp_version epics_base_version target_arch (Ok (Some version))
| selected_arch_unread e :
    default_in (arch_default_file env epics_base_version target_arch) module (Raise e) ->
    selected module comp_version epics_base_version target_arch (Raise e)
| selected_default d1 version :
    default_in (arch_default_file env epics_base_version target_arch) module (Ok d1) ->
    Str.truthy d1 = false ->
    default_in (epics_default_file env epics_base_version) module (Ok (Some version)) ->
    version <> "" ->
    selected module comp_version epics_base_version target_arch (Ok (Some version))
| selected_default_unread d1 e :
    default_in (arch_default_file env epics_base_version target_arch) module (Ok d1) ->
    Str.truthy d1 = false ->
    default_in (epics_default_file env epics_base_version) module (Raise e) ->
    selected module comp_version epics_base_version target_arch (Raise e)
| selected_installed d1 d2 r :
    default_in (arch_default_file env epics_base_version target_arch) module (Ok d1) ->
    Str.truthy d1 = false ->
    default_in (epics_default_file env epics_base_version) module (Ok d2) ->
    Str.truthy d2 = false ->
    highest_installed module comp_version epics_base_version target_arch r ->
    selected module comp_version epics_base_version target_arch (Ok r).

End World.

End Selection.

(** ** Dependency sets, as the specification words them *)

Module Resolution.

Import get_prerequisites.

(** A module appears at most once in a dependency set. *)
Definition unique_names (deps : gset dependency) : Prop :=
  forall m v1 v2, (m, v1) ∈ deps -> (m, v2) ∈ deps -> v1 = v2.

(** The module names of a dependency set. *)
Definition names (deps : gset dependency) : gset string := set_map fst deps.

(** A log record speaks of [m]: the first argument of its message is
    [m]. *)
Definition speaks_of (m : string) (r : log_record) : Prop :=
  hd_error (record_args r) = Some m.

(** The messages of the detection: what the loop of [resolve] over the
    installed modules writes about the module it is at, together with
    [add_dependency] and [module_version], which it calls for that
    module. *)
Definition detection_formats : list string :=
  ["Skipping {} {}, not MAJOR.MINOR.PATCH format";
   "Checking against {} {}";
   "Found dependency on {}";
   "No version found for module {}"].

(** A record of the detection about module [m]: its message is one of the
    detection, and the module the message is formatted with is [m]. *)
Definition detection_of (m : string) (r : log_record) : Prop :=
  In (record_format r) detection_formats /\ speaks_of m r.

(** The messages of the search for evidence: what the three loops over the
    sources and the four [find_*] methods write. *)
Definition evidence_formats : list string :=
  ["Wasn't a dfile {}"; "Wasn't a dbfile: {}"; "Wasn't a subsfile: {}"; "Skipping: {}";
   "  header: {}"; "Found dependency on header {}";
   "  record: {}"; "Found dependency on record {}";
   "    dtyp: {}"; "Found dependency on dtyp {}";
   "template: {}"; "Found dependency on template {}"].

Definition evidence_record (r : log_record) : Prop :=
  In (record_format r) evidence_formats.

(** The text of a user override for module [m] at version [v]. *)
Definition override (m v : string) : string := m +:+ "," +:+ v.

(** What a step of the resolver may do to its state: nothing, or add one
    dependency on [m], which no user override names. *)
Definition adds (m : string) (self self' : DependencyResolver) : Prop :=
  self' = self
  \/ (~ In m (map override_name (_ud self))
      /\ exists v, self' = set_dependencies self ({[ (m, v) ]} ∪ _dependencies self)).

(** A resolver for the base version [eb_version] and the architecture
    [ta]. *)
Definition configured (eb_version ta : string) (self : DependencyResolver) : Prop :=
  _eb_version self = eb_version /\ _ta self = ta.

(** A dependency that the detection of [self] may add: its module is an
    entry of the installation root, a directory and no link, it is not the
    module of the resolver, no user override names it, and its version is
    the one [module_version] selects without comparison version. *)
Definition detectable (fs : FileSystem) (env : Environ) (self : DependencyResolver)
    (d : dependency) : Prop :=
  (exists installed, os.listdir fs (_prefix self) = Ok installed /\ In (fst d) installed)
  /\ fst d <> _name self
  /\ ~ In (fst d) (map override_name (_ud self))
  /\ os.isdir fs (os.join (_prefix self) [fst d]) = true
  /\ islink fs (os.join (_prefix self) [fst d]) = false
  /\ outcome (module_version fs env (fst d) "" (_eb_version self) (_ta self)) = Ok (snd d).

(** The dependency on [m] that a step of the detection adds to [self]:
    no user override names [m], and the version is the one
    [module_version] selects without comparison version. *)
Definition added (fs : FileSystem) (env : Environ) (m : string)
    (self self' : DependencyResolver) : Prop :=
  ~ In m (map override_name (_ud self))
  /\ exists v,
       outcome (module_version fs env m "" (_eb_version self) (_ta self)) = Ok v
       /\ self' = set_dependencies self ({[ (m, v) ]} ∪ _dependencies self).

(** The dependencies that have a version: the others are system
    libraries. *)
Definition versioned (modules : list dependency) : list dependency :=
  List.filter (fun module => Str.truthy (snd module)) modules.

(** The evidence [m'] holds what [m] holds, and the same headers. *)
Definition only_adds (m m' : Matches) : Prop :=
  headers m' = headers m
  /\ records m ⊆ records m'
  /\ dtyps m ⊆ dtyps m'
  /\ templates m ⊆ templates m'.

(** What [m'] holds beyond [m] is no record type and no device support of
    EPICS base. *)
Definition no_base_evidence (m m' : Matches) : Prop :=
  (forall record, record ∈ records m' ->
     record ∈ records m \/ ~ In record EPICS_BASE_RECORDS)
  /\ (forall dtyp, dtyp ∈ dtyps m' ->
        dtyp ∈ dtyps m \/ ~ In (snd dtyp) EPICS_BASE_DEVICESUPPORTS).

(** [m'] holds what [m] holds, and nothing of EPICS base beyond it. *)
Definition extends (m m' : Matches) : Prop := only_adds m m' /\ no_base_evidence m m'.

(** Two resolvers that differ by their dependencies and their evidence
    at most. *)
Definition same_module (self self' : DependencyResolver) : Prop :=
  _name self' = _name self /\ _prefix self' = _prefix self
  /\ _eb_version self' = _eb_version self /\ _ta self' = _ta self
  /\ _ud self' = _ud self.

End Resolution.

(** ** A small installation to run the scripts on *)

Module Fixture.

Import get_prerequisites.

Fixpoint assoc (l : list (string * node)) (p : string) : option node :=
  match l with
  | [] => None
  | (q, n) :: l' => if String.eqb p q then Some n else assoc l' p
  end.

(** [os.walk(top)] on the paths of [l], top down, for trees that are less
    than [depth] directories deep: the directory, the names in it that are
    no directories, and then the walk of each of its directories. *)
Fixpoint walk_of (l : list (string * node)) (depth : nat) (top : string)
    : list (string * list string) :=
  match depth with
  | O => []
  | S depth' =>
      match assoc l top with
      | Some (Dir names) =>
          let is_dir name :=
            match assoc l (os.join top [name]) with
            | Some (Dir _) => true
            | _ => false
            end in
          (top, List.filter (fun name => negb (is_dir name)) names)
          :: flat_map (fun name => walk_of l depth' (os.join top [name]))
               (List.filter is_dir names)
      | _ => []
      end
  end.

Definition fs_of (l : list (string * node)) : FileSystem :=
  mkFileSystem (assoc l) (fun _ => false) (walk_of l 8).

Definition env : Environ := mkEnviron "/bases" "/mods".

Definition nl : string := String "010" EmptyString.

(** Module [baz] is installed in versions 1.0.0, 1.10.0 and 1.9.0 and in a
    development version; module [asyn] in version 4.2.0, with a default for
    it in the configuration of base 3.15. Module [app] is the one being
    built: the dependency file of its object file names a header of [baz]
    and a header of [asyn]. *)
Definition fs : FileSystem := fs_of [
  ("/mods", Dir ["baz"; "asyn"; "app"]);
  ("/mods/baz", Dir ["1.0.0"; "1.10.0"; "1.9.0"; "dev"]);
  ("/mods/baz/1.0.0", Dir ["3.15"; "db"]);
  ("/mods/baz/1.9.0", Dir ["3.15"; "db"]);
  ("/mods/baz/1.10.0", Dir ["3.15"; "db"]);
  ("/mods/baz/dev", Dir []);
  ("/mods/baz/1.0.0/3.15/include", Dir ["baz.h"]);
  ("/mods/baz/1.0.0/3.15/lib/linux/baz.dep", File []);
  ("/mods/baz/1.9.0/3.15/lib/linux/baz.dep", File ["asyn,4.2+" +:+ nl]);
  ("/mods/baz/1.10.0/3.15/lib/linux/baz.dep", File ["asyn,4.2+" +:+ nl]);
  ("/mods/baz/1.10.0/3.15/include", Dir ["baz.h"]);
  ("/mods/asyn", Dir ["4.2.0"]);
  ("/mods/asyn/4.2.0", Dir ["3.15"]);
  ("/mods/asyn/4.2.0/3.15/include", Dir ["asyn.h"]);
  ("/mods/asyn/4.2.0/3.15/lib/linux/asyn.dep", File []);
  ("/mods/app", Dir []);
  ("/bases/base-3.15/configure/default.dep", File ["asyn,4.2.0" +:+ nl]);
  ("app.d", File ["app.o: app.c baz.h asyn.h" +:+ nl])
].

Definition files : Files := mkFiles ["app.d"] [] [].

(** No line declares a device support. *)
Definition device_line (_ : string * string) (_ : string) : result bool := Ok false.

Definition args : Args := mkArgs "/mods" "3.15" "linux".

(** The resolver of module [app] with the user overrides [ud], run to the
    end of [resolve]. *)
Definition resolved (ud : list string) : M DependencyResolver :=
  self ← __init__ fs env "app" files "/mods" "3.15" "linux" ud;
  resolve fs env device_line self.

(** The value a computation returned, or [d] if it raised. *)
Definition returned {A : Type} (d : A) (m : M A) : A :=
  match outcome m with
  | Ok a => a
  | Raise _ => d
  end.

(** The resolver of module [app] as [__init__] leaves it. *)
Definition initial (ud : list string) : DependencyResolver :=
  returned (mkDependencyResolver "app" files "/mods" "3.15" "linux" ud ∅ empty_matches)
    (__init__ fs env "app" files "/mods" "3.15" "linux" ud).

(** An installation whose architecture-specific mapping file holds a line
    without version. *)
Definition fs_bare_line : FileSystem := fs_of [
  ("/bases/base-3.15/configure/default.linux.dep",
   File ["asyn,4.2.0" +:+ nl; "baz" +:+ nl])
].

(** An installation in which the highest version of [asyn] was built for
    another base version: it holds no dependency file for base 3.15. *)
Definition fs_other_base : FileSystem := fs_of [
  ("/mods/asyn", Dir ["1.0.0"; "2.0.0"]);
  ("/mods/asyn/1.0.0", Dir ["3.15"]);
  ("/mods/asyn/2.0.0", Dir ["3.14"]);
  ("/mods/asyn/1.0.0/3.15/lib/linux/asyn.dep", File []);
  ("/mods/asyn/2.0.0/3.14/lib/linux/asyn.dep", File [])
].

(** The sources of a module that uses the record type and a template of an
    installed module [motor]. *)
Definition fs_sources : FileSystem := fs_of [
  ("axis.template",
   File ["# one axis" +:+ nl; "record(motor,$(P)$(M)) {" +:+ nl; "}" +:+ nl]);
  ("axis.substitutions", File ["file basic_motor.template {" +:+ nl; "}" +:+ nl]);
  ("/mods/motor/7.0.1/3.15/dbd/motor.dbd", File ["recordtype(motor) {" +:+ nl]);
  ("/mods/motor/7.0.1/db", Dir ["basic_motor.template"; "README"])
].

Definition sources : Files := mkFiles [] ["axis.template"] ["axis.substitutions"].

(** An installation whose recorded dependency file ends in an empty
    line. *)
Definition fs_empty_line : FileSystem := fs_of [
  ("/mods/baz/1.0.0/3.15/include", Dir ["baz.h"]);
  ("/mods/baz/1.0.0/3.15/lib/linux/baz.dep", File ["pthread" +:+ nl; nl])
].

End Fixture.

(** * Properties *)

(** ** The matcher is sound for the declarative reading of an expression *)

Module ReFacts.

Import Re.

Lemma group_app (a b : captures) (n : nat) :
  group (a ++ b) n = match group a n with Some g => Some g | None => group b n end.
Proof.
  induction a as [|[i g] a IH]; simpl; [reflexivity|].
  destruct (i =? n)%nat; [reflexivity | exact IH].
Qed.

Lemma group_In (m : captures) (n : nat) (g : string) :
  group m n = Some g -> In (n, g) m.
Proof.
  induction m as [|[i h] m IH]; simpl; [discriminate|].
  destruct (Nat.eqb_spec i n) as [->|_].
  - intros [= ->]. now left.
  - intros H. right. now apply IH.
Qed.

Lemma recorded_mono (r r' : regex) (e : nat * string) :
  (forall n b, In b (bodies r n) -> In b (bodies r' n)) ->
  recorded r e -> recorded r' e.
Proof.
  intros Hsub (b & s & s' & Hb & Hm & He).
  exists b, s, s'. auto.
Qed.

Section Soundness.

Context {A : Type}.
Variable whole : nat.

(** What a successful run of [r] guarantees: some declarative match of [r],
    after which the continuation succeeded on captures that extend the old
    ones by recorded texts, every group that [r] defines among them. *)
Definition sound_at (r : regex) : Prop :=
  forall s caps (k : @cont A) x,
    run whole r s caps k = Some x ->
    exists s' new,
      matches r s s' /\ k s' (new ++ caps) = Some x
      /\ Forall (recorded r) new
      /\ (forall n, defines r n = true -> is_Some (group new n)).

Lemma star_loop_sound (r : regex) :
  sound_at r ->
  forall fuel s caps (k : @cont A) x,
    star_loop (run whole r) fuel s caps k = Some x ->
    exists s' new,
      matches (Star r) s s' /\ k s' (new ++ caps) = Some x
      /\ Forall (recorded (Star r)) new.
Proof.
  intros Hr fuel. induction fuel as [|fuel IH]; intros s caps k x H; simpl in H.
  - exists s, []. repeat split; [constructor | exact H | constructor].
  - destruct (run whole r s caps _) as [y|] eqn:Hstep.
    + injection H as ->.
      apply Hr in Hstep as (s1 & new1 & Hm1 & Hk1 & Hrec1 & _).
      destruct (String.length s1 <? String.length s)%nat; [|discriminate].
      apply IH in Hk1 as (s2 & new2 & Hm2 & Hk2 & Hrec2).
      exists s2, (new2 ++ new1). repeat split.
      * econstructor; eassumption.
      * now rewrite <- app_assoc.
      * apply Forall_app. split; [exact Hrec2|].
        eapply Forall_impl; [exact Hrec1|]. intros e. now apply recorded_mono.
    + exists s, []. repeat split; [constructor | exact H | constructor].
Qed.

Lemma run_sound (r : regex) : sound_at r.
Proof.
  induction r as [c|ranges|r1 IH1 r2 IH2|r1 IH1 r2 IH2|r IH|r IH|n r IH| |];
    intros s caps k x H; simpl in H.
  - destruct s as [|c' s]; [discriminate|].
    destruct (Ascii.eqb_spec c' c) as [->|]; [|discriminate].
    exists s, []. repeat split; [constructor | exact H | constructor | discriminate].
  - destruct s as [|c' s]; [discriminate|].
    destruct (in_class ranges c') eqn:Hc; [|discriminate].
    exists s, []. repeat split; [now constructor | exact H | constructor | discriminate].
  - apply IH1 in H as (s1 & new1 & Hm1 & Hk1 & Hrec1 & Hdef1).
    apply IH2 in Hk1 as (s2 & new2 & Hm2 & Hk2 & Hrec2 & Hdef2).
    exists s2, (new2 ++ new1). repeat split.
    + econstructor; eassumption.
    + now rewrite <- app_assoc.
    + apply Forall_app. split; (eapply Forall_impl; [eassumption|]); intros e;
        apply recorded_mono; intros n b Hb; simpl; apply in_or_app; auto.
    + intros n Hn. simpl in Hn. rewrite group_app.
      destruct (group new2 n) as [g|] eqn:Hg; [eauto|].
      apply orb_true_iff in Hn as [Hn|Hn]; [now apply Hdef1|].
      apply Hdef2 in Hn. rewrite Hg in Hn. now destruct Hn.
  - destruct (run whole r1 s caps k) as [y|] eqn:H1.
    + injection H as ->.
      apply IH1 in H1 as (s1 & new1 & Hm1 & Hk1 & Hrec1 & Hdef1).
      exists s1, new1. repeat split; [now constructor | exact Hk1 | |].
      * eapply Forall_impl; [eassumption|]. intros e.
        apply recorded_mono; intros n b Hb; simpl; apply in_or_app; auto.
      * intros n Hn. simpl in Hn. apply andb_true_iff in Hn as [Hn _]. auto.
    + apply IH2 in H as (s2 & new2 & Hm2 & Hk2 & Hrec2 & Hdef2).
      exists s2, new2. repeat split; [now apply matches_Alt_r | exact Hk2 | |].
      * eapply Forall_impl; [eassumption|]. intros e.
        apply recorded_mono; intros n b Hb; simpl; apply in_or_app; auto.
      * intros n Hn. simpl in Hn. apply andb_true_iff in Hn as [_ Hn]. auto.
  - apply (star_loop_sound r IH) in H as (s' & new & Hm & Hk & Hrec).
    exists s', new. repeat split; [exact Hm | exact Hk | exact Hrec | discriminate].
  - destruct (run whole r s caps k) as [y|] eqn:H1.
    + injection H as ->.
      apply IH in H1 as (s1 & new1 & Hm1 & Hk1 & Hrec1 & _).
      exists s1, new1. repeat split; [now constructor | exact Hk1 | | discriminate].
      eapply Forall_impl; [eassumption|]. intros e. now apply recorded_mono.
    + exists s, []. repeat split; [apply matches_Opt_none | exact H | constructor | discriminate].
  - apply IH in H as (s' & new & Hm & Hk & Hrec & Hdef).
    exists s', ((n, Str.take (String.length s - String.length s') s) :: new).
    repeat split; [now constructor | exact Hk | |].
    + constructor.
      * exists r, s, s'. simpl. rewrite Nat.eqb_refl. simpl.
        split; [now left | split; [exact Hm | reflexivity]].
      * eapply Forall_impl; [eassumption|]. intros e.
        apply recorded_mono; intros m b Hb; simpl; apply in_or_app; auto.
    + intros m Hm'. simpl in Hm'. simpl.
      destruct (n =? m)%nat; [eauto|]. now apply Hdef.
  - destruct (String.length s =? whole)%nat; [|discriminate].
    exists s, []. repeat split; [constructor | exact H | constructor | discriminate].
  - destruct s as [|c [|c' s]]; try discriminate.
    + exists EmptyString, []. repeat split;
        [constructor; now left | exact H | constructor | discriminate].
    + destruct (Ascii.eqb_spec c "010") as [->|]; [|discriminate].
      exists (String "010" EmptyString), []. repeat split;
        [constructor; now right | exact H | constructor | discriminate].
Qed.

End Soundness.

(** [re.match] succeeds only on a string the expression matches, and its
    match object holds a recorded text for every group the expression
    defines. *)
Lemma match_sound (r : regex) (s : string) (m : captures) :
  match_ r s = Some m ->
  (exists s', matches r s s')
  /\ Forall (recorded r) m
  /\ (forall n, defines r n = true -> is_Some (group m n)).
Proof.
  unfold match_. intros H.
  apply run_sound in H as (s' & new & Hm & Hk & Hrec & Hdef).
  injection Hk as <-. rewrite app_nil_r. eauto.
Qed.

Lemma match_group (r : regex) (s : string) (m : captures) (n : nat) :
  match_ r s = Some m -> defines r n = true ->
  exists g, group m n = Some g /\ recorded r (n, g).
Proof.
  intros H Hn. apply match_sound in H as (_ & Hrec & Hdef).
  destruct (Hdef n Hn) as [g Hg]. exists g. split; [exact Hg|].
  apply group_In in Hg. exact (proj1 (List.Forall_forall _ _) Hrec _ Hg).
Qed.

End ReFacts.

(** ** Strings of digits *)

Module StrFacts.

Import Str.

Lemma append_nil (s : string) : EmptyString +:+ s = s.
Proof. reflexivity. Qed.

Lemma append_cons (c : ascii) (p s : string) : String c p +:+ s = String c (p +:+ s).
Proof. reflexivity. Qed.

Lemma length_append (p s : string) :
  String.length (p +:+ s) = (String.length p + String.length s)%nat.
Proof.
  induction p as [|c p IH]; [reflexivity|].
  rewrite append_cons. simpl. now rewrite IH.
Qed.

Lemma take_append (p s : string) :
  take (String.length (p +:+ s) - String.length s) (p +:+ s) = p.
Proof.
  rewrite length_append.
  replace (String.length p + String.length s - String.length s)%nat
    with (String.length p) by lia.
  induction p as [|c p IH]; [now destruct s|].
  rewrite append_cons. simpl. now rewrite IH.
Qed.

Lemma append_assoc (a b c : string) : (a +:+ b) +:+ c = a +:+ (b +:+ c).
Proof.
  induction a as [|x a IH]; [reflexivity|].
  rewrite !append_cons. now rewrite IH.
Qed.

Lemma append_empty_r (a : string) : a +:+ EmptyString = a.
Proof.
  induction a as [|x a IH]; [reflexivity|].
  rewrite append_cons. now rewrite IH.
Qed.

Lemma all_digits_append (a b : string) :
  all_digits (a +:+ b) = all_digits a && all_digits b.
Proof.
  induction a as [|c a IH]; [reflexivity|].
  rewrite append_cons. simpl. now rewrite IH, andb_assoc.
Qed.

Lemma digit_not_space (c : ascii) : is_digit c = true -> is_space c = false.
Proof.
  unfold is_digit, in_range, is_space. cbn [nat_of_ascii].
  generalize (nat_of_ascii c). intros n.
  change (nat_of_ascii "0") with 48%nat. change (nat_of_ascii "9") with 57%nat.
  intros H. apply andb_true_iff in H as [H1 H2].
  apply Nat.leb_le in H1, H2.
  apply orb_false_iff. split.
  - apply Nat.eqb_neq. lia.
  - apply andb_false_iff. right. apply Nat.leb_gt. lia.
Qed.

Lemma digit_not_sep (c : ascii) :
  is_digit c = true -> Ascii.eqb c "." = false /\ Ascii.eqb c "," = false.
Proof.
  intros H. split; apply Ascii.eqb_neq; intros ->; discriminate H.
Qed.

Lemma lstrip_digits (c : ascii) (s : string) :
  is_digit c = true -> lstrip (String c s) = String c s.
Proof. intros H. simpl. now rewrite (digit_not_space c H). Qed.

(** A run of digits survives [rstrip], with or without a newline after it. *)
Lemma rstrip_digits (g tail : string) :
  all_digits g = true ->
  tail = EmptyString \/ tail = String "010" EmptyString ->
  rstrip (g +:+ tail) = g.
Proof.
  intros Hg Ht. induction g as [|c g IH].
  - destruct Ht as [->| ->]; reflexivity.
  - simpl in Hg. apply andb_true_iff in Hg as [Hc Hg].
    rewrite append_cons. simpl.
    rewrite (IH Hg). rewrite (digit_not_space c Hc). now destruct g.
Qed.

Lemma strip_digits (g tail : string) :
  all_digits g = true -> g <> EmptyString ->
  tail = EmptyString \/ tail = String "010" EmptyString ->
  strip (g +:+ tail) = g.
Proof.
  intros Hg Hne Ht. unfold strip.
  destruct g as [|c g]; [congruence|].
  pose proof Hg as Hg'. simpl in Hg'. apply andb_true_iff in Hg' as [Hc _].
  change (String c g +:+ tail) with (String c (g +:+ tail)).
  rewrite (lstrip_digits c _ Hc).
  change (String c (g +:+ tail)) with (String c g +:+ tail).
  now apply rstrip_digits.
Qed.

(** [int] of a run of digits is its decimal value; a newline after the
    digits is ignored. *)
Lemma int_digits (g tail : string) :
  all_digits g = true -> g <> EmptyString ->
  tail = EmptyString \/ tail = String "010" EmptyString ->
  int (g +:+ tail) = Ok (digits_value 0 g).
Proof.
  intros Hg Hne Ht. unfold int. rewrite (strip_digits g tail Hg Hne Ht).
  destruct g as [|c g]; [congruence|].
  pose proof Hg as Hg'. simpl in Hg'. apply andb_true_iff in Hg' as [Hc _].
  assert (Hplus : c <> "+"%char) by (intros ->; discriminate Hc).
  assert (Hminus : c <> "-"%char) by (intros ->; discriminate Hc).
  destruct c as [[] [] [] [] [] [] [] []]; try discriminate Hc;
    try congruence; now rewrite Hg.
Qed.

Lemma int_run (g : string) :
  all_digits g = true -> g <> EmptyString -> int g = Ok (digits_value 0 g).
Proof.
  intros Hg Hne. rewrite <- (append_empty_r g) at 1. apply int_digits; auto.
Qed.

Lemma digits_value_nonneg (g : string) (acc : Z) :
  all_digits g = true -> 0 <= acc -> 0 <= digits_value acc g.
Proof.
  revert acc. induction g as [|c g IH]; intros acc Hg Hacc; simpl; [exact Hacc|].
  simpl in Hg. apply andb_true_iff in Hg as [Hc Hg].
  apply IH; [exact Hg|].
  unfold is_digit, in_range in Hc. apply andb_true_iff in Hc as [H1 _].
  apply Nat.leb_le in H1. change (nat_of_ascii "0") with 48%nat in H1. lia.
Qed.

Lemma split_max_0 (sep : ascii) (s : string) : split_max sep 0 s = [s].
Proof. now destruct s. Qed.

(** [split] at the first separator after a run of digits. *)
Lemma split_max_digits (g rest : string) (n : nat) :
  all_digits g = true ->
  split_max "." (S n) (g +:+ String "." rest) = g :: split_max "." n rest.
Proof.
  intros Hg. induction g as [|c g IH].
  - reflexivity.
  - simpl in Hg. apply andb_true_iff in Hg as [Hc Hg].
    change (split_max "." (S n) (String c g +:+ String "." rest))
      with (if Ascii.eqb c "." then EmptyString :: split_max "." n (g +:+ String "." rest)
            else match split_max "." (S n) (g +:+ String "." rest) with
                 | w :: ws => String c w :: ws
                 | [] => [String c EmptyString]
                 end).
    rewrite (proj1 (digit_not_sep c Hc)), (IH Hg). reflexivity.
Qed.

End StrFacts.

(** ** What the patterns of the scripts match *)

Module PatternFacts.

Import Re ReFacts StrFacts.

(** A declarative match consumes a prefix of its subject. *)
Lemma matches_prefix (r : regex) (s s' : string) :
  matches r s s' -> exists p, s = p +:+ s'.
Proof.
  induction 1 as [c s|ranges c s _|r1 r2 s s1 s2 _ [p1 ->] _ [p2 ->]
                 |r1 r2 s s' _ IH|r1 r2 s s' _ IH|r s
                 |r s s1 s2 _ [p1 ->] _ [p2 ->]|r s s' _ IH|r s|n r s s' _ IH|s|s _].
  - now exists (String c EmptyString).
  - now exists (String c EmptyString).
  - exists (p1 +:+ p2). now rewrite append_assoc.
  - exact IH.
  - exact IH.
  - now exists EmptyString.
  - exists (p1 +:+ p2). now rewrite append_assoc.
  - exact IH.
  - now exists EmptyString.
  - exact IH.
  - now exists EmptyString.
  - now exists EmptyString.
Qed.

Lemma in_class_digit (c : ascii) : in_class [("0", "9")]%char c = Str.is_digit c.
Proof. unfold in_class. cbn [existsb fst snd]. now rewrite orb_false_r. Qed.

Lemma in_class_digit19 (c : ascii) :
  in_class [("1", "9")]%char c = true -> Str.is_digit c = true.
Proof.
  unfold in_class, Str.is_digit, Str.in_range. cbn [existsb fst snd]. rewrite orb_false_r.
  intros H. apply andb_true_iff in H as [H1 H2].
  apply Nat.leb_le in H1. apply andb_true_iff. split; [|exact H2].
  apply Nat.leb_le. change (nat_of_ascii "0") with 48%nat.
  change (nat_of_ascii "1") with 49%nat in H1. lia.
Qed.

Lemma matches_digits (s s' : string) :
  matches (Star digit) s s' -> exists p, s = p +:+ s' /\ Str.all_digits p = true.
Proof.
  intros H. remember (Star digit) as r eqn:Hr.
  induction H as [| | | | |r s|r s s1 s2 H1 _ _ IH| | | | |]; try discriminate Hr.
  - now exists EmptyString.
  - injection Hr as ->. destruct (IH eq_refl) as (p & -> & Hp).
    inversion H1 as [|ranges c t Hc| | | | | | | | | |]; subst.
    exists (String c p). split; [reflexivity|].
    simpl. rewrite Hp, <- in_class_digit. now rewrite Hc.
Qed.

(** The body of a numeric component consumes a non-empty run of digits. *)
Lemma matches_number_body (s s' : string) :
  matches (Alt (Lit "0") (Cat digit19 (Star digit))) s s' ->
  exists p, s = p +:+ s' /\ Str.all_digits p = true /\ p <> EmptyString.
Proof.
  intros H. inversion H as [| | |r1 r2 t t' H0|r1 r2 t t' H0| | | | | | |]; subst.
  - inversion H0; subst. now exists (String "0" EmptyString).
  - inversion H0 as [| |r1 r2 t t1 t2 Hd Hs| | | | | | | | |]; subst.
    inversion Hd as [|ranges c t Hc| | | | | | | | | |]; subst.
    apply matches_digits in Hs as (p & -> & Hp).
    exists (String c p). repeat split; [|discriminate].
    simpl. now rewrite Hp, (in_class_digit19 c Hc).
Qed.

Lemma matches_number (n : nat) (s s' : string) :
  matches (number n) s s' ->
  exists p, s = p +:+ s' /\ Str.all_digits p = true /\ p <> EmptyString.
Proof.
  intros H. inversion H; subst. now apply matches_number_body.
Qed.

Lemma matches_dot (s s' : string) : matches dot s s' -> s = String "." s'.
Proof. intros H. now inversion H. Qed.

(** The text a numeric group records is a non-empty run of digits. *)
Lemma recorded_number (r : regex) (n : nat) (g : string) :
  bodies r n = [Alt (Lit "0") (Cat digit19 (Star digit))] ->
  recorded r (n, g) ->
  Str.all_digits g = true /\ g <> EmptyString.
Proof.
  intros Hb (b & s & s' & Hin & Hm & Hg). simpl in Hin, Hg.
  rewrite Hb in Hin. destruct Hin as [<-|[]].
  apply matches_number_body in Hm as (p & -> & Hp & Hne).
  rewrite take_append in Hg. now subst g.
Qed.

(** [int(m.group(n))] does not raise for a numeric group of a match. *)
Lemma int_group (r : regex) (s : string) (m : captures) (n : nat) :
  match_ r s = Some m -> defines r n = true ->
  bodies r n = [Alt (Lit "0") (Cat digit19 (Star digit))] ->
  exists z, Str.int_opt (group m n) = Ok z /\ 0 <= z.
Proof.
  intros Hm Hd Hb.
  destruct (match_group r s m n Hm Hd) as (g & Hg & Hrec).
  apply (recorded_number r n g Hb) in Hrec as [Hdig Hne].
  exists (Str.digits_value 0 g). rewrite Hg. simpl. split.
  - now apply int_run.
  - apply digits_value_nonneg; [exact Hdig | lia].
Qed.

End PatternFacts.

(** ** Which strings the patterns of [version_to_tup] reject *)

Module unparsable_facts.

Import Re check_excludes.

Lemma star_loop_succeeds {A : Type} (step : string -> captures -> @cont A -> option A)
    (fuel : nat) (s : string) (caps : captures) (k : @cont A) :
  (forall s' caps', is_Some (k s' caps')) ->
  is_Some (star_loop step fuel s caps k).
Proof.
  intros Hk. destruct fuel as [|fuel]; simpl; [apply Hk|].
  destruct (step s caps _); [eauto | apply Hk].
Qed.

(** A string that begins with a digit matches the pattern MAJOR. *)
Lemma leading_digit_parsable (version : string) :
  leading_digit version = true -> is_Some (match_ pat_major version).
Proof.
  destruct version as [|c s]; [discriminate|]. cbn [leading_digit]. intros Hc.
  unfold match_, pat_major, number, plus_opt. cbn [run].
  destruct (Ascii.eqb c "0") eqn:H0.
  - destruct s as [|c' s'']; [eauto|]. destruct (Ascii.eqb c' "+"); eauto.
  - unfold digit19. cbn [run]. assert (H19 : in_class [("1", "9")]%char c = true).
    { unfold in_class, Str.in_range. cbn [existsb fst snd]. rewrite orb_false_r.
      unfold Str.is_digit, Str.in_range in Hc.
      apply andb_true_iff in Hc as [H1 H2]. rewrite H2, andb_true_r.
      apply Nat.leb_le in H1. apply Nat.leb_le.
      change (nat_of_ascii "0") with 48%nat in H1.
      change (nat_of_ascii "1") with 49%nat.
      assert (nat_of_ascii c <> 48%nat); [|lia].
      intros Heq. apply Ascii.eqb_neq in H0. apply H0.
      rewrite <- (ascii_nat_embedding c), Heq. reflexivity. }
    rewrite H19. apply star_loop_succeeds.
    intros s' caps'. destruct s' as [|c' s'']; [eauto|].
    destruct (Ascii.eqb c' "+"); eauto.
Qed.

(** A string that does not begin with a digit matches none of the three
    patterns. *)
Lemma no_leading_digit_unparsable (version : string) :
  leading_digit version = false ->
  match_ pat_major_minor_patch version = None
  /\ match_ pat_major_minor version = None
  /\ match_ pat_major version = None.
Proof.
  destruct version as [|c s]; [repeat split; reflexivity|].
  cbn [leading_digit]. intros Hc.
  assert (H0 : Ascii.eqb c "0" = false).
  { apply Ascii.eqb_neq. intros ->. discriminate Hc. }
  assert (H19 : in_class [("1", "9")]%char c = false).
  { apply not_true_iff_false. intros H.
    apply PatternFacts.in_class_digit19 in H. congruence. }
  unfold match_, pat_major_minor_patch, pat_major_minor, pat_major, number, digit19.
  cbn [run]. now rewrite H0, H19.
Qed.

End unparsable_facts.

(** ** check_excludes: parsing, comparison and matching of versions *)

Module check_excludes_facts.

Import Re ReFacts StrFacts PatternFacts check_excludes unparsable_facts.

Lemma rbind_Ok {A B : Type} (a : A) (f : A -> result B) : (Ok a ≫= f) = f a.
Proof. reflexivity. Qed.

(** [version_to_tup] returns on every string, with components that are
    not negative. *)
Lemma version_to_tup_total (version : string) :
  exists t, version_to_tup version = Ok t /\ 0 <= major t /\ 0 <= minor t /\ 0 <= patch t.
Proof.
  unfold version_to_tup.
  destruct (match_ pat_major_minor_patch version) as [m|] eqn:H3.
  { destruct (int_group _ _ _ 1 H3 eq_refl eq_refl) as (a & -> & Ha).
    destruct (int_group _ _ _ 2 H3 eq_refl eq_refl) as (b & -> & Hb).
    destruct (int_group _ _ _ 3 H3 eq_refl eq_refl) as (c & -> & Hc).
    rewrite !rbind_Ok. eexists. split; [reflexivity|]. simpl. auto. }
  destruct (match_ pat_major_minor version) as [m|] eqn:H2.
  { destruct (int_group _ _ _ 1 H2 eq_refl eq_refl) as (a & -> & Ha).
    destruct (int_group _ _ _ 2 H2 eq_refl eq_refl) as (b & -> & Hb).
    rewrite !rbind_Ok. eexists. split; [reflexivity|]. simpl. repeat split; auto; lia. }
  destruct (match_ pat_major version) as [m|] eqn:H1.
  { destruct (int_group _ _ _ 1 H1 eq_refl eq_refl) as (a & -> & Ha).
    rewrite !rbind_Ok. eexists. split; [reflexivity|]. simpl. repeat split; auto; lia. }
  eexists. split; [reflexivity|]. simpl. lia.
Qed.

(** The comparison [<] of [module_compare] is the strict lexicographic
    order on (major, minor, patch). *)
Lemma module_compare_lt (lhs rhs : EpicsModule) :
  module_compare lhs rhs "<"
  = Some (bool_decide (major lhs < major rhs
                       \/ (major lhs = major rhs
                           /\ (minor lhs < minor rhs
                               \/ (minor lhs = minor rhs /\ patch lhs < patch rhs))))).
Proof.
  unfold module_compare, eval_op. cbn [String.eqb Ascii.eqb Bool.eqb orb].
  f_equal. apply eq_true_iff_eq. rewrite bool_decide_eq_true.
  rewrite !orb_true_iff, !andb_true_iff, !Z.ltb_lt, !Z.eqb_eq. lia.
Qed.

(** C7. Under the cascading comparison a version with equal major and a
    smaller minor satisfies a [<] condition, and a version with a higher
    major does not: [check] is true for 3.0.1 against "<3.1" and false for
    4.0.0 against "<3.1". *)
Theorem check_cascade_examples :
  check "3.0.1" ["<3.1"] = Ok true /\ check "4.0.0" ["<3.1"] = Ok false.
Proof. split; reflexivity. Qed.

(** C7, as stated, fails on its second example. *)
Lemma check_higher_major_not_below : check "4.0.0" ["<3.1"] = Ok false.
Proof. reflexivity. Qed.

(** C1. In the open range, the branch for a MAJOR.MINOR requirement does
    not compare the majors: a candidate 0.9.0 is accepted for "1.2+". *)
Theorem module_match_open_range_lower_major :
  version_to_tup "1.2+" = Ok (mkEpicsModule 1 2 0 false)
  /\ version_to_tup "0.9.0" = Ok (mkEpicsModule 0 9 0 true)
  /\ version_to_tup "1.5.0" = Ok (mkEpicsModule 1 5 0 true)
  /\ module_match (Tuple (mkEpicsModule 1 2 0 false)) (Tuple (mkEpicsModule 1 5 0 true))
     = Ok true
  /\ module_match (Tuple (mkEpicsModule 1 2 0 false)) (Tuple (mkEpicsModule 0 9 0 true))
     = Ok true.
Proof. repeat split; reflexivity. Qed.

(** C2. For an exact requirement with all three components, the last branch
    does not compare the majors: a candidate 5.2.3 is accepted for "1.2.3".
    The two examples of the claim hold. *)
Theorem module_match_exact_other_major :
  version_to_tup "1.2.3" = Ok (mkEpicsModule 1 2 3 true)
  /\ version_to_tup "5.2.3" = Ok (mkEpicsModule 5 2 3 true)
  /\ module_match (Tuple (mkEpicsModule 1 2 3 true)) (Tuple (mkEpicsModule 5 2 3 true))
     = Ok true
  /\ module_match (Text "1.2") (Text "1.2.0") = Ok true
  /\ module_match (Text "1.2") (Text "1.3.0") = Ok false.
Proof. repeat split; reflexivity. Qed.

(** [check] raises on no version and no list of conditions. *)
Lemma check_loop_total (version : string) (conditions : list string) :
  exists b, check_loop version conditions = Ok b.
Proof.
  induction conditions as [|condition rest [b IH]]; simpl; [now exists false|].
  destruct (match_ pat_condition condition) as [m|] eqn:Hm; [|now exists false].
  destruct (match_group _ _ _ 1 Hm eq_refl) as (comp & -> & _).
  destruct (match_group _ _ _ 2 Hm eq_refl) as (rversion & -> & _).
  destruct (version_to_tup_total version) as (lhs & -> & _).
  destruct (version_to_tup_total rversion) as (rhs & -> & _).
  rewrite !rbind_Ok.
  destruct (is_true_value _); [now exists true | now exists b].
Qed.

Lemma check_total (version : string) (conditions : list string) :
  exists b, check version conditions = Ok b.
Proof.
  unfold check. destruct (match_ pat_version version); [|now exists false].
  apply check_loop_total.
Qed.

(** C3. A condition that does not parse ends the evaluation: [check]
    answers false although a later condition is satisfied, and true when the
    same conditions come in the other order. *)
Theorem check_stops_at_unparsable_condition :
  match_ pat_condition "> 3.0" = None
  /\ check "2.0.0" [">1.0"] = Ok true
  /\ check "2.0.0" ["> 3.0"; ">1.0"] = Ok false
  /\ check "2.0.0" [">1.0"; "> 3.0"] = Ok true.
Proof. repeat split; reflexivity. Qed.

Lemma module_match_total (version other : version_arg) :
  exists b, module_match version other = Ok b.
Proof.
  unfold module_match.
  assert (Htup : forall v, exists t, as_tup v = Ok t).
  { intros [s|t]; simpl; [|now exists t].
    destruct (version_to_tup_total s) as (t & Ht & _). now exists t. }
  destruct (Htup version) as [ver ->]. destruct (Htup other) as [oth ->].
  rewrite !rbind_Ok. now eexists.
Qed.

End check_excludes_facts.

(** ** get_prerequisites: the selection of a version *)

Module selection_facts.

Import Re ReFacts StrFacts PatternFacts check_excludes check_excludes_facts.
Import get_prerequisites Selection.

(** *** Mapping files *)

Lemma rsplit1_comma_free (s : string) :
  comma_free s = true -> Str.rsplit1 "," s = [s].
Proof.
  induction s as [|c s IH]; [reflexivity|].
  simpl. intros H. apply andb_true_iff in H as [Hc Hs].
  rewrite (IH Hs). apply negb_true_iff in Hc. now rewrite Hc.
Qed.

(** [rsplit(',', 1)] cuts an entry into its module and its version. *)
Lemma rsplit1_entry (module version : string) :
  comma_free version = true ->
  Str.rsplit1 "," (module +:+ "," +:+ version) = [module; version].
Proof.
  intros Hv. induction module as [|c module IH].
  - rewrite append_nil, append_cons, append_nil. simpl.
    now rewrite (rsplit1_comma_free version Hv).
  - rewrite append_cons. simpl. now rewrite IH.
Qed.

Lemma rsplit1_shape (s : string) :
  (Str.rsplit1 "," s = [s] /\ comma_free s = true)
  \/ (exists a b, Str.rsplit1 "," s = [a; b] /\ s = a +:+ "," +:+ b /\ comma_free b = true).
Proof.
  induction s as [|c s [[IH Hs]|(a & b & IH & Hs & Hb)]].
  - now left.
  - simpl. rewrite IH. destruct (Ascii.eqb c ",") eqn:Hc.
    + apply Ascii.eqb_eq in Hc as ->. right. exists EmptyString, s. auto.
    + left. split; [reflexivity|]. now rewrite Hs.
  - right. exists (String c a), b. simpl. rewrite IH. subst s. auto.
Qed.

Lemma comma_free_entry (m v : string) : comma_free (m +:+ "," +:+ v) = false.
Proof.
  induction m as [|x m IHm]; [reflexivity|].
  rewrite append_cons. simpl. rewrite IHm. apply andb_false_r.
Qed.

(** The search of a mapping file ends as the first line that names the
    module tells: with its version, or with [IndexError] when the line is
    the bare name of the module. *)
Lemma search_lines_first_entry (lines : list string) (module : string) :
  first_entry module lines (search_lines lines module).
Proof.
  induction lines as [|line rest IH]; simpl; [constructor|].
  destruct (rsplit1_shape (Str.strip line)) as [[-> Hfree]|(a & b & -> & Hab & Hb)].
  - destruct (String.eqb_spec (Str.strip line) module) as [Heq|Hne].
    + apply first_entry_bare. split; [exact Heq | now rewrite <- Heq].
    + apply first_entry_skip; [| |exact IH].
      * intros version [Heq _]. rewrite Heq, comma_free_entry in Hfree. discriminate.
      * now intros [Heq _].
  - destruct (String.eqb_spec a module) as [->|Hne].
    + now apply first_entry_here.
    + apply first_entry_skip; [| |exact IH].
      * intros version [Heq Hv]. apply Hne.
        pose proof (rsplit1_entry module version Hv) as H1.
        pose proof (rsplit1_entry a b Hb) as H2.
        rewrite <- Heq, Hab, H2 in H1. now injection H1.
      * intros [Heq Hfree]. rewrite <- Heq, Hab, comma_free_entry in Hfree. discriminate.
Qed.

(** Where no line is the bare name of the module, the search returns. *)
Lemma search_lines_returns (lines : list string) (module : string) :
  Forall (fun line => ~ bare_name module line) lines ->
  exists r, search_lines lines module = Ok r.
Proof.
  induction 1 as [|line rest Hline _ IH]; simpl; [now eexists|].
  destruct (rsplit1_shape (Str.strip line)) as [[-> Hfree]|(a & b & -> & Hab & Hb)].
  - destruct (String.eqb_spec (Str.strip line) module) as [Heq|_]; [|exact IH].
    exfalso. apply Hline. split; [exact Heq | now rewrite <- Heq].
  - destruct (String.eqb a module); [now eexists | exact IH].
Qed.

Section World.

Variable fs : FileSystem.
Variable env : Environ.

(** What [module_version] learns from a mapping file. *)
Lemma default_lookup (file module : string) :
  exists d,
    (if os.isfile fs file then lift (search_dep_file fs file module) else mret None)
    = mkM [] d
    /\ default_in fs file module d.
Proof.
  unfold os.isfile, search_dep_file, os.readlines, default_in.
  destruct (lookup_path fs file) as [[lines|entries]|] eqn:Hf.
  - eexists. rewrite rbind_Ok. split; [reflexivity|]. apply search_lines_first_entry.
  - now exists (Ok None).
  - now exists (Ok None).
Qed.

(** It raises nothing where no line is the bare name of the module. *)
Lemma default_lookup_returns (file module : string) :
  no_bare_entry fs file module ->
  exists d,
    (if os.isfile fs file then lift (search_dep_file fs file module) else mret None)
    = mkM [] (Ok d).
Proof.
  intros Hno. unfold os.isfile, search_dep_file, os.readlines.
  unfold no_bare_entry in Hno.
  destruct (lookup_path fs file) as [[lines|entries]|] eqn:Hf.
  - destruct (search_lines_returns lines module (Hno lines eq_refl)) as (r & Hs).
    exists r. now rewrite rbind_Ok, Hs.
  - now exists None.
  - now exists None.
Qed.

End World.

(** *** The key of an installed version *)

Lemma strict_version_shape (version : string) :
  is_strict_version version = true ->
  exists a b c tail,
    version = a +:+ String "." (b +:+ String "." (c +:+ tail))
    /\ (Str.all_digits a = true /\ a <> EmptyString)
    /\ (Str.all_digits b = true /\ b <> EmptyString)
    /\ (Str.all_digits c = true /\ c <> EmptyString)
    /\ (tail = EmptyString \/ tail = String "010" EmptyString).
Proof.
  unfold is_strict_version.
  destruct (match_ pat_strict_version version) as [m|] eqn:Hm; [intros _|discriminate].
  apply match_sound in Hm as ((s' & Hm) & _). unfold pat_strict_version in Hm.
  inversion Hm as [| |? ? ? s1 ? Ha H1| | | | | | | | |]; subst; clear Hm.
  inversion H1 as [| |? ? ? s2 ? Hd1 H2| | | | | | | | |]; subst; clear H1.
  inversion H2 as [| |? ? ? s3 ? Hb H3| | | | | | | | |]; subst; clear H2.
  inversion H3 as [| |? ? ? s4 ? Hd2 H4| | | | | | | | |]; subst; clear H3.
  inversion H4 as [| |? ? ? s5 ? Hc H5| | | | | | | | |]; subst; clear H4.
  inversion H5 as [| | | | | | | | | | |? Htail]; subst; clear H5.
  apply matches_number in Ha as (a & -> & Ha).
  apply matches_dot in Hd1 as ->.
  apply matches_number in Hb as (b & -> & Hb).
  apply matches_dot in Hd2 as ->.
  apply matches_number in Hc as (c & -> & Hc).
  exists a, b, c, s'. auto.
Qed.

(** [module_key] does not raise on a strictly numeric version. *)
Lemma module_key_strict (version : string) :
  is_strict_version version = true -> exists k, module_key version = Ok k.
Proof.
  intros H. apply strict_version_shape in H
    as (a & b & c & tail & -> & [Ha Hane] & [Hb Hbne] & [Hc Hcne] & Htail).
  unfold module_key.
  rewrite (split_max_digits a _ 1 Ha), (split_max_digits b _ 0 Hb).
  rewrite split_max_0.
  rewrite (int_run a Ha Hane), rbind_Ok.
  rewrite (int_run b Hb Hbne), rbind_Ok.
  rewrite (int_digits c tail Hc Hcne Htail), rbind_Ok. now eexists.
Qed.

(** *** Sorting by key *)

#[global] Instance key_le_total : Total key_le.
Proof. intros [[a1 b1] c1] [[a2 b2] c2]. simpl. lia. Qed.

#[global] Instance key_le_trans : Transitive key_le.
Proof. intros [[a1 b1] c1] [[a2 b2] c2] [[a3 b3] c3]. simpl. lia. Qed.

#[global] Instance by_key_total : Total by_key.
Proof. intros x y. apply key_le_total. Qed.

#[global] Instance by_key_trans : Transitive by_key.
Proof. intros x y z. apply key_le_trans. Qed.

Lemma key_le_refl (k : version_key) : key_le k k.
Proof. destruct k as [[a b] c]. simpl. lia. Qed.

(** The decoration of the versions with their keys. *)
Lemma decorate_strict (versions : list string) :
  Forall (fun v => is_strict_version v = true) versions ->
  exists decorated,
    mapM (fun v => k ← module_key v; Ok (k, v)) versions = Ok decorated
    /\ Forall2 (fun v d => module_key v = Ok (fst d) /\ snd d = v) versions decorated.
Proof.
  induction 1 as [|v versions Hv _ (decorated & IH & Hdec)].
  - exists []. split; [reflexivity | constructor].
  - destruct (module_key_strict v Hv) as [k Hk].
    exists ((k, v) :: decorated). split.
    + cbn [mapM]. rewrite Hk, !rbind_Ok. fold (mapM (fun v => k ← module_key v; Ok (k, v))).
      rewrite IH. reflexivity.
    + constructor; auto.
Qed.

(** *** The first match in the sorted versions *)


Lemma first_match_app (comp_version : string) (l1 l2 : list string) :
  first_match comp_version (l1 ++ l2)
  = match first_match comp_version l1 with
    | Ok None => first_match comp_version l2
    | r => r
    end.
Proof.
  induction l1 as [|v l1 IH]; simpl; [reflexivity|].
  destruct (module_match (Text comp_version) (Text v)) as [[|]|e]; simpl; auto.
Qed.

(** In versions sorted by key and tried from the last one, the first match
    is a match of highest key. *)
Lemma first_match_highest (comp_version : string) (l : list (version_key * string)) :
  StronglySorted by_key l ->
  exists r,
    first_match comp_version (reverse (map snd l)) = Ok r
    /\ match r with
       | Some version =>
           exists k,
             In (k, version) l
             /\ module_match (Text comp_version) (Text version) = Ok true
             /\ forall d, In d l ->
                  module_match (Text comp_version) (Text (snd d)) = Ok true ->
                  key_le (fst d) k
       | None =>
           forall d, In d l -> module_match (Text comp_version) (Text (snd d)) = Ok false
       end.
Proof.
  induction 1 as [|x l Hsorted (r & IH & Hr) Hx].
  - exists None. split; [reflexivity|]. intros d [].
  - cbn [map]. rewrite reverse_cons, first_match_app, IH.
    destruct r as [version|].
    + exists (Some version). split; [reflexivity|].
      destruct Hr as (k & Hin & Hm & Hmax). exists k. repeat split.
      * now right.
      * exact Hm.
      * intros d [<-|Hd] Hmd; [|now apply Hmax].
        exact (proj1 (List.Forall_forall _ _) Hx _ Hin).
    + simpl.
      destruct (module_match_total (Text comp_version) (Text (snd x))) as [[|] Hb];
        rewrite Hb, rbind_Ok.
      * exists (Some (snd x)). split; [reflexivity|].
        exists (fst x). repeat split.
        -- left. now destruct x.
        -- exact Hb.
        -- intros d [<-|Hd] Hmd; [apply key_le_refl|].
           rewrite (Hr d Hd) in Hmd. discriminate.
      * exists None. split; [reflexivity|]. intros d [<-|Hd]; auto.
Qed.

Lemma decorated_members (vs : list string) (ds : list (version_key * string)) :
  Forall2 (fun v d => module_key v = Ok (fst d) /\ snd d = v) vs ds ->
  (forall d, d ∈ ds -> snd d ∈ vs /\ module_key (snd d) = Ok (fst d))
  /\ (forall v, v ∈ vs -> exists k, (k, v) ∈ ds).
Proof.
  induction 1 as [|v d vs ds [Hk Hv] _ [IH1 IH2]].
  - split; intros x Hx; inversion Hx.
  - split.
    + intros x Hx. apply elem_of_cons in Hx as [->|Hx].
      * rewrite Hv. split; [apply elem_of_cons; now left | exact Hk].
      * destruct (IH1 x Hx) as [H1 H2]. split; [apply elem_of_cons; now right | exact H2].
    + intros x Hx. apply elem_of_cons in Hx as [->|Hx].
      * exists (fst d). apply elem_of_cons. left. subst v. now destruct d.
      * destruct (IH2 x Hx) as [k Hk']. exists k. apply elem_of_cons. now right.
Qed.

Lemma outcome_bind {A B : Type} (m : M A) (f : A -> M B) :
  outcome (m ≫= f)
  = match outcome m with
    | Ok a => outcome (f a)
    | Raise e => Raise e
    end.
Proof.
  unfold mbind, M_mbind, M_bind. now destruct (outcome m).
Qed.

Lemma log_bind {A B : Type} (m : M A) (f : A -> M B) :
  log (m ≫= f)
  = match outcome m with
    | Ok a => log m ++ log (f a)
    | Raise e => log m
    end.
Proof.
  unfold mbind, M_mbind, M_bind. now destruct (outcome m).
Qed.


Section Versions.

Variable fs : FileSystem.
Variable env : Environ.
Variables module comp_version epics_base_version target_arch : string.

(** What the loop over the sorted versions leaves: a version of the set
    that matches and whose key no matching version of the set exceeds, or
    [None] when no version of the set matches. *)
Definition highest_by_key (versions : gset string) (r : option string) : Prop :=
  match r with
  | Some version =>
      version ∈ versions
      /\ module_match (Text comp_version) (Text version) = Ok true
      /\ exists k,
           module_key version = Ok k
           /\ forall other,
                other ∈ versions ->
                module_match (Text comp_version) (Text other) = Ok true ->
                exists k', module_key other = Ok k' /\ key_le k' k
  | None =>
      forall version,
        version ∈ versions -> module_match (Text comp_version) (Text version) = Ok false
  end.

(** The set [module_version] collects: the entries of the directory of the
    module that hold the dependency file and match the pattern of an
    installed version. *)
Lemma installed_versions_spec :
  exists versions : gset string,
    installed_versions fs env module epics_base_version target_arch = Ok versions
    /\ forall v,
         v ∈ versions <->
         exists entries,
           lookup_path fs (os.join (EPICS_MODULES_PATH env) [module]) = Some (Dir entries)
           /\ In v entries
           /\ os.isfile fs (module_depfile env module v epics_base_version target_arch) = true
           /\ is_strict_version v = true.
Proof.
  unfold installed_versions, os.isdir, os.listdir.
  destruct (lookup_path fs (os.join (EPICS_MODULES_PATH env) [module]))
    as [[lines|entries]|] eqn:Hdir.
  - exists ∅. split; [reflexivity|]. intros v. split; [set_solver|].
    intros (entries & Heq & _). discriminate.
  - eexists. split; [rewrite rbind_Ok; reflexivity|]. intros v.
    rewrite elem_of_list_to_set, list_elem_of_In, filter_In, andb_true_iff. split.
    + intros (Hin & Hfile & Hstrict). exists entries. auto.
    + intros (entries' & [= <-] & Hin & Hfile & Hstrict). auto.
  - exists ∅. split; [reflexivity|]. intros v. split; [set_solver|].
    intros (entries & Heq & _). discriminate.
Qed.

(** The third source: the search among the collected versions returns one
    of highest key among those that match. *)
Lemma highest_installed_found (versions : gset string) :
  (forall v, v ∈ versions -> is_strict_version v = true) ->
  exists r,
    (if decide (versions = ∅) then Ok None
     else sorted ← sorted_by_module_key (elements versions);
          first_match comp_version (reverse sorted)) = Ok r
    /\ highest_by_key versions r.
Proof.
  intros Hversions. destruct (decide (versions = ∅)) as [->|_].
  { exists None. split; [reflexivity|]. intros v Hv. set_solver. }
  assert (Hstrict : Forall (fun v => is_strict_version v = true) (elements versions)).
  { apply List.Forall_forall. intros v Hv.
    now apply list_elem_of_In, elem_of_elements, Hversions in Hv. }
  destruct (decorate_strict _ Hstrict) as (decorated & Hmap & Hdec).
  unfold sorted_by_module_key. rewrite Hmap, !rbind_Ok.
  pose proof (StronglySorted_merge_sort by_key decorated) as Hsorted.
  pose proof (merge_sort_Permutation by_key decorated) as Hperm.
  destruct (first_match_highest comp_version _ Hsorted) as (r & Hfirst & Hr).
  exists r. split; [exact Hfirst|].
  destruct (decorated_members _ _ Hdec) as [Hsound Hcomplete].
  assert (Hkeys : forall d, In d (merge_sort by_key decorated) ->
                    snd d ∈ versions /\ module_key (snd d) = Ok (fst d)).
  { intros d Hd. apply list_elem_of_In in Hd. rewrite Hperm in Hd.
    destruct (Hsound d Hd) as [H1 H2]. split; [|exact H2].
    now apply elem_of_elements. }
  assert (Hall : forall v, v ∈ versions ->
                   exists k, In (k, v) (merge_sort by_key decorated)).
  { intros v Hv. apply elem_of_elements in Hv.
    destruct (Hcomplete v Hv) as [k Hk].
    exists k. apply list_elem_of_In. now rewrite Hperm. }
  destruct r as [version|].
  - destruct Hr as (k & Hin & Hm & Hmax).
    destruct (Hkeys _ Hin) as [Hv Hk]. simpl in Hv, Hk.
    split; [exact Hv|]. split; [exact Hm|].
    exists k. split; [exact Hk|].
    intros other Hother Hmo.
    destruct (Hall other Hother) as [k' Hk'].
    exists k'. split; [exact (proj2 (Hkeys _ Hk'))|].
    exact (Hmax _ Hk' Hmo).
  - intros v Hv. destruct (Hall v Hv) as [k Hk]. exact (Hr _ Hk).
Qed.

(** The outcome of [module_version], given what the readings of the two
    mapping files give: the first of them that names a version decides, a
    reading that raises ends the selection, and the search among the
    installed versions comes last. The second file is read only when the
    first names no version. *)
Lemma module_version_outcome (d1 : result (option string)) :
  (if os.isfile fs (arch_default_file env epics_base_version target_arch)
   then lift (search_dep_file fs (arch_default_file env epics_base_version target_arch)
                module)
   else mret None) = mkM [] d1 ->
  exists d2 versions r3,
    (if os.isfile fs (epics_default_file env epics_base_version)
     then lift (search_dep_file fs (epics_default_file env epics_base_version) module)
     else mret None) = mkM [] d2
    /\ installed_versions fs env module epics_base_version target_arch = Ok versions
    /\ highest_by_key versions r3
    /\ outcome (module_version fs env module comp_version epics_base_version target_arch)
       = match d1 with
         | Raise e => Raise e
         | Ok v1 =>
             if Str.truthy v1 then Ok v1
             else match d2 with
                  | Raise e => Raise e
                  | Ok v2 => if Str.truthy v2 then Ok v2 else Ok r3
                  end
         end.
Proof.
  intros Hl1. unfold module_version.
  destruct installed_versions_spec as (versions & Hinst & Hversions).
  assert (Hstrict : forall v, v ∈ versions -> is_strict_version v = true).
  { intros v Hv. apply Hversions in Hv. now destruct Hv as (_ & _ & _ & _ & Hs). }
  destruct (highest_installed_found versions Hstrict) as (r & Hfound & Hr).
  destruct (default_lookup fs (epics_default_file env epics_base_version) module)
    as (d2 & Hl2 & _).
  exists d2, versions, r. split; [exact Hl2|]. split; [exact Hinst|]. split; [exact Hr|].
  rewrite Hl1, outcome_bind. cbn [outcome].
  destruct d1 as [v1|e]; [|reflexivity].
  destruct (Str.truthy v1); [reflexivity|].
  rewrite Hl2, outcome_bind. cbn [outcome].
  destruct d2 as [v2|e]; [|reflexivity].
  destruct (Str.truthy v2); [reflexivity|].
  rewrite Hinst, outcome_bind. cbn [outcome lift]. rewrite outcome_bind.
  destruct (decide (versions = ∅)) as [Hempty|Hne].
  - injection Hfound as <-. cbn [outcome mret M_mret M_ret].
    rewrite outcome_bind. reflexivity.
  - rewrite outcome_bind. cbn [outcome lift].
    destruct (sorted_by_module_key (elements versions)) as [sorted|e];
      [|discriminate Hfound].
    rewrite rbind_Ok in Hfound. cbn [outcome lift]. rewrite Hfound.
    destruct r; [reflexivity|]. rewrite outcome_bind. reflexivity.
Qed.

End Versions.

End selection_facts.

(** ** Computations that write to the log *)

Module monad_facts.

Import selection_facts.

#[local] Arguments mbind : simpl never.
#[local] Arguments lift : simpl never.
#[local] Arguments logger : simpl never.

Lemma outcome_ret {A : Type} (a : A) : outcome (mret a : M A) = Ok a.
Proof. reflexivity. Qed.

Lemma log_ret {A : Type} (a : A) : log (mret a : M A) = [].
Proof. reflexivity. Qed.

Lemma outcome_lift_bind {A B : Type} (r : result A) (f : A -> M B) :
  outcome (lift r ≫= f)
  = match r with Ok a => outcome (f a) | Raise e => Raise e end.
Proof. rewrite outcome_bind. reflexivity. Qed.

Lemma log_lift_bind {A B : Type} (r : result A) (f : A -> M B) :
  log (lift r ≫= f) = match r with Ok a => log (f a) | Raise e => [] end.
Proof. rewrite log_bind. now destruct r. Qed.

Lemma outcome_logger_bind {B : Type} (lvl : level) (format : string) (args : list string)
    (m : M B) :
  outcome (logger lvl format args ;; m) = outcome m.
Proof. now rewrite outcome_bind. Qed.

Lemma log_logger_bind {B : Type} (lvl : level) (format : string) (args : list string)
    (m : M B) :
  log (logger lvl format args ;; m) = mkRecord lvl format args :: log m.
Proof. now rewrite log_bind. Qed.

(** Every record of a sequence satisfies what the records of its two parts
    satisfy. *)
Lemma log_bind_all {A B : Type} (Q : log_record -> Prop) (m : M A) (f : A -> M B) :
  Forall Q (log m) ->
  (forall a, outcome m = Ok a -> Forall Q (log (f a))) ->
  Forall Q (log (m ≫= f)).
Proof.
  intros Hm Hf. rewrite log_bind. destruct (outcome m) as [a|e]; [|exact Hm].
  apply Forall_app. split; [exact Hm | now apply Hf].
Qed.

(** *** Loops *)

Lemma for_each_invariant {A S : Type} (P : S -> Prop) (body : S -> A -> M S)
    (xs : list A) :
  (forall s x s', P s -> outcome (body s x) = Ok s' -> P s') ->
  forall acc s', P acc -> outcome (for_each body xs acc) = Ok s' -> P s'.
Proof.
  intros Hbody. induction xs as [|x xs IH]; intros acc s' Hacc H; simpl in H.
  - injection H as <-. exact Hacc.
  - rewrite outcome_bind in H.
    destruct (outcome (body acc x)) as [acc'|e] eqn:Hx; [|discriminate].
    exact (IH acc' s' (Hbody acc x acc' Hacc Hx) H).
Qed.

Lemma for_each_log {A S : Type} (P : S -> Prop) (Q : log_record -> Prop)
    (body : S -> A -> M S) (xs : list A) :
  (forall s x, P s -> In x xs -> Forall Q (log (body s x))) ->
  (forall s x s', P s -> outcome (body s x) = Ok s' -> P s') ->
  forall acc, P acc -> Forall Q (log (for_each body xs acc)).
Proof.
  intros Hlog Hbody. induction xs as [|x xs IH]; intros acc Hacc; simpl.
  - constructor.
  - rewrite log_bind.
    destruct (outcome (body acc x)) as [acc'|e] eqn:Hx.
    + apply Forall_app. split; [apply Hlog; [exact Hacc | now left]|].
      apply IH; [|exact (Hbody acc x acc' Hacc Hx)].
      intros s y Hs Hy. apply Hlog; [exact Hs | now right].
    + apply Hlog; [exact Hacc | now left].
Qed.

(** The records of a loop satisfy what the records of its body satisfy. *)
Lemma for_each_log_all {A S : Type} (Q : log_record -> Prop) (body : S -> A -> M S)
    (xs : list A) (acc : S) :
  (forall s x, Forall Q (log (body s x))) ->
  Forall Q (log (for_each body xs acc)).
Proof.
  intros Hlog. apply (for_each_log (fun _ => True)); auto.
Qed.

Lemma for_each_returns {A S : Type} (P : S -> Prop) (body : S -> A -> M S)
    (xs : list A) :
  (forall s x, P s -> exists s', outcome (body s x) = Ok s' /\ P s') ->
  forall acc, P acc -> exists s', outcome (for_each body xs acc) = Ok s' /\ P s'.
Proof.
  intros Hbody. induction xs as [|x xs IH]; intros acc Hacc; simpl.
  - now exists acc.
  - rewrite outcome_bind. destruct (Hbody acc x Hacc) as (acc' & -> & Hacc').
    now apply IH.
Qed.

Lemma NoDup_map_eq {A B : Type} (f : A -> B) (l : list A) (a b : A) :
  NoDup (map f l) -> In a l -> In b l -> f a = f b -> a = b.
Proof.
  induction l as [|x l IH]; intros Hnd Ha Hb Hab; [destruct Ha|].
  simpl in Hnd. apply NoDup_cons in Hnd as [Hx Hnd].
  destruct Ha as [->|Ha], Hb as [->|Hb]; auto.
  - exfalso. apply Hx. rewrite Hab. apply list_elem_of_In. now apply in_map.
  - exfalso. apply Hx. rewrite <- Hab. apply list_elem_of_In. now apply in_map.
Qed.

End monad_facts.

(** ** What the matcher returns on the texts the patterns are written for *)

Module greedy_facts.

Import Re ReFacts StrFacts PatternFacts check_excludes Shapes.

Lemma length_lt_cons (c : ascii) (s : string) :
  (String.length s <? String.length (String c s))%nat = true.
Proof. apply Nat.ltb_lt. simpl. lia. Qed.

(** The equations of the matcher. *)
Lemma run_Lit_cons {A : Type} (whole : nat) (c c' : ascii) (s : string) (caps : captures)
    (k : @cont A) :
  run whole (Lit c) (String c' s) caps k = if Ascii.eqb c' c then k s caps else None.
Proof. reflexivity. Qed.

Lemma run_Class_cons {A : Type} (whole : nat) (ranges : list (ascii * ascii)) (c : ascii)
    (s : string) (caps : captures) (k : @cont A) :
  run whole (Class ranges) (String c s) caps k
  = if in_class ranges c then k s caps else None.
Proof. reflexivity. Qed.

Lemma run_Cat {A : Type} (whole : nat) (r1 r2 : regex) (s : string) (caps : captures)
    (k : @cont A) :
  run whole (r1 +++ r2) s caps k
  = run whole r1 s caps (fun s' caps' => run whole r2 s' caps' k).
Proof. reflexivity. Qed.

Lemma run_Alt {A : Type} (whole : nat) (r1 r2 : regex) (s : string) (caps : captures)
    (k : @cont A) :
  run whole (Alt r1 r2) s caps k
  = match run whole r1 s caps k with
    | Some x => Some x
    | None => run whole r2 s caps k
    end.
Proof. reflexivity. Qed.

Lemma run_Opt {A : Type} (whole : nat) (r : regex) (s : string) (caps : captures)
    (k : @cont A) :
  run whole (Opt r) s caps k
  = match run whole r s caps k with
    | Some x => Some x
    | None => k s caps
    end.
Proof. reflexivity. Qed.

Lemma run_Star {A : Type} (whole : nat) (r : regex) (s : string) (caps : captures)
    (k : @cont A) :
  run whole (Star r) s caps k = star_loop (run whole r) (String.length s) s caps k.
Proof. reflexivity. Qed.

Lemma run_Group {A : Type} (whole n : nat) (r : regex) (s : string) (caps : captures)
    (k : @cont A) :
  run whole (Group n r) s caps k
  = run whole r s caps (fun s' caps' =>
      k s' ((n, Str.take (String.length s - String.length s') s) :: caps')).
Proof. reflexivity. Qed.

Lemma run_Bol {A : Type} (whole : nat) (s : string) (caps : captures) (k : @cont A) :
  run whole Bol s caps k = if (String.length s =? whole)%nat then k s caps else None.
Proof. reflexivity. Qed.

Lemma run_dot {A : Type} (whole : nat) (r : regex) (s : string) (caps : captures)
    (k : @cont A) :
  run whole (dot +++ r) (String "." s) caps k = run whole r s caps k.
Proof. reflexivity. Qed.

Lemma star_loop_S {A : Type} (step : string -> captures -> @cont A -> option A)
    (fuel : nat) (s : string) (caps : captures) (k : @cont A) :
  star_loop step (S fuel) s caps k
  = match step s caps (fun s' caps' =>
            if (String.length s' <? String.length s)%nat
            then star_loop step fuel s' caps' k else None) with
    | Some x => Some x
    | None => k s caps
    end.
Proof. reflexivity. Qed.

(** A star over a character class takes the whole run of characters of the
    class, when what follows the star accepts the rest of the subject or
    rejects every subject that begins inside the class. *)
Lemma star_class_greedy {A : Type} (whole : nat) (ranges : list (ascii * ascii))
    (p rest : string) (caps : captures) (k : @cont A) :
  all_in ranges p = true ->
  starts_in ranges rest = false ->
  is_Some (k rest caps)
  \/ (forall c s', in_class ranges c = true -> k (String c s') caps = None) ->
  forall fuel, (String.length p <= fuel)%nat ->
  star_loop (run whole (Class ranges)) fuel (p +:+ rest) caps k = k rest caps.
Proof.
  intros Hp Hrest Hk. induction p as [|c p IH]; intros fuel Hfuel.
  - rewrite append_nil. destruct fuel as [|fuel]; [reflexivity|].
    rewrite star_loop_S. destruct rest as [|c r]; [reflexivity|].
    rewrite run_Class_cons. cbn [starts_in] in Hrest. now rewrite Hrest.
  - cbn [all_in] in Hp. apply andb_true_iff in Hp as [Hc Hp].
    destruct fuel as [|fuel]; [simpl in Hfuel; lia|].
    rewrite append_cons, star_loop_S, run_Class_cons, Hc, length_lt_cons.
    rewrite (IH Hp fuel) by (simpl in Hfuel; lia).
    destruct (k rest caps) as [x|] eqn:Hx; [reflexivity|].
    destruct Hk as [[y Hy]|Hk]; [discriminate|].
    now apply Hk.
Qed.

Lemma all_in_digit (s : string) : all_in [("0", "9")]%char s = Str.all_digits s.
Proof.
  induction s as [|c s IH]; [reflexivity|].
  cbn [all_in Str.all_digits]. now rewrite IH, in_class_digit.
Qed.

Lemma starts_in_digit (s : string) : starts_in [("0", "9")]%char s = leading_digit s.
Proof. destruct s as [|c s]; [reflexivity|]. apply in_class_digit. Qed.

(** The two shapes of a numeral. *)
Lemma numeral_cases (p : string) :
  numeral p = true ->
  p = "0"
  \/ exists c ds, p = String c ds /\ in_class [("1", "9")]%char c = true
                  /\ Str.all_digits ds = true.
Proof.
  unfold numeral. intros H. apply orb_true_iff in H as [H|H].
  - left. now apply String.eqb_eq.
  - right. destruct p as [|c ds]; [discriminate|].
    apply andb_true_iff in H as [Hc Hds]. exists c, ds.
    split; [reflexivity|]. split; [|exact Hds].
    unfold in_class. cbn [existsb fst snd]. now rewrite Hc.
Qed.

Lemma numeral_digits (p : string) :
  numeral p = true -> Str.all_digits p = true /\ p <> EmptyString.
Proof.
  intros H. apply numeral_cases in H as [->|(c & ds & -> & Hc & Hds)].
  - split; [reflexivity | discriminate].
  - split; [|discriminate]. cbn [Str.all_digits].
    now rewrite (in_class_digit19 c Hc), Hds.
Qed.

(** A numeric group takes a whole numeral, when what follows the group
    accepts the rest or rejects every subject that begins with a digit. *)
Lemma run_number {A : Type} (whole n : nat) (p rest : string) (caps : captures)
    (k : @cont A) :
  numeral p = true ->
  leading_digit rest = false ->
  is_Some (k rest ((n, p) :: caps))
  \/ (forall s' caps', leading_digit s' = true -> k s' caps' = None) ->
  run whole (number n) (p +:+ rest) caps k = k rest ((n, p) :: caps).
Proof.
  intros Hp Hrest Hk. unfold number. rewrite run_Group, run_Alt.
  apply numeral_cases in Hp as [->|(c & ds & -> & Hc & Hds)].
  - rewrite append_cons, append_nil, run_Lit_cons.
    change (Ascii.eqb "0" "0") with true. cbv iota.
    replace (String.length (String "0" rest) - String.length rest)%nat with 1%nat
      by (simpl; lia).
    change (Str.take 1 (String "0" rest)) with "0".
    rewrite run_Cat. unfold digit19. rewrite run_Class_cons.
    change (in_class [("1", "9")]%char "0") with false. cbv iota.
    now destruct (k rest ((n, "0") :: caps)).
  - rewrite append_cons, run_Lit_cons.
    assert (H0 : Ascii.eqb c "0" = false).
    { apply Ascii.eqb_neq. intros ->. discriminate Hc. }
    rewrite H0, run_Cat. unfold digit19. rewrite run_Class_cons, Hc, run_Star.
    unfold digit. rewrite star_class_greedy.
    + change (String c (ds +:+ rest)) with (String c ds +:+ rest).
      now rewrite take_append.
    + now rewrite all_in_digit.
    + now rewrite starts_in_digit.
    + change (String c (ds +:+ rest)) with (String c ds +:+ rest).
      rewrite take_append. destruct Hk as [Hk|Hk]; [now left|].
      right. intros c' s' Hc'. apply Hk. cbn [leading_digit].
      now rewrite <- in_class_digit.
    + rewrite length_append. lia.
Qed.

(** What follows a numeric component and begins with a dot rejects every
    subject that begins with a digit. *)
Lemma dot_rejects_digit {A : Type} (whole : nat) (r : regex) (k : @cont A)
    (s : string) (caps : captures) :
  leading_digit s = true -> run whole (dot +++ r) s caps k = None.
Proof.
  destruct s as [|c s]; [discriminate|]. cbn [leading_digit]. intros Hc.
  rewrite run_Cat. unfold dot. rewrite run_Lit_cons.
  now rewrite (proj1 (digit_not_sep c Hc)).
Qed.

(** It also rejects a subject that does not begin with a dot. *)
Lemma dot_rejects_other {A : Type} (whole : nat) (r : regex) (k : @cont A)
    (s : string) (caps : captures) :
  starts_in [(".", ".")]%char s = false -> run whole (dot +++ r) s caps k = None.
Proof.
  destruct s as [|c s]; [reflexivity|].
  cbn [starts_in in_class existsb fst snd]. rewrite orb_false_r. intros Hc.
  rewrite run_Cat. unfold dot. rewrite run_Lit_cons.
  destruct (Ascii.eqb_spec c ".") as [->|_]; [discriminate Hc | reflexivity].
Qed.

(** The group of the optional plus sign, at the end of a pattern. *)
Lemma run_plus_group (whole n : nat) (s : string) (caps : captures) :
  run whole (Group n plus_opt) s caps (fun _ caps' => Some caps')
  = Some ((n, if starts_plus s then "+" else "") :: caps).
Proof.
  unfold plus_opt. rewrite run_Group, run_Opt. destruct s as [|c s]; [reflexivity|].
  rewrite run_Lit_cons. cbn [starts_plus]. destruct (Ascii.eqb_spec c "+") as [->|_].
  - replace (String.length (String "+" s) - String.length s)%nat with 1%nat
      by (simpl; lia).
    reflexivity.
  - now rewrite Nat.sub_diag.
Qed.

Section Components.

Variables a b c : string.
Hypothesis numeral_a : numeral a = true.
Hypothesis numeral_b : numeral b = true.
Hypothesis numeral_c : numeral c = true.

(** The pattern MAJOR.MINOR.PATCH on a text of three numerals. *)
Lemma match_three (tail : string) :
  leading_digit tail = false ->
  match_ pat_major_minor_patch (dotted a b (c +:+ tail))
  = Some [(4, if starts_plus tail then "+" else ""); (3, c); (2, b); (1, a)]%nat.
Proof.
  intros Htail. unfold match_, pat_major_minor_patch, dotted.
  rewrite run_Cat, run_number;
    [|exact numeral_a|reflexivity|right; intros; now apply dot_rejects_digit].
  rewrite run_dot, run_Cat, run_number;
    [|exact numeral_b|reflexivity|right; intros; now apply dot_rejects_digit].
  rewrite run_dot, run_Cat, run_number;
    [|exact numeral_c|exact Htail|left; rewrite run_plus_group; eauto].
  apply run_plus_group.
Qed.

(** The pattern MAJOR.MINOR.PATCH fails on a text of two numerals that is
    not followed by a dot. *)
Lemma match_three_of_two (tail : string) :
  leading_digit tail = false ->
  starts_in [(".", ".")]%char tail = false ->
  match_ pat_major_minor_patch (a +:+ String "." (b +:+ tail)) = None.
Proof.
  intros Htail Hdot. unfold match_, pat_major_minor_patch.
  rewrite run_Cat, run_number;
    [|exact numeral_a|reflexivity|right; intros; now apply dot_rejects_digit].
  rewrite run_dot, run_Cat, run_number;
    [|exact numeral_b|exact Htail|right; intros; now apply dot_rejects_digit].
  now apply dot_rejects_other.
Qed.

Lemma match_two (tail : string) :
  leading_digit tail = false ->
  match_ pat_major_minor (a +:+ String "." (b +:+ tail))
  = Some [(3, if starts_plus tail then "+" else ""); (2, b); (1, a)]%nat.
Proof.
  intros Htail. unfold match_, pat_major_minor.
  rewrite run_Cat, run_number;
    [|exact numeral_a|reflexivity|right; intros; now apply dot_rejects_digit].
  rewrite run_dot, run_Cat, run_number;
    [|exact numeral_b|exact Htail|left; rewrite run_plus_group; eauto].
  apply run_plus_group.
Qed.

(** The patterns with a dot fail on a single numeral that is not followed
    by a dot. *)
Lemma match_dotted_of_one (tail : string) :
  leading_digit tail = false ->
  starts_in [(".", ".")]%char tail = false ->
  match_ pat_major_minor_patch (a +:+ tail) = None
  /\ match_ pat_major_minor (a +:+ tail) = None.
Proof.
  intros Htail Hdot.
  split; unfold match_, pat_major_minor_patch, pat_major_minor.
  - rewrite run_Cat, run_number;
      [|exact numeral_a|exact Htail|right; intros; now apply dot_rejects_digit].
    now apply dot_rejects_other.
  - rewrite run_Cat, run_number;
      [|exact numeral_a|exact Htail|right; intros; now apply dot_rejects_digit].
    now apply dot_rejects_other.
Qed.

Lemma match_one (tail : string) :
  leading_digit tail = false ->
  match_ pat_major (a +:+ tail)
  = Some [(2, if starts_plus tail then "+" else ""); (1, a)]%nat.
Proof.
  intros Htail. unfold match_, pat_major.
  rewrite run_Cat, run_number;
    [|exact numeral_a|exact Htail|left; rewrite run_plus_group; eauto].
  apply run_plus_group.
Qed.

Lemma not_plus_group (tail : string) :
  not_plus (Some (if starts_plus tail then "+" else "")) = negb (starts_plus tail).
Proof. now destruct (starts_plus tail). Qed.

(** [version_to_tup] on a text of three numerals: the three values, and
    [exact] unless a plus sign follows. *)
Lemma version_to_tup_three (tail : string) :
  leading_digit tail = false ->
  version_to_tup (dotted a b (c +:+ tail))
  = Ok (mkEpicsModule (Str.digits_value 0 a) (Str.digits_value 0 b)
          (Str.digits_value 0 c) (negb (starts_plus tail))).
Proof.
  intros Htail. unfold version_to_tup. rewrite (match_three tail Htail).
  cbn [group Nat.eqb Str.int_opt].
  destruct (numeral_digits a numeral_a) as [Ha Hane].
  destruct (numeral_digits b numeral_b) as [Hb Hbne].
  destruct (numeral_digits c numeral_c) as [Hc Hcne].
  rewrite (int_run a Ha Hane), (int_run b Hb Hbne), (int_run c Hc Hcne).
  cbn [mbind result_bind rbind]. now rewrite not_plus_group.
Qed.

Lemma version_to_tup_two (tail : string) :
  leading_digit tail = false ->
  starts_in [(".", ".")]%char tail = false ->
  version_to_tup (a +:+ String "." (b +:+ tail))
  = Ok (mkEpicsModule (Str.digits_value 0 a) (Str.digits_value 0 b) 0
          (negb (starts_plus tail))).
Proof.
  intros Htail Hdot. unfold version_to_tup.
  rewrite (match_three_of_two tail Htail Hdot), (match_two tail Htail).
  cbn [group Nat.eqb Str.int_opt].
  destruct (numeral_digits a numeral_a) as [Ha Hane].
  destruct (numeral_digits b numeral_b) as [Hb Hbne].
  rewrite (int_run a Ha Hane), (int_run b Hb Hbne).
  cbn [mbind result_bind rbind]. now rewrite not_plus_group.
Qed.

Lemma version_to_tup_one (tail : string) :
  leading_digit tail = false ->
  starts_in [(".", ".")]%char tail = false ->
  version_to_tup (a +:+ tail)
  = Ok (mkEpicsModule (Str.digits_value 0 a) 0 0 (negb (starts_plus tail))).
Proof.
  intros Htail Hdot. unfold version_to_tup.
  destruct (match_dotted_of_one tail Htail Hdot) as [-> ->].
  rewrite (match_one tail Htail).
  cbn [group Nat.eqb Str.int_opt].
  destruct (numeral_digits a numeral_a) as [Ha Hane].
  rewrite (int_run a Ha Hane).
  cbn [mbind result_bind rbind]. now rewrite not_plus_group.
Qed.

End Components.

(** *** Conditions *)

(** What follows the operator in the pattern of a condition: the digits and
    dots, the optional plus sign and the end of the text. *)
Lemma run_condition_tail (whole : nat) (rversion plus : string) (caps : captures) :
  all_in version_class rversion = true ->
  plus = "" \/ plus = "+" ->
  run whole (Group 2 (Star (Class version_class)) +++ Group 3 plus_opt +++ Eol)
    (rversion +:+ plus) caps (fun _ caps' => Some caps')
  = Some ((3, plus) :: (2, rversion) :: caps)%nat.
Proof.
  intros Hv Hplus. rewrite run_Cat, run_Group, run_Star.
  rewrite star_class_greedy.
  - rewrite take_append. destruct Hplus as [-> | ->]; reflexivity.
  - exact Hv.
  - destruct Hplus as [-> | ->]; reflexivity.
  - left. rewrite take_append. destruct Hplus as [-> | ->]; cbn; eauto.
  - rewrite length_append. lia.
Qed.

(** A character of a version text is no equals sign. *)
Lemma run_eq_rejects {A : Type} (whole : nat) (rversion plus : string) (caps : captures)
    (k : @cont A) :
  all_in version_class rversion = true ->
  plus = "" \/ plus = "+" ->
  run whole (Lit "=") (rversion +:+ plus) caps k = None.
Proof.
  intros Hv Hplus. destruct rversion as [|c r].
  - destruct Hplus as [-> | ->]; reflexivity.
  - rewrite append_cons, run_Lit_cons. cbn [all_in] in Hv.
    apply andb_true_iff in Hv as [Hc _].
    destruct (Ascii.eqb_spec c "=") as [->|_]; [discriminate Hc | reflexivity].
Qed.

(** An operator, digits and dots and an optional plus sign make a
    condition, and the match object holds the three parts. *)
Lemma match_condition (comp rversion plus : string) :
  In comp operators ->
  all_in version_class rversion = true ->
  plus = "" \/ plus = "+" ->
  match_ pat_condition (comp +:+ rversion +:+ plus)
  = Some [(3, plus); (2, rversion); (1, comp)]%nat.
Proof.
  intros Hcomp Hv Hplus.
  unfold match_, pat_condition. rewrite run_Cat, run_Bol, Nat.eqb_refl.
  fold op_class version_class.
  rewrite run_Cat, run_Group, run_Alt, run_Cat.
  set (s := comp +:+ rversion +:+ plus).
  assert (Htail : forall p : string,
            s = p +:+ (rversion +:+ plus) ->
            run (String.length s)
              (Group 2 (Star (Class version_class)) +++ Group 3 plus_opt +++ Eol)
              (rversion +:+ plus)
              [(1, Str.take (String.length s - String.length (rversion +:+ plus)) s)]%nat
              (fun _ caps' => Some caps')
            = Some [(3, plus); (2, rversion); (1, p)]%nat).
  { intros p ->. rewrite take_append. now apply run_condition_tail. }
  unfold operators in Hcomp. cbn [In] in Hcomp.
  destruct Hcomp as [<-|[<-|[<-|[<-|[<-|[]]]]]]; subst s.
  - rewrite append_cons, append_nil in *. rewrite run_Class_cons.
    change (in_class op_class "<") with true. cbv iota.
    rewrite run_Opt, (run_eq_rejects _ _ _ _ _ Hv Hplus).
    now rewrite (Htail "<" eq_refl).
  - rewrite !append_cons, append_nil in *. rewrite run_Class_cons.
    change (in_class op_class "<") with true. cbv iota.
    rewrite run_Opt, run_Lit_cons. change (Ascii.eqb "=" "=") with true. cbv iota.
    now rewrite (Htail "<=" eq_refl).
  - rewrite append_cons, append_nil in *. rewrite run_Class_cons.
    change (in_class op_class ">") with true. cbv iota.
    rewrite run_Opt, (run_eq_rejects _ _ _ _ _ Hv Hplus).
    now rewrite (Htail ">" eq_refl).
  - rewrite !append_cons, append_nil in *. rewrite run_Class_cons.
    change (in_class op_class ">") with true. cbv iota.
    rewrite run_Opt, run_Lit_cons. change (Ascii.eqb "=" "=") with true. cbv iota.
    now rewrite (Htail ">=" eq_refl).
  - rewrite append_cons, append_nil in *. rewrite run_Class_cons.
    change (in_class op_class "=") with false. cbv iota.
    rewrite run_Lit_cons. change (Ascii.eqb "=" "=") with true. cbv iota.
    exact (Htail "=" eq_refl).
Qed.

End greedy_facts.

(** ** check_excludes: the order of versions, conditions and wildcards *)

Module order_facts.

Import Re ReFacts StrFacts PatternFacts check_excludes unparsable_facts.
Import check_excludes_facts Shapes greedy_facts.

Ltac order_cases x y :=
  destruct (Z.ltb_spec x y), (Z.ltb_spec y x), (Z.eqb_spec x y), (Z.eqb_spec y x);
  try lia.

(** X4. The five operators of [module_compare] are those of one total order:
    [>] is [<] with the sides exchanged, [<=] is the negation of [>], [>=]
    the negation of [<], and [=] holds when both [<=] and [>=] do. *)
Theorem module_compare_operators (lhs rhs : EpicsModule) :
  module_compare lhs rhs ">" = module_compare rhs lhs "<"
  /\ module_compare lhs rhs "<=" = option_map negb (module_compare lhs rhs ">")
  /\ module_compare lhs rhs ">=" = option_map negb (module_compare lhs rhs "<")
  /\ module_compare lhs rhs "="
     = Some (is_true_value (module_compare lhs rhs "<=")
             && is_true_value (module_compare lhs rhs ">=")).
Proof.
  unfold module_compare, eval_op, first_char, is_true_value, option_map.
  cbn [String.eqb Ascii.eqb Bool.eqb orb]. rewrite !Z.gtb_ltb.
  repeat split; f_equal;
    order_cases (major lhs) (major rhs);
    order_cases (minor lhs) (minor rhs);
    order_cases (patch lhs) (patch rhs); reflexivity.
Qed.

(** One step of the loop of [check], on a condition that matches the
    pattern. *)
Lemma check_loop_cons (version condition : string) (rest : list string) :
  is_Some (match_ pat_condition condition) ->
  exists b : bool,
    check_loop version [condition] = Ok b
    /\ check_loop version (condition :: rest)
       = if b then Ok true else check_loop version rest.
Proof.
  intros [m Hm]. cbn [check_loop]. rewrite Hm.
  destruct (match_group _ _ _ 1 Hm eq_refl) as (comp & -> & _).
  destruct (match_group _ _ _ 2 Hm eq_refl) as (rversion & -> & _).
  destruct (version_to_tup_total version) as (lhs & -> & _).
  destruct (version_to_tup_total rversion) as (rhs & -> & _).
  rewrite !rbind_Ok.
  destruct (is_true_value _); [now exists true | now exists false].
Qed.

(** X5. When every condition matches the pattern of a condition, [check] is the
    disjunction its docstring describes: it is true exactly when one of the
    conditions, taken alone, is true. *)
Theorem check_any_condition (version : string) (conditions : list string) :
  Forall (fun condition => is_Some (match_ pat_condition condition)) conditions ->
  check version conditions = Ok true
  <-> exists condition, In condition conditions /\ check version [condition] = Ok true.
Proof.
  intros Hall. unfold check.
  destruct (match_ pat_version version) as [m|].
  - induction Hall as [|condition rest Hc _ IH].
    + split; [discriminate|]. now intros (c & [] & _).
    + destruct (check_loop_cons version condition rest Hc) as (b & H1 & H2).
      rewrite H2. destruct b.
      * split; [|reflexivity]. intros _. exists condition. split; [now left | exact H1].
      * rewrite IH. split.
        -- intros (c & Hin & Hc'). exists c. split; [now right | exact Hc'].
        -- intros (c & [<-|Hin] & Hc'); [congruence|]. now exists c.
  - split; [discriminate|]. now intros (c & _ & Hc).
Qed.

Lemma check_any_condition_witness :
  Forall (fun condition => is_Some (match_ pat_condition condition)) [">3.0"; ">1.0"]
  /\ check "2.0.0" [">3.0"; ">1.0"] = Ok true.
Proof.
  assert (H : Forall (fun condition => is_Some (match_ pat_condition condition))
                [">3.0"; ">1.0"]).
  { repeat constructor; eexists; reflexivity. }
  split; [exact H|].
  apply (proj2 (check_any_condition "2.0.0" [">3.0"; ">1.0"] H)).
  exists ">1.0". split; [right; now left | reflexivity].
Defined.

(** X6. A plus sign at the end of a condition replaces its operator by [>=]:
    whatever the operator written, the condition is the one that asks for
    at least the version. *)
Theorem check_trailing_plus (version comp rversion : string) (rest : list string) :
  In comp operators ->
  all_in version_class rversion = true ->
  check version ((comp +:+ rversion +:+ "+") :: rest)
  = check version ((">=" +:+ rversion) :: rest).
Proof.
  intros Hcomp Hv. unfold check.
  destruct (match_ pat_version version) as [m|]; [|reflexivity].
  pose proof (match_condition comp rversion "+" Hcomp Hv (or_intror eq_refl)) as H1.
  assert (Hge : In ">=" operators) by (cbn; auto).
  pose proof (match_condition ">=" rversion "" Hge Hv (or_introl eq_refl)) as H2.
  rewrite append_empty_r in H2.
  cbn [check_loop]. rewrite H1, H2. reflexivity.
Qed.

Lemma check_trailing_plus_witness :
  (In "<" operators /\ all_in version_class "3.1" = true)
  /\ check "3.5.0" ["<3.1+"] = check "3.5.0" [">=3.1"]
  /\ check "3.5.0" ["<3.1+"] = Ok true.
Proof.
  assert (H1 : In "<" operators) by now left.
  assert (H2 : all_in version_class "3.1" = true) by reflexivity.
  split; [auto|]. split; [|reflexivity].
  exact (check_trailing_plus "3.5.0" "<" "3.1" [] H1 H2).
Defined.

(** X7. A requirement whose major number is 0 is no requirement: [module_match]
    accepts every candidate for it. The empty comparison version that
    [module_version] has by default is parsed into such a requirement, and
    so is every text that does not begin with a digit. *)
Theorem module_match_major_zero (version other : version_arg) (ver : EpicsModule) :
  as_tup version = Ok ver ->
  major ver = 0 ->
  module_match version other = Ok true.
Proof.
  intros Hver Hmajor. unfold module_match. rewrite Hver, rbind_Ok.
  assert (Hoth : exists oth, as_tup other = Ok oth).
  { destruct other as [s|t]; cbn [as_tup]; [|now exists t].
    destruct (version_to_tup_total s) as (t & Ht & _). now exists t. }
  destruct Hoth as [oth ->]. rewrite rbind_Ok.
  unfold high_enough. now rewrite Hmajor.
Qed.

Lemma module_match_major_zero_witness :
  (as_tup (Text "") = Ok (mkEpicsModule 0 0 0 false)
   /\ major (mkEpicsModule 0 0 0 false) = 0)
  /\ module_match (Text "") (Text "3.1.4") = Ok true.
Proof.
  assert (H1 : as_tup (Text "") = Ok (mkEpicsModule 0 0 0 false)) by reflexivity.
  assert (H2 : major (mkEpicsModule 0 0 0 false) = 0) by reflexivity.
  split; [auto|].
  exact (module_match_major_zero (Text "") (Text "3.1.4") _ H1 H2).
Defined.

(** X8. [version_to_tup] reads the six forms it is written for: on numerals
    [a], [b] and [c] (a zero, or digits that do not begin with a zero) the
    texts a.b.c, a.b and a give the values of the numerals, 0 for a missing
    component and [exact = True], and the same texts with a plus sign after
    them give the same values with [exact = False]. *)
Theorem version_to_tup_numerals (a b c : string) :
  numeral a = true -> numeral b = true -> numeral c = true ->
  exists x y z,
    (Str.int a = Ok x /\ Str.int b = Ok y /\ Str.int c = Ok z)
    /\ version_to_tup (dotted a b c) = Ok (mkEpicsModule x y z true)
    /\ version_to_tup (dotted a b (c +:+ "+")) = Ok (mkEpicsModule x y z false)
    /\ version_to_tup (a +:+ "." +:+ b) = Ok (mkEpicsModule x y 0 true)
    /\ version_to_tup (a +:+ "." +:+ b +:+ "+") = Ok (mkEpicsModule x y 0 false)
    /\ version_to_tup a = Ok (mkEpicsModule x 0 0 true)
    /\ version_to_tup (a +:+ "+") = Ok (mkEpicsModule x 0 0 false).
Proof.
  intros Ha Hb Hc.
  exists (Str.digits_value 0 a), (Str.digits_value 0 b), (Str.digits_value 0 c).
  destruct (numeral_digits a Ha) as [Hda Hane].
  destruct (numeral_digits b Hb) as [Hdb Hbne].
  destruct (numeral_digits c Hc) as [Hdc Hcne].
  split; [repeat split; now apply int_run|].
  repeat split.
  - rewrite <- (append_empty_r c) at 1.
    exact (version_to_tup_three a b c Ha Hb Hc "" eq_refl).
  - exact (version_to_tup_three a b c Ha Hb Hc "+" eq_refl).
  - rewrite <- (append_empty_r b) at 1.
    exact (version_to_tup_two a b Ha Hb "" eq_refl eq_refl).
  - exact (version_to_tup_two a b Ha Hb "+" eq_refl eq_refl).
  - rewrite <- (append_empty_r a) at 1.
    exact (version_to_tup_one a Ha "" eq_refl eq_refl).
  - exact (version_to_tup_one a Ha "+" eq_refl eq_refl).
Qed.

Lemma version_to_tup_numerals_witness :
  (numeral "3" = true /\ numeral "14" = true /\ numeral "0" = true)
  /\ exists x y z,
       (Str.int "3" = Ok x /\ Str.int "14" = Ok y /\ Str.int "0" = Ok z)
       /\ version_to_tup "3.14.0" = Ok (mkEpicsModule x y z true)
       /\ version_to_tup "3.14.0+" = Ok (mkEpicsModule x y z false)
       /\ version_to_tup "3.14" = Ok (mkEpicsModule x y 0 true)
       /\ version_to_tup "3.14+" = Ok (mkEpicsModule x y 0 false)
       /\ version_to_tup "3" = Ok (mkEpicsModule x 0 0 true)
       /\ version_to_tup "3+" = Ok (mkEpicsModule x 0 0 false).
Proof.
  split; [repeat split; reflexivity|].
  exact (version_to_tup_numerals "3" "14" "0" eq_refl eq_refl eq_refl).
Defined.

End order_facts.

(** ** check_excludes: what [version_to_tup] reads of a text *)

Module prefix_facts.

Import Re ReFacts StrFacts PatternFacts check_excludes unparsable_facts.
Import check_excludes_facts Shapes greedy_facts.

Lemma decimal_from (s : string) (acc : Z) :
  fold_left (fun n c => 10 * n + (Z.of_nat (nat_of_ascii c) - 48)) (list_ascii_of_string s) acc
  = Str.digits_value acc s.
Proof.
  revert acc. induction s as [|c s IH]; intros acc; [reflexivity|]. simpl. apply IH.
Qed.

Lemma decimal_digits_value (s : string) : decimal s = Str.digits_value 0 s.
Proof. apply decimal_from. Qed.

(** *** The numeral a text begins with *)

Lemma digit_run_spec (s : string) :
  s = fst (digit_run s) +:+ snd (digit_run s)
  /\ Str.all_digits (fst (digit_run s)) = true
  /\ leading_digit (snd (digit_run s)) = false.
Proof.
  induction s as [|c s (IH1 & IH2 & IH3)]; [repeat split|].
  cbn [digit_run]. destruct (Str.is_digit c) eqn:Hc.
  - destruct (digit_run s) as [ds rest]. cbn [fst snd] in *.
    rewrite append_cons, <- IH1. cbn [Str.all_digits]. now rewrite Hc, IH2.
  - cbn [fst snd leading_digit]. now rewrite append_nil.
Qed.

Lemma first_numeral_none (s : string) :
  first_numeral s = None <-> leading_digit s = false.
Proof.
  destruct s as [|c s]; [split; reflexivity|]. cbn [first_numeral leading_digit].
  destruct (Ascii.eqb_spec c "0") as [->|_]; [split; discriminate|].
  destruct (Str.is_digit c); [|split; reflexivity].
  destruct (digit_run s). split; discriminate.
Qed.

Lemma first_numeral_some (s a r : string) :
  first_numeral s = Some (a, r) ->
  s = a +:+ r /\ numeral a = true /\ (a = "0" \/ leading_digit r = false).
Proof.
  destruct s as [|c s]; [discriminate|]. cbn [first_numeral].
  destruct (Ascii.eqb_spec c "0") as [->|H0].
  - intros [= <- <-]. repeat split. now left.
  - destruct (Str.is_digit c) eqn:Hc; [|discriminate].
    destruct (digit_run_spec s) as (H1 & H2 & H3).
    destruct (digit_run s) as [ds rest]. cbn [fst snd] in *.
    intros [= <- <-]. split; [now rewrite append_cons, <- H1|]. split; [|now right].
    unfold numeral. apply orb_true_iff. right. rewrite H2, andb_true_r.
    unfold Str.is_digit, Str.in_range in *. apply andb_true_iff in Hc as [Hlo Hhi].
    rewrite Hhi, andb_true_r. apply Nat.leb_le in Hlo. apply Nat.leb_le.
    change (nat_of_ascii "0") with 48%nat in Hlo.
    change (nat_of_ascii "1") with 49%nat.
    assert (nat_of_ascii c <> 48%nat); [|lia].
    intros Heq. apply H0. rewrite <- (ascii_nat_embedding c), Heq. reflexivity.
Qed.

(** A numeric group takes the numeral the subject begins with, when what
    follows the group accepts the rest or rejects every subject that begins
    with a digit. *)
Lemma run_first_numeral {A : Type} (whole n : nat) (s a r : string) (caps : captures)
    (k : @cont A) :
  first_numeral s = Some (a, r) ->
  is_Some (k r ((n, a) :: caps))
  \/ (forall s' caps', leading_digit s' = true -> k s' caps' = None) ->
  run whole (number n) s caps k = k r ((n, a) :: caps).
Proof.
  intros Hs Hk. apply first_numeral_some in Hs as (-> & Ha & [->|Hr]).
  - unfold number. rewrite run_Group, run_Alt.
    rewrite append_cons, append_nil, run_Lit_cons.
    change (Ascii.eqb "0" "0") with true. cbv iota.
    replace (String.length (String "0" r) - String.length r)%nat with 1%nat
      by (simpl; lia).
    change (Str.take 1 (String "0" r)) with "0".
    rewrite run_Cat. unfold digit19. rewrite run_Class_cons.
    change (in_class [("1", "9")]%char "0") with false. cbv iota.
    now destruct (k r ((n, "0") :: caps)).
  - now apply run_number.
Qed.

(** It fails on a subject that begins with no digit. *)
Lemma run_no_numeral {A : Type} (whole n : nat) (s : string) (caps : captures)
    (k : @cont A) :
  first_numeral s = None -> run whole (number n) s caps k = None.
Proof.
  intros Hs. apply first_numeral_none in Hs.
  unfold number. rewrite run_Group, run_Alt, run_Cat. unfold digit19.
  destruct s as [|c s]; [reflexivity|]. cbn [leading_digit] in Hs.
  rewrite run_Lit_cons, run_Class_cons.
  assert (H0 : Ascii.eqb c "0" = false).
  { apply Ascii.eqb_neq. intros ->. discriminate Hs. }
  assert (H19 : in_class [("1", "9")]%char c = false).
  { apply not_true_iff_false. intros H. apply in_class_digit19 in H. congruence. }
  now rewrite H0, H19.
Qed.

(** What follows a numeral in the patterns, when it begins with the dot:
    it fails where no numeral follows a dot. *)
Lemma run_dot_no_numeral {A : Type} (whole n : nat) (r : regex) (s : string)
    (caps : captures) (k : @cont A) :
  next_numeral s = None -> run whole (dot +++ number n +++ r) s caps k = None.
Proof.
  destruct s as [|c s]; [reflexivity|]. cbn [next_numeral].
  destruct (Ascii.eqb_spec c ".") as [->|Hc].
  - intros Hs. rewrite run_dot, run_Cat. now apply run_no_numeral.
  - intros _. rewrite run_Cat. unfold dot. rewrite run_Lit_cons.
    now destruct (Ascii.eqb_spec c ".").
Qed.

Lemma run_dot_no_numeral_end {A : Type} (whole n : nat) (s : string)
    (caps : captures) (k : @cont A) :
  next_numeral s = None -> run whole (dot +++ number n) s caps k = None.
Proof.
  destruct s as [|c s]; [reflexivity|]. cbn [next_numeral].
  destruct (Ascii.eqb_spec c ".") as [->|Hc].
  - intros Hs. rewrite run_dot. now apply run_no_numeral.
  - intros _. rewrite run_Cat. unfold dot. rewrite run_Lit_cons.
    now destruct (Ascii.eqb_spec c ".").
Qed.

(** It takes the dot and the numeral where a numeral follows a dot. *)
Lemma run_dot_numeral {A : Type} (whole n : nat) (r : regex) (s b r2 : string)
    (caps : captures) (k : @cont A) :
  next_numeral s = Some (b, r2) ->
  is_Some (run whole r r2 ((n, b) :: caps) k)
  \/ (forall s' caps', leading_digit s' = true -> run whole r s' caps' k = None) ->
  run whole (dot +++ number n +++ r) s caps k = run whole r r2 ((n, b) :: caps) k.
Proof.
  destruct s as [|c s]; [discriminate|]. cbn [next_numeral].
  destruct (Ascii.eqb_spec c ".") as [->|Hc]; [|discriminate].
  intros Hs Hk. rewrite run_dot, run_Cat.
  exact (run_first_numeral whole n s b r2 caps
           (fun s' caps' => run whole r s' caps' k) Hs Hk).
Qed.

Lemma next_numeral_digit (s : string) : leading_digit s = true -> next_numeral s = None.
Proof.
  destruct s as [|c s]; [discriminate|]. cbn [leading_digit next_numeral]. intros Hc.
  now rewrite (proj1 (digit_not_sep c Hc)).
Qed.

Lemma int_numeral (a : string) :
  numeral a = true -> Str.int_opt (Some a) = Ok (decimal a).
Proof.
  intros Ha. destruct (numeral_digits a Ha) as [Hd Hne].
  cbn [Str.int_opt]. now rewrite (int_run a Hd Hne), decimal_digits_value.
Qed.

(** [version_to_tup] reads the version that the text begins with. *)
Lemma version_to_tup_reads (version : string) :
  version_to_tup version = Ok (read_version version).
Proof.
  unfold version_to_tup, read_version.
  destruct (first_numeral version) as [[a r1]|] eqn:H1.
  2:{ apply first_numeral_none in H1.
      now destruct (no_leading_digit_unparsable version H1) as (-> & -> & ->). }
  pose proof (first_numeral_some _ _ _ H1) as (_ & Ha & _).
  assert (Hend : forall (n : nat) s caps,
            is_Some (run (String.length version) (Group n plus_opt) s caps
                       (fun _ caps' => Some caps'))).
  { intros n s caps. rewrite run_plus_group. eauto. }
  destruct (next_numeral r1) as [[b r2]|] eqn:H2.
  2:{ assert (H3 : match_ pat_major_minor_patch version = None).
      { unfold match_, pat_major_minor_patch.
        rewrite run_Cat, (run_first_numeral _ _ _ _ _ _ _ H1).
        - now apply run_dot_no_numeral.
        - right. intros s' caps' Hs'. apply run_dot_no_numeral.
          now apply next_numeral_digit. }
      assert (H2' : match_ pat_major_minor version = None).
      { unfold match_, pat_major_minor.
        rewrite run_Cat, (run_first_numeral _ _ _ _ _ _ _ H1).
        - now apply run_dot_no_numeral.
        - right. intros s' caps' Hs'. apply run_dot_no_numeral.
          now apply next_numeral_digit. }
      rewrite H3, H2'. unfold match_, pat_major.
      rewrite run_Cat, (run_first_numeral _ _ _ _ _ _ _ H1) by (left; apply Hend).
      rewrite run_plus_group. cbn [group Nat.eqb].
      rewrite (int_numeral a Ha), rbind_Ok. now rewrite not_plus_group. }
  assert (Hb : numeral b = true).
  { destruct r1 as [|c r1]; [discriminate|]. cbn [next_numeral] in H2.
    destruct (Ascii.eqb c "."); [|discriminate].
    now apply first_numeral_some in H2. }
  destruct (next_numeral r2) as [[c r3]|] eqn:H3.
  2:{ assert (H3' : match_ pat_major_minor_patch version = None).
      { unfold match_, pat_major_minor_patch.
        rewrite run_Cat, (run_first_numeral _ _ _ _ _ _ _ H1).
        - rewrite (run_dot_numeral _ _ _ _ _ _ _ _ H2).
          + now apply run_dot_no_numeral.
          + right. intros s' caps' Hs'. apply run_dot_no_numeral.
            now apply next_numeral_digit.
        - right. intros s' caps' Hs'. apply run_dot_no_numeral.
          now apply next_numeral_digit. }
      rewrite H3'. unfold match_, pat_major_minor.
      rewrite run_Cat, (run_first_numeral _ _ _ _ _ _ _ H1).
      - rewrite (run_dot_numeral _ _ _ _ _ _ _ _ H2) by (left; apply Hend).
        rewrite run_plus_group. cbn [group Nat.eqb].
        rewrite (int_numeral a Ha), rbind_Ok, (int_numeral b Hb), rbind_Ok.
        now rewrite not_plus_group.
      - right. intros s' caps' Hs'. apply run_dot_no_numeral.
        now apply next_numeral_digit. }
  assert (Hc : numeral c = true).
  { destruct r2 as [|x r2]; [discriminate|]. cbn [next_numeral] in H3.
    destruct (Ascii.eqb x "."); [|discriminate].
    now apply first_numeral_some in H3. }
  unfold match_, pat_major_minor_patch.
  rewrite run_Cat, (run_first_numeral _ _ _ _ _ _ _ H1).
  - rewrite (run_dot_numeral _ _ _ _ _ _ _ _ H2).
    + rewrite (run_dot_numeral _ _ _ _ _ _ _ _ H3) by (left; apply Hend).
      rewrite run_plus_group. cbn [group Nat.eqb].
      rewrite (int_numeral a Ha), rbind_Ok, (int_numeral b Hb), rbind_Ok.
      rewrite (int_numeral c Hc), rbind_Ok. now rewrite not_plus_group.
    + right. intros s' caps' Hs'. apply run_dot_no_numeral.
      now apply next_numeral_digit.
  - right. intros s' caps' Hs'. apply run_dot_no_numeral.
    now apply next_numeral_digit.
Qed.

(** C9. [version_to_tup] raises on no string: it returns the version that
    the text begins with, as [read_version] reads it. None of the three
    patterns matches exactly when the text does not begin with a digit, and
    the result is then the zero version with [exact = False]. The patterns
    have no end anchor, so that a text that begins with a digit is read up
    to the end of its longest beginning MAJOR, MAJOR.MINOR or
    MAJOR.MINOR.PATCH and is never taken as unparsable, whatever follows
    that beginning. *)
Theorem version_to_tup_unparsable (version : string) :
  version_to_tup version = Ok (read_version version)
  /\ (leading_digit version = false <->
      match_ pat_major_minor_patch version = None
      /\ match_ pat_major_minor version = None
      /\ match_ pat_major version = None)
  /\ (leading_digit version = false ->
      version_to_tup version = Ok (mkEpicsModule 0 0 0 false))
  /\ (leading_digit version = true ->
      exists a rest,
        version = a +:+ rest /\ numeral a = true
        /\ major (read_version version) = decimal a).
Proof.
  split; [apply version_to_tup_reads|]. split; [|split].
  - split; [apply no_leading_digit_unparsable|].
    intros (_ & _ & H1). destruct (leading_digit version) eqn:Hd; [|reflexivity].
    apply leading_digit_parsable in Hd. rewrite H1 in Hd. now destruct Hd.
  - intros Hd. rewrite version_to_tup_reads. unfold read_version.
    now rewrite (proj2 (first_numeral_none version) Hd).
  - intros Hd. unfold read_version.
    destruct (first_numeral version) as [[a r1]|] eqn:H1.
    + destruct (first_numeral_some _ _ _ H1) as (Hv & Ha & _).
      exists a, r1. split; [exact Hv|]. split; [exact Ha|].
      destruct (next_numeral r1) as [[b r2]|]; [|reflexivity].
      now destruct (next_numeral r2) as [[c r3]|].
    + apply first_numeral_none in H1. congruence.
Qed.

Lemma version_to_tup_unparsable_witness :
  leading_digit "latest" = false
  /\ version_to_tup "latest" = Ok (mkEpicsModule 0 0 0 false).
Proof.
  split; [reflexivity|].
  exact (proj1 (proj2 (proj2 (version_to_tup_unparsable "latest"))) eq_refl).
Defined.

(** C9, as stated, fails: these four texts are not of the form
    MAJOR[.MINOR[.PATCH]][+], and none of them is read as the zero version
    with [exact = False]. *)
Lemma version_to_tup_reads_a_prefix :
  (version_form "1.2abc" = false
   /\ version_to_tup "1.2abc" = Ok (mkEpicsModule 1 2 0 true))
  /\ (version_form "1.2.3.4" = false
      /\ version_to_tup "1.2.3.4" = Ok (mkEpicsModule 1 2 3 true))
  /\ (version_form "01.2" = false
      /\ version_to_tup "01.2" = Ok (mkEpicsModule 0 0 0 true))
  /\ (version_form "1." = false
      /\ version_to_tup "1." = Ok (mkEpicsModule 1 0 0 true)).
Proof. repeat split; reflexivity. Qed.

End prefix_facts.

(** ** get_prerequisites: installed versions, their key and their parse *)

Module version_facts.

Import Re ReFacts StrFacts PatternFacts check_excludes check_excludes_facts.
Import get_prerequisites Selection Shapes greedy_facts selection_facts.

#[local] Arguments mbind : simpl never.

(** A numeric group matches a numeral. *)
Lemma matches_number_numeral (n : nat) (s s' : string) :
  matches (number n) s s' -> exists p, s = p +:+ s' /\ numeral p = true.
Proof.
  intros H. inversion H as [| | | | | | | | |? ? ? ? Hbody| |]; subst; clear H.
  inversion Hbody as [| | |r1 r2 t t' H0|r1 r2 t t' H0| | | | | | |]; subst; clear Hbody.
  - inversion H0; subst. now exists "0".
  - inversion H0 as [| |r1 r2 t t1 t2 Hd Hs| | | | | | | | |]; subst.
    inversion Hd as [|ranges c t Hc| | | | | | | | | |]; subst.
    apply matches_digits in Hs as (p & -> & Hp).
    exists (String c p). split; [reflexivity|].
    unfold numeral. apply orb_true_iff. right. rewrite Hp, andb_true_r.
    unfold in_class in Hc. cbn [existsb fst snd] in Hc. now rewrite orb_false_r in Hc.
Qed.

(** The name of an installed version is made of three numerals; a newline
    may follow them, as [$] allows. *)
Lemma strict_version_numerals (version : string) :
  is_strict_version version = true ->
  exists a b c tail,
    version = dotted a b (c +:+ tail)
    /\ numeral a = true /\ numeral b = true /\ numeral c = true
    /\ (tail = EmptyString \/ tail = String "010" EmptyString).
Proof.
  unfold is_strict_version.
  destruct (match_ pat_strict_version version) as [m|] eqn:Hm; [intros _|discriminate].
  apply match_sound in Hm as ((s' & Hm) & _). unfold pat_strict_version in Hm.
  inversion Hm as [| |? ? ? s1 ? Ha H1| | | | | | | | |]; subst; clear Hm.
  inversion H1 as [| |? ? ? s2 ? Hd1 H2| | | | | | | | |]; subst; clear H1.
  inversion H2 as [| |? ? ? s3 ? Hb H3| | | | | | | | |]; subst; clear H2.
  inversion H3 as [| |? ? ? s4 ? Hd2 H4| | | | | | | | |]; subst; clear H3.
  inversion H4 as [| |? ? ? s5 ? Hc H5| | | | | | | | |]; subst; clear H4.
  inversion H5 as [| | | | | | | | | | |? Htail]; subst; clear H5.
  apply matches_number_numeral in Ha as (a & -> & Ha).
  apply matches_dot in Hd1 as ->.
  apply matches_number_numeral in Hb as (b & -> & Hb).
  apply matches_dot in Hd2 as ->.
  apply matches_number_numeral in Hc as (c & -> & Hc).
  exists a, b, c, s'. auto.
Qed.

Lemma tail_no_digit (tail : string) :
  tail = EmptyString \/ tail = String "010" EmptyString ->
  leading_digit tail = false /\ starts_plus tail = false.
Proof. intros [-> | ->]; split; reflexivity. Qed.

(** The sort key of a text of three numerals. *)
Lemma module_key_dotted (a b c tail : string) :
  numeral a = true -> numeral b = true -> numeral c = true ->
  tail = EmptyString \/ tail = String "010" EmptyString ->
  module_key (dotted a b (c +:+ tail))
  = Ok (Str.digits_value 0 a, Str.digits_value 0 b, Str.digits_value 0 c).
Proof.
  intros Ha Hb Hc Htail.
  destruct (numeral_digits a Ha) as [Hda Hane].
  destruct (numeral_digits b Hb) as [Hdb Hbne].
  destruct (numeral_digits c Hc) as [Hdc Hcne].
  unfold module_key, dotted.
  rewrite (split_max_digits a _ 1 Hda), (split_max_digits b _ 0 Hdb), split_max_0.
  rewrite (int_run a Hda Hane), rbind_Ok.
  rewrite (int_run b Hdb Hbne), rbind_Ok.
  now rewrite (int_digits c tail Hdc Hcne Htail), rbind_Ok.
Qed.

(** The order of the keys is the order [<=] of [module_compare]. *)
Lemma key_le_module_compare (t1 t2 : EpicsModule) :
  key_le (major t1, minor t1, patch t1) (major t2, minor t2, patch t2)
  <-> module_compare t1 t2 "<=" = Some true.
Proof.
  unfold module_compare, eval_op, first_char, key_le.
  cbn [String.eqb Ascii.eqb Bool.eqb orb].
  split.
  - intros H. f_equal.
    rewrite !orb_true_iff, !andb_true_iff, !Z.ltb_lt, !Z.eqb_eq. lia.
  - intros [= H]. revert H.
    rewrite !orb_true_iff, !andb_true_iff, !Z.ltb_lt, !Z.eqb_eq. lia.
Qed.

(** X9. The two readings of an installed version agree: the key that
    [module_version] sorts the installed versions by is made of the major,
    minor and patch numbers that [version_to_tup] parses from the same
    name (an exact version), so that the sorted order is the order [<=] of
    [module_compare]. *)
Theorem module_key_is_parsed_version (v1 v2 : string) :
  is_strict_version v1 = true ->
  is_strict_version v2 = true ->
  exists t1 t2,
    (version_to_tup v1 = Ok t1 /\ version_to_tup v2 = Ok t2)
    /\ (exact t1 = true /\ exact t2 = true)
    /\ module_key v1 = Ok (major t1, minor t1, patch t1)
    /\ module_key v2 = Ok (major t2, minor t2, patch t2)
    /\ (key_le (major t1, minor t1, patch t1) (major t2, minor t2, patch t2)
        <-> module_compare t1 t2 "<=" = Some true).
Proof.
  intros H1 H2.
  apply strict_version_numerals in H1
    as (a1 & b1 & c1 & tail1 & -> & Ha1 & Hb1 & Hc1 & Htail1).
  apply strict_version_numerals in H2
    as (a2 & b2 & c2 & tail2 & -> & Ha2 & Hb2 & Hc2 & Htail2).
  destruct (tail_no_digit tail1 Htail1) as [Hd1 Hp1].
  destruct (tail_no_digit tail2 Htail2) as [Hd2 Hp2].
  rewrite (version_to_tup_three a1 b1 c1 Ha1 Hb1 Hc1 tail1 Hd1).
  rewrite (version_to_tup_three a2 b2 c2 Ha2 Hb2 Hc2 tail2 Hd2).
  rewrite Hp1, Hp2. do 2 eexists. split; [split; reflexivity|].
  cbn [major minor patch exact negb]. split; [split; reflexivity|].
  split; [now apply module_key_dotted|]. split; [now apply module_key_dotted|].
  exact (key_le_module_compare (mkEpicsModule _ _ _ true) (mkEpicsModule _ _ _ true)).
Qed.

Lemma module_key_is_parsed_version_witness :
  (is_strict_version "1.9.0" = true /\ is_strict_version "1.10.0" = true)
  /\ exists t1 t2,
       (version_to_tup "1.9.0" = Ok t1 /\ version_to_tup "1.10.0" = Ok t2)
       /\ (exact t1 = true /\ exact t2 = true)
       /\ module_key "1.9.0" = Ok (major t1, minor t1, patch t1)
       /\ module_key "1.10.0" = Ok (major t2, minor t2, patch t2)
       /\ (key_le (major t1, minor t1, patch t1) (major t2, minor t2, patch t2)
           <-> module_compare t1 t2 "<=" = Some true).
Proof.
  split; [split; reflexivity|].
  exact (module_key_is_parsed_version "1.9.0" "1.10.0" eq_refl eq_refl).
Defined.

(** *** A mapping file with a line that holds no version *)

Lemma search_lines_app (l1 l2 : list string) (module : string) :
  search_lines (l1 ++ l2) module
  = match search_lines l1 module with
    | Ok None => search_lines l2 module
    | r => r
    end.
Proof.
  induction l1 as [|line l1 IH]; [reflexivity|].
  cbn [app search_lines].
  destruct (Str.rsplit1 "," (Str.strip line)) as [|name tail]; [reflexivity|].
  destruct (String.eqb name module); [now destruct tail | exact IH].
Qed.

Lemma search_lines_bare_name (line : string) (rest : list string) (module : string) :
  bare_name module line -> search_lines (line :: rest) module = Raise IndexError.
Proof.
  intros [Hline Hfree]. cbn [search_lines].
  rewrite Hline, (rsplit1_comma_free module Hfree). now rewrite String.eqb_refl.
Qed.

Lemma bind_lift_Raise {A B : Type} (e : exn) (f : A -> M B) :
  (lift (Raise e) ≫= f) = mkM [] (Raise e).
Proof. reflexivity. Qed.

Lemma bind_lift_Ok {A B : Type} (a : A) (f : A -> M B) : (lift (Ok a) ≫= f) = f a.
Proof. unfold mbind, M_mbind, M_bind, lift. cbn. now destruct (f a). Qed.

Lemma bind_ret {A B : Type} (a : A) (f : A -> M B) : (mret a ≫= f) = f a.
Proof. apply bind_lift_Ok. Qed.

(** X10. A line of a mapping file that is the bare name of the module makes the
    search of the file fail: when no line before it names the module,
    [search_dep_file] raises IndexError ([lsplit[1]] does not exist), and
    so does [module_version], which reads the architecture-specific mapping
    file first and handles no exception. *)
Theorem module_version_bare_name (fs : FileSystem) (env : Environ)
    (module comp_version epics_base_version target_arch : string)
    (before after : list string) (line : string) :
  lookup_path fs (arch_default_file env epics_base_version target_arch)
  = Some (File (before ++ line :: after)) ->
  search_lines before module = Ok None ->
  bare_name module line ->
  search_dep_file fs (arch_default_file env epics_base_version target_arch) module
  = Raise IndexError
  /\ module_version fs env module comp_version epics_base_version target_arch
     = mkM [] (Raise IndexError).
Proof.
  intros Hfile Hbefore Hline.
  assert (Hsearch : search_dep_file fs (arch_default_file env epics_base_version target_arch)
                      module = Raise IndexError).
  { unfold search_dep_file, os.readlines. rewrite Hfile, rbind_Ok.
    rewrite search_lines_app, Hbefore. now apply search_lines_bare_name. }
  split; [exact Hsearch|].
  unfold module_version, os.isfile. rewrite Hfile, Hsearch. apply bind_lift_Raise.
Qed.

Lemma module_version_bare_name_witness :
  (lookup_path Fixture.fs_bare_line (arch_default_file Fixture.env "3.15" "linux")
   = Some (File (["asyn,4.2.0" +:+ nl] ++ ("baz" +:+ nl) :: []))
   /\ search_lines ["asyn,4.2.0" +:+ nl] "baz" = Ok None
   /\ bare_name "baz" ("baz" +:+ nl))
  /\ search_dep_file Fixture.fs_bare_line (arch_default_file Fixture.env "3.15" "linux") "baz"
     = Raise IndexError
  /\ module_version Fixture.fs_bare_line Fixture.env "baz" "" "3.15" "linux"
     = mkM [] (Raise IndexError).
Proof.
  assert (H1 : lookup_path Fixture.fs_bare_line (arch_default_file Fixture.env "3.15" "linux")
               = Some (File (["asyn,4.2.0" +:+ nl] ++ ("baz" +:+ nl) :: [])))
    by reflexivity.
  assert (H2 : search_lines ["asyn,4.2.0" +:+ nl] "baz" = Ok None) by reflexivity.
  assert (H3 : bare_name "baz" ("baz" +:+ nl)) by (split; reflexivity).
  split; [auto|].
  exact (module_version_bare_name Fixture.fs_bare_line Fixture.env "baz" "" "3.15" "linux"
           ["asyn,4.2.0" +:+ nl] [] ("baz" +:+ nl) H1 H2 H3).
Defined.

(** *** What [module_version] returns and logs *)

Section Result.

Variable fs : FileSystem.
Variable env : Environ.
Variables module comp_version epics_base_version target_arch : string.

(** What [module_version] does with the answer of a mapping file. *)
Lemma lookup_cases (file : string) :
  exists r : result (option string),
    (if os.isfile fs file then lift (search_dep_file fs file module) else mret None)
    = lift r.
Proof. destruct (os.isfile fs file); [now eexists | now exists (Ok None)]. Qed.

Lemma truthy_cases (d : option string) :
  (exists v, d = Some v /\ v <> "" /\ Str.truthy d = true) \/ Str.truthy d = false.
Proof.
  destruct d as [v|]; [|now right]. cbn [Str.truthy].
  destruct (String.eqb_spec v "") as [->|Hne]; [now right|]. left. now exists v.
Qed.

(** X11. [module_version] raises without a record in the log, or returns a
    version that is not the empty text without a record in the log, or
    returns [None] after the one record that says that no version was
    found: what it returns is always safe to test with [if version]. *)
Theorem module_version_result :
  (exists e,
     module_version fs env module comp_version epics_base_version target_arch
     = mkM [] (Raise e))
  \/ (exists version,
        version <> ""
        /\ module_version fs env module comp_version epics_base_version target_arch
           = mkM [] (Ok (Some version)))
  \/ module_version fs env module comp_version epics_base_version target_arch
     = mkM [mkRecord DEBUG "No version found for module {}" [module]] (Ok None).
Proof.
  unfold module_version.
  destruct (lookup_cases (arch_default_file env epics_base_version target_arch))
    as [[d1|e] ->]; [|left; now exists e].
  rewrite bind_lift_Ok.
  destruct (truthy_cases d1) as [(v & -> & Hv & ->)| ->];
    [right; left; now exists v|].
  destruct (lookup_cases (epics_default_file env epics_base_version))
    as [[d2|e] ->]; [|left; now exists e].
  rewrite bind_lift_Ok.
  destruct (truthy_cases d2) as [(v & -> & Hv & ->)| ->];
    [right; left; now exists v|].
  destruct (installed_versions_spec fs env module epics_base_version target_arch)
    as (versions & -> & Hversions).
  rewrite bind_lift_Ok.
  assert (Hstrict : forall v, v ∈ versions -> is_strict_version v = true).
  { intros v Hv. apply Hversions in Hv. now destruct Hv as (_ & _ & _ & _ & Hs). }
  destruct (highest_installed_found comp_version versions Hstrict) as (r & Hfound & Hr).
  assert (Hlift : (if decide (versions = ∅) then mret None
                   else sorted_installed_versions ←
                          lift (sorted_by_module_key (elements versions));
                        lift (first_match comp_version (reverse sorted_installed_versions)))
                  = lift (Ok r)).
  { rewrite <- Hfound. destruct (decide (versions = ∅)); [reflexivity|].
    destruct (sorted_by_module_key (elements versions)) as [sorted|e];
      [now rewrite bind_lift_Ok | reflexivity]. }
  rewrite Hlift, bind_lift_Ok.
  destruct r as [version|].
  - right. left. exists version. split; [|reflexivity].
    destruct Hr as [Hin _]. apply Hstrict in Hin.
    intros ->. discriminate Hin.
  - right. right. reflexivity.
Qed.

End Result.

End version_facts.

(** ** get_prerequisites: the three sources of a version, in their order *)

Module priority_facts.

Import Re ReFacts StrFacts PatternFacts check_excludes check_excludes_facts.
Import get_prerequisites Selection Shapes greedy_facts selection_facts.
Import prefix_facts version_facts.

(** *** The name of an installed version, read as three numbers *)

Lemma split_nonempty (s : string) : Str.split "." s <> [].
Proof.
  destruct s as [|c s]; [discriminate|]. cbn [Str.split].
  destruct (Ascii.eqb c "."); [discriminate|]. now destruct (Str.split "." s).
Qed.

Lemma split_dot_digits (g rest : string) :
  Str.all_digits g = true ->
  Str.split "." (g +:+ String "." rest) = g :: Str.split "." rest.
Proof.
  intros Hg. induction g as [|c g IH]; [reflexivity|].
  cbn [Str.all_digits] in Hg. apply andb_true_iff in Hg as [Hc Hg].
  rewrite append_cons. cbn [Str.split].
  now rewrite (proj1 (digit_not_sep c Hc)), (IH Hg).
Qed.

Lemma split_digits (g : string) : Str.all_digits g = true -> Str.split "." g = [g].
Proof.
  induction g as [|c g IH]; [reflexivity|]. cbn [Str.all_digits Str.split].
  intros H. apply andb_true_iff in H as [Hc Hg].
  now rewrite (proj1 (digit_not_sep c Hc)), (IH Hg).
Qed.

(** The first part of a split, and what the other parts are the split
    of. *)
Lemma split_inv (s w : string) (ws : list string) :
  Str.split "." s = w :: ws ->
  match ws with
  | [] => s = w
  | _ :: _ => exists s', s = w +:+ String "." s' /\ Str.split "." s' = ws
  end.
Proof.
  revert w ws. induction s as [|c s IH]; intros w ws; cbn [Str.split].
  - now intros [= <- <-].
  - destruct (Ascii.eqb_spec c ".") as [->|Hc].
    + intros [= <- <-]. pose proof (split_nonempty s) as Hne.
      destruct (Str.split "." s) as [|x xs] eqn:Hs; [congruence|].
      exists s. now rewrite append_nil.
    + destruct (Str.split "." s) as [|x xs] eqn:Hs; [now destruct (split_nonempty s)|].
      intros [= <- <-]. specialize (IH x xs eq_refl).
      destruct xs as [|y ys]; [now rewrite IH|].
      destruct IH as (s' & -> & Hs'). exists s'. now rewrite append_cons.
Qed.

Lemma split_three (s a b c : string) :
  Str.split "." s = [a; b; c] -> s = dotted a b c.
Proof.
  intros H. apply split_inv in H as (s1 & -> & H).
  apply split_inv in H as (s2 & -> & H).
  apply split_inv in H as ->. reflexivity.
Qed.

Lemma without_newline_digits (g : string) :
  Str.all_digits g = true -> without_newline g = g.
Proof.
  induction g as [|c g IH]; [reflexivity|]. cbn [Str.all_digits].
  intros H. apply andb_true_iff in H as [Hc Hg]. cbn [without_newline].
  destruct g as [|c' g].
  - destruct (Ascii.eqb_spec c "010") as [->|_]; [discriminate Hc | reflexivity].
  - now rewrite (IH Hg).
Qed.

(** A line feed after digits is dropped; the digits stay. *)
Lemma without_newline_end (p g tail : string) :
  Str.all_digits g = true -> g <> EmptyString ->
  tail = EmptyString \/ tail = String "010" EmptyString ->
  without_newline (p +:+ g +:+ tail) = p +:+ g.
Proof.
  intros Hg Hne Htail.
  assert (Hend : without_newline (g +:+ tail) = g).
  { destruct Htail as [-> | ->].
    - rewrite append_empty_r. now apply without_newline_digits.
    - clear Hg Hne. induction g as [|c g IH]; [reflexivity|].
      rewrite append_cons. cbn [without_newline]. rewrite IH.
      now destruct g. }
  induction p as [|c p IH]; [now rewrite !append_nil|].
  rewrite !append_cons. cbn [without_newline]. rewrite IH.
  destruct p as [|c' p].
  - rewrite append_nil. destruct g as [|x g]; [congruence|]. now rewrite append_cons.
  - now rewrite append_cons.
Qed.

(** A name is what it is without its line feed, and that line feed. *)
Lemma without_newline_tail (s : string) :
  exists tail,
    (tail = EmptyString \/ tail = String "010" EmptyString)
    /\ s = without_newline s +:+ tail.
Proof.
  induction s as [|c s (tail & Htail & IH)]; [exists EmptyString; auto|].
  cbn [without_newline]. destruct s as [|c' s].
  - destruct (Ascii.eqb_spec c "010") as [->|_].
    + exists (String "010" EmptyString). auto.
    + exists EmptyString. auto.
  - exists tail. split; [exact Htail|]. now rewrite append_cons, <- IH.
Qed.

(** The pattern of an installed version matches three numerals with dots
    between them, and a line feed after them. *)
Lemma match_strict (a b c tail : string) :
  numeral a = true -> numeral b = true -> numeral c = true ->
  tail = EmptyString \/ tail = String "010" EmptyString ->
  is_strict_version (dotted a b (c +:+ tail)) = true.
Proof.
  intros Ha Hb Hc Htail. destruct (tail_no_digit tail Htail) as [Hd _].
  unfold is_strict_version, match_, pat_strict_version, dotted.
  rewrite run_Cat, run_number;
    [|exact Ha|reflexivity|right; intros; now apply dot_rejects_digit].
  rewrite run_dot, run_Cat, run_number;
    [|exact Hb|reflexivity|right; intros; now apply dot_rejects_digit].
  rewrite run_dot, run_Cat, run_number;
    [|exact Hc|exact Hd|left; destruct Htail as [-> | ->]; cbn; eauto].
  now destruct Htail as [-> | ->].
Qed.

(** The triple of a text of three numerals. *)
Lemma version_triple_dotted (a b c tail : string) :
  numeral a = true -> numeral b = true -> numeral c = true ->
  tail = EmptyString \/ tail = String "010" EmptyString ->
  version_triple (dotted a b (c +:+ tail)) = Some (decimal a, decimal b, decimal c).
Proof.
  intros Ha Hb Hc Htail.
  destruct (numeral_digits a Ha) as [Hda _].
  destruct (numeral_digits b Hb) as [Hdb _].
  destruct (numeral_digits c Hc) as [Hdc Hcne].
  unfold version_triple, dotted.
  replace (a +:+ String "." (b +:+ String "." (c +:+ tail)))
    with ((a +:+ String "." (b +:+ String "." EmptyString)) +:+ c +:+ tail).
  2:{ rewrite !append_assoc, !append_cons, !append_assoc, !append_cons, !append_nil.
      reflexivity. }
  rewrite (without_newline_end _ c tail Hdc Hcne Htail).
  rewrite !append_assoc, !append_cons, !append_assoc, !append_cons, !append_nil.
  rewrite (split_dot_digits a _ Hda), (split_dot_digits b _ Hdb), (split_digits c Hdc).
  now rewrite Ha, Hb, Hc.
Qed.

(** The names that match the pattern of an installed version are the
    strictly numeric ones, and the key that [module_version] sorts them by
    is their triple. *)
Lemma strict_version_triple (version : string) :
  is_strict_version version = true ->
  exists t, version_triple version = Some t /\ module_key version = Ok t.
Proof.
  intros H. apply strict_version_numerals in H
    as (a & b & c & tail & -> & Ha & Hb & Hc & Htail).
  exists (decimal a, decimal b, decimal c). split.
  - now apply version_triple_dotted.
  - rewrite (module_key_dotted a b c tail Ha Hb Hc Htail).
    now rewrite !decimal_digits_value.
Qed.

Lemma strictly_numeric_strict (version : string) :
  strictly_numeric version = true <-> is_strict_version version = true.
Proof.
  split.
  - unfold strictly_numeric, version_triple.
    destruct (without_newline_tail version) as (tail & Htail & Hv).
    destruct (Str.split "." (without_newline version)) as [|a [|b [|c [|d l]]]] eqn:Hs;
      try discriminate.
    destruct (numeral a) eqn:Ha; [|discriminate].
    destruct (numeral b) eqn:Hb; [|discriminate].
    destruct (numeral c) eqn:Hc; [|discriminate].
    intros _. apply split_three in Hs. rewrite Hv, Hs. unfold dotted.
    rewrite !append_assoc, !append_cons, !append_assoc.
    now apply match_strict.
  - intros H. apply strict_version_triple in H as (t & Ht & _).
    unfold strictly_numeric. now rewrite Ht.
Qed.

Lemma key_le_triple_le (k1 k2 : version_key) : key_le k1 k2 <-> triple_le k1 k2.
Proof. destruct k1 as [[a1 b1] c1], k2 as [[a2 b2] c2]. unfold key_le, triple_le. lia. Qed.

(** *** The third source *)

Section Sources.

Variable fs : FileSystem.
Variable env : Environ.
Variables module comp_version epics_base_version target_arch : string.

(** The version that the loop over the sorted versions leaves is a highest
    installed version, as the specification words it. *)
Lemma highest_by_key_installed (versions : gset string) (r : option string) :
  installed_versions fs env module epics_base_version target_arch = Ok versions ->
  highest_by_key comp_version versions r ->
  highest_installed fs env module comp_version epics_base_version target_arch r.
Proof.
  intros Hinst Hr.
  destruct (installed_versions_spec fs env module epics_base_version target_arch)
    as (versions' & Hinst' & Hversions).
  rewrite Hinst in Hinst'. injection Hinst' as <-.
  assert (Hin : forall v,
            installed fs env module epics_base_version target_arch v <-> v ∈ versions).
  { intros v. rewrite Hversions. unfold installed, listed. split.
    - intros [(entries & Hdir & Hv & Hnum) Hfile]. exists entries.
      repeat split; auto. now apply strictly_numeric_strict.
    - intros (entries & Hdir & Hv & Hfile & Hstrict). split; [|exact Hfile].
      exists entries. repeat split; auto. now apply strictly_numeric_strict. }
  assert (Hstrict : forall v, v ∈ versions -> is_strict_version v = true).
  { intros v Hv. apply Hversions in Hv. now destruct Hv as (_ & _ & _ & _ & Hs). }
  destruct r as [version|]; cbn [highest_by_key highest_installed] in *.
  - destruct Hr as (Hv & Hm & k & Hk & Hmax).
    split; [split; [now apply Hin | exact Hm]|].
    intros other [Hother Hmo]. apply Hin in Hother.
    destruct (Hmax other Hother Hmo) as (k' & Hk' & Hle).
    destruct (strict_version_triple version (Hstrict _ Hv)) as (t & Ht & Hkt).
    destruct (strict_version_triple other (Hstrict _ Hother)) as (t' & Ht' & Hkt').
    unfold not_above. rewrite Ht, Ht'.
    rewrite Hk in Hkt. injection Hkt as <-. rewrite Hk' in Hkt'. injection Hkt' as <-.
    now apply key_le_triple_le.
  - intros version [Hv Hm]. apply Hin in Hv. rewrite (Hr version Hv) in Hm. discriminate.
Qed.

(** C6. The outcome of [module_version] is the one of the three sources in
    their order: the version of the first line for the module in the
    architecture-specific mapping file, else the one of the first line for
    it in the architecture-independent mapping file, else a highest one, by
    (major, minor, patch), of the strictly numeric versions of the module
    that hold its dependency file for the base version and the architecture
    and that satisfy [module_match] against the comparison version, else
    [None]. A version that is the empty text counts for none, a mapping file
    is read only when the sources before it named no version, and where the
    first line for the module in a mapping file that is read is its bare
    name, the outcome is [IndexError]. Every version satisfies the empty
    comparison version. *)
Theorem module_version_priority :
  selected fs env module comp_version epics_base_version target_arch
    (outcome (module_version fs env module comp_version epics_base_version target_arch))
  /\ forall version, module_match (Text "") (Text version) = Ok true.
Proof.
  split.
  2:{ intros version. unfold module_match. cbn [as_tup].
      destruct (version_to_tup_total version) as (t & -> & _). reflexivity. }
  destruct (default_lookup fs (arch_default_file env epics_base_version target_arch) module)
    as (d1 & Hl1 & Hd1).
  destruct (default_lookup fs (epics_default_file env epics_base_version) module)
    as (d2 & Hl2 & Hd2).
  destruct (module_version_outcome fs env module comp_version epics_base_version
              target_arch d1 Hl1) as (d2' & versions & r3 & Hl2' & Hinst & Hr3 & ->).
  rewrite Hl2 in Hl2'. injection Hl2' as <-.
  pose proof (highest_by_key_installed versions r3 Hinst Hr3) as Hhigh.
  destruct d1 as [v1|e]; [|now apply selected_arch_unread].
  destruct (truthy_cases v1) as [(v & -> & Hv & ->)|Ht1].
  { now apply selected_arch. }
  rewrite Ht1.
  destruct d2 as [v2|e]; [|now apply (selected_default_unread _ _ _ _ _ _ v1)].
  destruct (truthy_cases v2) as [(v & -> & Hv & ->)|Ht2].
  { now apply (selected_default _ _ _ _ _ _ v1). }
  rewrite Ht2. now apply (selected_installed _ _ _ _ _ _ v1 v2).
Qed.

End Sources.

(** C6, as stated, fails. Version 2.0.0 of [asyn] is a strictly numeric
    version of the installation, it satisfies the empty comparison version
    and it is above 1.0.0, but it holds no dependency file for base 3.15:
    [module_version] returns 1.0.0. And where the mapping file names [baz]
    without a version, [module_version] returns nothing: it raises. *)
Lemma module_version_passes_over_other_base :
  (listed Fixture.fs_other_base Fixture.env "asyn" "2.0.0"
   /\ module_match (Text "") (Text "2.0.0") = Ok true
   /\ version_triple "1.0.0" = Some (1, 0, 0)
   /\ version_triple "2.0.0" = Some (2, 0, 0))
  /\ outcome (module_version Fixture.fs_other_base Fixture.env "asyn" "" "3.15" "linux")
     = Ok (Some "1.0.0")
  /\ outcome (module_version Fixture.fs_bare_line Fixture.env "baz" "" "3.15" "linux")
     = Raise IndexError.
Proof.
  split; [split; [|repeat split; reflexivity]|split; vm_compute; reflexivity].
  exists ["1.0.0"; "2.0.0"]. split; [reflexivity|]. split; [right; now left | reflexivity].
Qed.

End priority_facts.

(** ** get_prerequisites: the evidence in template and substitution files *)

Module evidence_facts.

Import Re ReFacts StrFacts PatternFacts check_excludes check_excludes_facts.
Import get_prerequisites Selection Resolution Shapes greedy_facts.
Import selection_facts monad_facts version_facts.

#[local] Arguments mbind : simpl never.
#[local] Arguments lift : simpl never.
#[local] Arguments logger : simpl never.

Lemma member_In (x : string) (l : list string) : member x l = true <-> In x l.
Proof.
  unfold member. rewrite existsb_exists. split.
  - intros (y & Hy & Heq). apply String.eqb_eq in Heq as ->. exact Hy.
  - intros H. exists x. split; [exact H | apply String.eqb_refl].
Qed.

Lemma member_not_In (x : string) (l : list string) : member x l = false <-> ~ In x l.
Proof.
  rewrite <- member_In. destruct (member x l); split; intros H; try discriminate.
  - exfalso. now apply H.
  - reflexivity.
Qed.

(** *** Scanning only adds, and adds nothing of EPICS base *)

Lemma extends_refl (m : Matches) : extends m m.
Proof.
  split; [repeat split; reflexivity|]. split; intros x Hx; now left.
Qed.

Lemma extends_trans (m1 m2 m3 : Matches) : extends m1 m2 -> extends m2 m3 -> extends m1 m3.
Proof.
  intros [(Hh1 & Hr1 & Hd1 & Ht1) [Hbr1 Hbd1]] [(Hh2 & Hr2 & Hd2 & Ht2) [Hbr2 Hbd2]].
  split.
  { repeat split; [congruence | now transitivity (records m2)
                   | now transitivity (dtyps m2) | now transitivity (templates m2)]. }
  split.
  - intros r Hr. destruct (Hbr2 r Hr) as [H|H]; [now apply Hbr1 | now right].
  - intros d Hd. destruct (Hbd2 d Hd) as [H|H]; [now apply Hbd1 | now right].
Qed.

Lemma extends_add_record (m : Matches) (record : string) :
  ~ In record EPICS_BASE_RECORDS -> extends m (add_record m record).
Proof.
  intros Hbase. split; [repeat split; cbn; set_solver|]. split; cbn.
  - intros r Hr. apply elem_of_union in Hr as [Hr|Hr]; [|now left].
    apply elem_of_singleton in Hr as ->. now right.
  - intros d Hd. now left.
Qed.

Lemma extends_add_dtyp (m : Matches) (dtyp : string * string) :
  ~ In (snd dtyp) EPICS_BASE_DEVICESUPPORTS -> extends m (add_dtyp m dtyp).
Proof.
  intros Hbase. split; [repeat split; cbn; set_solver|]. split; cbn.
  - intros r Hr. now left.
  - intros d Hd. apply elem_of_union in Hd as [Hd|Hd]; [|now left].
    apply elem_of_singleton in Hd as ->. now right.
Qed.

Lemma extends_add_template (m : Matches) (template : string) :
  extends m (add_template m template).
Proof.
  split; [repeat split; cbn; set_solver|]. split; cbn; intros x Hx; now left.
Qed.

(** Group 1 of a match of a pattern that defines it. *)
Lemma group1_match (p : regex) (line : string) (mo : captures) :
  match_ p line = Some mo -> defines p 1 = true -> exists g, group1 mo = mret g.
Proof.
  intros Hm Hd. destruct (match_group p line mo 1 Hm Hd) as (g & Hg & _).
  exists g. unfold group1. now rewrite Hg.
Qed.

Lemma scan_record_extends (state : string * Matches) (line : string) :
  exists state', outcome (scan_record state line) = Ok state'
                 /\ extends (snd state) (snd state').
Proof.
  unfold scan_record. destruct (match_ pat_record line) as [mo|] eqn:Hm.
  - destruct (group1_match _ _ _ Hm eq_refl) as [g ->]. rewrite bind_ret.
    destruct (member g EPICS_BASE_RECORDS) eqn:Hbase; cbn [negb].
    + eexists. rewrite outcome_bind. cbn [outcome logger].
      split; [reflexivity | apply extends_refl].
    + eexists. split; [reflexivity|]. apply extends_add_record.
      now apply member_not_In.
  - exists state. split; [reflexivity | apply extends_refl].
Qed.

Lemma scan_dtyp_extends (state : string * Matches) (line : string) :
  exists state', outcome (scan_dtyp state line) = Ok state'
                 /\ extends (snd state) (snd state').
Proof.
  unfold scan_dtyp. destruct (match_ pat_dtyp line) as [mo|] eqn:Hm.
  - destruct (group1_match _ _ _ Hm eq_refl) as [g ->]. rewrite bind_ret.
    destruct (member g EPICS_BASE_DEVICESUPPORTS) eqn:Hbase; cbn [negb].
    + eexists. rewrite outcome_bind. cbn [outcome logger].
      split; [reflexivity | apply extends_refl].
    + eexists. split; [reflexivity|]. apply extends_add_dtyp.
      now apply member_not_In.
  - exists state. split; [reflexivity | apply extends_refl].
Qed.

Lemma scan_db_line_extends (state : string * Matches) (line : string) :
  exists state', outcome (scan_db_line state line) = Ok state'
                 /\ extends (snd state) (snd state').
Proof.
  unfold scan_db_line. rewrite outcome_bind.
  destruct (scan_record_extends state line) as (st1 & -> & H1).
  destruct (scan_dtyp_extends st1 line) as (st2 & -> & H2).
  exists st2. split; [reflexivity|]. now apply (extends_trans _ (snd st1)).
Qed.

Lemma scan_subs_line_extends (m : Matches) (line : string) :
  exists m', outcome (scan_subs_line m line) = Ok m' /\ extends m m'.
Proof.
  unfold scan_subs_line. destruct (match_ pat_file line) as [mo|] eqn:Hm.
  - destruct (group1_match _ _ _ Hm eq_refl) as [g ->]. rewrite bind_ret.
    eexists. split; [reflexivity | apply extends_add_template].
  - exists m. split; [reflexivity | apply extends_refl].
Qed.

(** A loop whose body returns and goes up in a preorder returns and goes
    up; and it ends in a state that satisfies [Q] when its body reaches
    such a state on one element of the list and [Q] is kept upwards. *)
Section Loops.

Context {A S : Type}.
Variable R : S -> S -> Prop.
Hypothesis R_refl : forall s, R s s.
Hypothesis R_trans : forall s1 s2 s3, R s1 s2 -> R s2 s3 -> R s1 s3.
Variable body : S -> A -> M S.
Hypothesis body_up : forall s x, exists s', outcome (body s x) = Ok s' /\ R s s'.

Lemma for_each_up (xs : list A) (acc : S) :
  exists s', outcome (for_each body xs acc) = Ok s' /\ R acc s'.
Proof.
  revert acc. induction xs as [|x xs IH]; intros acc; simpl.
  - exists acc. auto.
  - rewrite outcome_bind. destruct (body_up acc x) as (acc' & -> & Hacc').
    destruct (IH acc') as (s' & Hs' & Hup). exists s'. split; [exact Hs'|].
    now apply (R_trans _ acc').
Qed.

Lemma for_each_reaches (Q : S -> Prop) (x : A) (xs : list A) :
  (forall s s', outcome (body s x) = Ok s' -> Q s') ->
  (forall s s', R s s' -> Q s -> Q s') ->
  In x xs ->
  forall acc, exists s', outcome (for_each body xs acc) = Ok s' /\ R acc s' /\ Q s'.
Proof.
  intros Hx Hup. induction xs as [|y xs IH]; intros Hin acc; [destruct Hin|]. simpl.
  rewrite outcome_bind. destruct (body_up acc y) as (acc' & Hy & Hacc').
  rewrite Hy. destruct Hin as [->|Hin].
  - destruct (for_each_up xs acc') as (s' & Hs' & Hup').
    exists s'. split; [exact Hs'|]. split; [now apply (R_trans _ acc')|].
    apply (Hup acc'); [exact Hup' | now apply (Hx acc)].
  - destruct (IH Hin acc') as (s' & Hs' & Hup' & Hq).
    exists s'. split; [exact Hs'|]. split; [now apply (R_trans _ acc') | exact Hq].
Qed.

End Loops.

Section Scan.

Variable fs : FileSystem.

Lemma scan_lines_extends (lines : list string) (state : string * Matches) :
  exists state', outcome (for_each scan_db_line lines state) = Ok state'
                 /\ extends (snd state) (snd state').
Proof.
  apply (for_each_up (fun s s' : string * Matches => extends (snd s) (snd s'))).
  - intros s. apply extends_refl.
  - intros s1 s2 s3. apply extends_trans.
  - apply scan_db_line_extends.
Qed.

Lemma scan_dbfile_extends (m : Matches) (dbfile : string) :
  exists m', outcome (scan_dbfile fs m dbfile) = Ok m' /\ extends m m'.
Proof.
  unfold scan_dbfile, os.isfile, os.readlines.
  destruct (lookup_path fs dbfile) as [[lines|entries]|]; cbn [negb].
  - rewrite outcome_lift_bind, outcome_bind.
    destruct (scan_lines_extends lines ("", m)) as (st & -> & Hst).
    exists (snd st). split; [reflexivity | exact Hst].
  - exists m. rewrite outcome_bind. cbn [outcome logger].
    split; [reflexivity | apply extends_refl].
  - exists m. rewrite outcome_bind. cbn [outcome logger].
    split; [reflexivity | apply extends_refl].
Qed.

Lemma scan_subsfile_extends (m : Matches) (subsfile : string) :
  exists m', outcome (scan_subsfile fs m subsfile) = Ok m' /\ extends m m'.
Proof.
  unfold scan_subsfile, os.isfile, os.readlines.
  destruct (lookup_path fs subsfile) as [[lines|entries]|]; cbn [negb].
  - rewrite outcome_lift_bind.
    apply (for_each_up extends);
      [apply extends_refl | apply extends_trans | apply scan_subs_line_extends].
  - exists m. rewrite outcome_bind. cbn [outcome logger].
    split; [reflexivity | apply extends_refl].
  - exists m. rewrite outcome_bind. cbn [outcome logger].
    split; [reflexivity | apply extends_refl].
Qed.

Lemma scan_templates_up (files : Files) (m : Matches) :
  exists m', outcome (scan_templates fs files m) = Ok m' /\ extends m m'.
Proof.
  unfold scan_templates. rewrite outcome_bind.
  destruct (for_each_up extends extends_refl extends_trans (scan_dbfile fs)
              scan_dbfile_extends (db files) m) as (m1 & -> & H1).
  destruct (for_each_up extends extends_refl extends_trans (scan_subsfile fs)
              scan_subsfile_extends (subs files) m1) as (m2 & -> & H2).
  exists m2. split; [reflexivity|]. exact (extends_trans _ _ _ H1 H2).
Qed.

(** X18. The scan of the template and substitution files returns for every
    list of files and every file system (a file that does not exist is
    passed over, and a line that matches no pattern too); it leaves the
    headers as they are and removes no evidence; and what it adds is no
    record type and no device support of EPICS base. *)
Theorem scan_templates_extends (files : Files) (m : Matches) :
  exists m',
    outcome (scan_templates fs files m) = Ok m'
    /\ only_adds m m'
    /\ no_base_evidence m m'.
Proof.
  destruct (scan_templates_up files m) as (m' & Hout & Hext).
  exists m'. split; [exact Hout | exact Hext].
Qed.

(** *** A record type that a template uses is found in a database definition *)

Lemma star_class_none {A : Type} (whole : nat) (ranges : list (ascii * ascii))
    (fuel : nat) (s : string) (caps : captures) (k : @cont A) :
  starts_in ranges s = false ->
  star_loop (run whole (Class ranges)) fuel s caps k = k s caps.
Proof.
  intros Hs. destruct fuel as [|fuel]; [reflexivity|]. rewrite star_loop_S.
  destruct s as [|c s]; [reflexivity|]. rewrite run_Class_cons.
  cbn [starts_in] in Hs. now rewrite Hs.
Qed.

(** White space that is not there. *)
Lemma run_spaces_none {A : Type} (whole : nat) (r : regex) (s : string) (caps : captures)
    (k : @cont A) :
  starts_in space_class s = false ->
  run whole (spaces +++ r) s caps k = run whole r s caps k.
Proof.
  intros Hs. rewrite run_Cat. unfold spaces. rewrite run_Star.
  now rewrite star_class_none.
Qed.

Lemma run_lit {A : Type} (whole : nat) (c : ascii) (r : regex) (s : string)
    (caps : captures) (k : @cont A) :
  run whole (Lit c +++ r) (String c s) caps k = run whole r s caps k.
Proof. rewrite run_Cat, run_Lit_cons. now rewrite Ascii.eqb_refl. Qed.

(** An optional quote that is not there. *)
Lemma run_no_quote {A : Type} (whole : nat) (r : regex) (c : ascii) (s : string)
    (caps : captures) (k : @cont A) :
  Ascii.eqb c dquote = false ->
  run whole (Opt (Lit dquote) +++ r) (String c s) caps k
  = run whole r (String c s) caps k.
Proof. intros Hc. rewrite run_Cat, run_Opt, run_Lit_cons. now rewrite Hc. Qed.

Lemma record_class_no_quote (c : ascii) :
  in_class record_class c = true -> Ascii.eqb c dquote = false.
Proof.
  intros Hc. apply Ascii.eqb_neq. intros ->. discriminate Hc.
Qed.

(** The pattern of a record definition on a line [record(type,...]. *)
Lemma match_record_line (type rest : string) :
  all_in record_class type = true -> type <> "" ->
  match_ pat_record ("record(" +:+ type +:+ "," +:+ rest) = Some [(1%nat, type)].
Proof.
  intros Htype Hne. destruct type as [|c type]; [congruence|].
  cbn [all_in] in Htype. apply andb_true_iff in Htype as [Hc Htype].
  unfold match_, pat_record.
  change ("record(" +:+ String c type +:+ "," +:+ rest)
    with (String "r" (String "e" (String "c" (String "o" (String "r" (String "d"
           (String "(" (String c (type +:+ String "," rest)))))))))
    at 2.
  rewrite run_spaces_none by reflexivity.
  rewrite !run_lit. rewrite run_spaces_none by reflexivity.
  rewrite run_lit. rewrite run_spaces_none.
  2:{ cbn [starts_in]. destruct (in_class space_class c) eqn:Hs; [|reflexivity].
      exfalso. clear - Hc Hs. revert Hc Hs.
      unfold in_class, record_class, space_class, Str.in_range. cbn [existsb fst snd].
      change (nat_of_ascii "009") with 9%nat. change (nat_of_ascii "013") with 13%nat.
      change (nat_of_ascii " ") with 32%nat. change (nat_of_ascii "000") with 0%nat.
      change (nat_of_ascii "008") with 8%nat. change (nat_of_ascii "014") with 14%nat.
      change (nat_of_ascii "031") with 31%nat. change (nat_of_ascii "!") with 33%nat.
      change (nat_of_ascii "#") with 35%nat. change (nat_of_ascii "+") with 43%nat.
      change (nat_of_ascii "-") with 45%nat. change (nat_of_ascii "255") with 255%nat.
      generalize (nat_of_ascii c). intros n.
      rewrite !orb_true_iff, !andb_true_iff, !Nat.leb_le. lia. }
  rewrite (run_no_quote _ _ _ _ _ _ (record_class_no_quote c Hc)).
  rewrite run_Cat, run_Group, run_Cat, run_Class_cons, Hc, run_Star.
  rewrite star_class_greedy.
  - rewrite run_Lit_cons. change (Ascii.eqb "," ",") with true. cbv iota.
    change (String c (type +:+ String "," rest)) with (String c type +:+ String "," rest).
    now rewrite take_append.
  - exact Htype.
  - reflexivity.
  - left. rewrite run_Lit_cons. change (Ascii.eqb "," ",") with true. cbv iota. eauto.
  - rewrite length_append. lia.
Qed.

Lemma find_records_loop_found (dbd_file : string) (lines : list string) (record : string)
    (records : list string) :
  os.readlines fs dbd_file = Ok lines ->
  existsb (Str.contains ("recordtype(" +:+ record +:+ ")")) lines = true ->
  In record records ->
  outcome (find_records_loop fs dbd_file records) = Ok true.
Proof.
  intros Hlines Hfound. induction records as [|r records IH]; intros Hin; [destruct Hin|].
  cbn [find_records_loop]. rewrite outcome_bind. cbn [outcome logger].
  rewrite Hlines, outcome_lift_bind.
  destruct (existsb (Str.contains ("recordtype(" +:+ r +:+ ")")) lines) eqn:Hr.
  - rewrite outcome_bind. reflexivity.
  - destruct Hin as [->|Hin]; [congruence | now apply IH].
Qed.

(** X19. A record type that a template file of the module uses, and that is no
    record type of EPICS base, is found in the database definition that
    declares it: when a line of one of the files begins with
    [record(type,], the scan records the type, and [find_records] answers
    true for a database definition file with a line that holds
    [recordtype(type)]. The type is a text without white space, quote and
    comma, and the line has no white space in it up to the comma. *)
Theorem record_usage_detected (files : Files) (m : Matches) (dbfile : string)
    (before after : list string) (type rest : string)
    (dbd_file : string) (dbd_lines : list string) (dbd_line : string) :
  In dbfile (db files) ->
  lookup_path fs dbfile
  = Some (File (before ++ ("record(" +:+ type +:+ "," +:+ rest) :: after)) ->
  all_in record_class type = true ->
  type <> "" ->
  ~ In type EPICS_BASE_RECORDS ->
  lookup_path fs dbd_file = Some (File dbd_lines) ->
  In dbd_line dbd_lines ->
  Str.contains ("recordtype(" +:+ type +:+ ")") dbd_line = true ->
  exists m',
    outcome (scan_templates fs files m) = Ok m'
    /\ type ∈ records m'
    /\ outcome (find_records fs m' dbd_file) = Ok true.
Proof.
  intros Hdb Hfile Htype Hne Hbase Hdbd Hline Hcontains.
  assert (Hup : forall m1 m2 : Matches, extends m1 m2 -> type ∈ records m1 -> type ∈ records m2).
  { intros m1 m2 [(_ & Hr & _) _] H. now apply Hr. }
  (* the line *)
  assert (Hstep : forall s s',
            outcome (scan_db_line s ("record(" +:+ type +:+ "," +:+ rest)) = Ok s' ->
            type ∈ records (snd s')).
  { intros s s'. unfold scan_db_line. rewrite outcome_bind.
    unfold scan_record at 1. rewrite (match_record_line type rest Htype Hne).
    unfold group1. cbn [group Nat.eqb]. rewrite bind_ret.
    rewrite (proj2 (member_not_In type EPICS_BASE_RECORDS) Hbase). cbn [negb outcome mret M_mret M_ret].
    destruct (scan_dtyp_extends (type, add_record (snd s) type)
                ("record(" +:+ type +:+ "," +:+ rest)) as (st2 & Hst2 & Hext).
    rewrite Hst2. intros [= <-]. apply (Hup _ _ Hext). cbn.
    apply elem_of_union. left. now apply elem_of_singleton. }
  (* the file *)
  assert (Hfile' : forall m1 m2,
            outcome (scan_dbfile fs m1 dbfile) = Ok m2 -> type ∈ records m2).
  { intros m1 m2. unfold scan_dbfile, os.isfile, os.readlines. rewrite Hfile. cbn [negb].
    rewrite outcome_lift_bind, outcome_bind.
    destruct (for_each_reaches (fun s s' : string * Matches => extends (snd s) (snd s'))
                (fun s => extends_refl (snd s))
                (fun s1 s2 s3 => extends_trans (snd s1) (snd s2) (snd s3))
                scan_db_line scan_db_line_extends
                (fun s => type ∈ records (snd s))
                ("record(" +:+ type +:+ "," +:+ rest)
                (before ++ ("record(" +:+ type +:+ "," +:+ rest) :: after)
                Hstep (fun s s' => Hup (snd s) (snd s'))
                (in_elt _ _ _) ("", m1)) as (st & -> & _ & Hq).
    now intros [= <-]. }
  unfold scan_templates. rewrite outcome_bind.
  destruct (for_each_reaches extends extends_refl extends_trans (scan_dbfile fs)
              scan_dbfile_extends (fun m' => type ∈ records m') dbfile (db files)
              Hfile' Hup Hdb m) as (m1 & -> & _ & Hm1).
  destruct (for_each_up extends extends_refl extends_trans (scan_subsfile fs)
              scan_subsfile_extends (subs files) m1) as (m2 & -> & H2).
  exists m2. split; [reflexivity|]. pose proof (Hup _ _ H2 Hm1) as Hm2.
  split; [exact Hm2|]. unfold find_records.
  apply (find_records_loop_found dbd_file dbd_lines type).
  - unfold os.readlines. now rewrite Hdbd.
  - apply existsb_exists. now exists dbd_line.
  - now apply list_elem_of_In, elem_of_elements.
Qed.

(** *** A template that a substitution file names is found in a db directory *)

Lemma file_class_no_quote (c : ascii) :
  in_class file_class c = true -> Ascii.eqb c dquote = false.
Proof.
  intros Hc. apply Ascii.eqb_neq. intros ->. discriminate Hc.
Qed.

Lemma file_class_no_space (s : string) :
  starts_in file_class s = true -> starts_in space_class s = false.
Proof.
  destruct s as [|c s]; [discriminate|]. cbn [starts_in]. intros Hc.
  destruct (in_class space_class c) eqn:Hs; [|reflexivity].
  exfalso. revert Hc Hs.
  unfold in_class, file_class, space_class, Str.in_range. cbn [existsb fst snd].
  change (nat_of_ascii "009") with 9%nat. change (nat_of_ascii "013") with 13%nat.
  change (nat_of_ascii " ") with 32%nat. change (nat_of_ascii "000") with 0%nat.
  change (nat_of_ascii "008") with 8%nat. change (nat_of_ascii "014") with 14%nat.
  change (nat_of_ascii "031") with 31%nat. change (nat_of_ascii "!") with 33%nat.
  change (nat_of_ascii "#") with 35%nat. change (nat_of_ascii "255") with 255%nat.
  generalize (nat_of_ascii c). intros n.
  rewrite !orb_true_iff, !andb_true_iff, !Nat.leb_le. lia.
Qed.

(** An optional character at the end of a pattern. *)
Lemma run_opt_final (whole : nat) (c : ascii) (s : string) (caps : captures) :
  run whole (Opt (Lit c)) s caps (fun _ caps' => Some caps') = Some caps.
Proof.
  rewrite run_Opt. destruct s as [|x s]; [reflexivity|].
  rewrite run_Lit_cons. now destruct (Ascii.eqb x c).
Qed.

(** The name of the template and what follows it in the pattern of a file
    entry. *)
Lemma run_file_name (whole : nat) (template rest : string) (caps : captures) :
  all_in file_class template = true -> template <> "" ->
  starts_in file_class rest = false ->
  run whole (Group 1 (Class file_class +++ Star (Class file_class)) +++ Opt (Lit dquote))
    (template +:+ rest) caps (fun _ caps' => Some caps')
  = Some ((1%nat, template) :: caps).
Proof.
  intros Ht Hne Hrest. destruct template as [|c template]; [congruence|].
  cbn [all_in] in Ht. apply andb_true_iff in Ht as [Hc Ht].
  rewrite append_cons, run_Cat, run_Group, run_Cat, run_Class_cons, Hc, run_Star.
  rewrite star_class_greedy.
  - rewrite run_opt_final.
    change (String c (template +:+ rest)) with (String c template +:+ rest).
    now rewrite take_append.
  - exact Ht.
  - exact Hrest.
  - left. rewrite run_opt_final. eauto.
  - rewrite length_append. lia.
Qed.

(** The pattern of a file entry on a line [file name ...], the name with
    or without a quote before it. *)
Lemma match_file_line (open template rest : string) :
  open = "" \/ open = String dquote "" ->
  all_in file_class template = true -> template <> "" ->
  starts_in file_class rest = false ->
  match_ pat_file ("file " +:+ open +:+ template +:+ rest) = Some [(1%nat, template)].
Proof.
  intros Hopen Ht Hne Hrest.
  assert (Hname : forall whole,
            run whole (Opt (Lit dquote)
                       +++ Group 1 (Class file_class +++ Star (Class file_class))
                       +++ Opt (Lit dquote))
              (open +:+ template +:+ rest) [] (fun _ caps' => Some caps')
            = Some [(1%nat, template)]).
  { intros whole. destruct Hopen as [-> | ->].
    - rewrite append_nil. rewrite <- (run_file_name whole template rest [] Ht Hne Hrest).
      destruct template as [|c name]; [congruence|].
      rewrite append_cons. apply run_no_quote.
      cbn [all_in] in Ht. apply andb_true_iff in Ht as [Hc _].
      now apply file_class_no_quote.
    - rewrite append_cons, append_nil, run_Cat, run_Opt, run_Lit_cons, Ascii.eqb_refl.
      now rewrite (run_file_name _ template rest [] Ht Hne Hrest). }
  unfold match_, pat_file. rewrite run_Cat, run_Bol, Nat.eqb_refl.
  change ("file " +:+ open +:+ template +:+ rest)
    with (String "f" (String "i" (String "l" (String "e"
           (" " +:+ (open +:+ template +:+ rest))))))
    at 2.
  rewrite run_spaces_none by reflexivity. rewrite !run_lit.
  rewrite run_Cat. unfold spaces. rewrite run_Star, star_class_greedy.
  - apply Hname.
  - reflexivity.
  - destruct Hopen as [-> | ->]; [|reflexivity]. rewrite append_nil.
    apply file_class_no_space. destruct template as [|c template]; [congruence|].
    rewrite append_cons. cbn [starts_in all_in] in *.
    now apply andb_true_iff in Ht as [Hc _].
  - left. rewrite Hname. eauto.
  - rewrite length_append. simpl. lia.
Qed.

Lemma find_templates_loop_found (db_dir : string) (entries : list string)
    (template : string) (templates : list string) :
  os.listdir fs db_dir = Ok entries ->
  In template entries ->
  In template templates ->
  outcome (find_templates_loop fs db_dir templates) = Ok true.
Proof.
  intros Hdir Hfound. induction templates as [|t templates IH]; intros Hin; [destruct Hin|].
  cbn [find_templates_loop]. rewrite outcome_bind. cbn [outcome logger].
  rewrite Hdir, outcome_lift_bind.
  destruct (member t entries) eqn:Ht.
  - rewrite outcome_bind. reflexivity.
  - destruct Hin as [->|Hin]; [|now apply IH].
    apply member_not_In in Ht. contradiction.
Qed.

(** X20. A template that a substitution file of the module names is found in
    the db directory that holds it: when a line of one of the substitution
    files is [file name ...], with or without a quote before the name, the
    scan records the name, and [find_templates] answers true for a
    directory with an entry of that name. The name is a text without white
    space and quote, and what follows it begins with white space or a
    quote, or the line ends there. *)
Theorem template_usage_detected (files : Files) (m : Matches) (subsfile : string)
    (before after : list string) (open template rest : string)
    (db_dir : string) (entries : list string) :
  In subsfile (subs files) ->
  lookup_path fs subsfile
  = Some (File (before ++ ("file " +:+ open +:+ template +:+ rest) :: after)) ->
  open = "" \/ open = String dquote "" ->
  all_in file_class template = true ->
  template <> "" ->
  starts_in file_class rest = false ->
  lookup_path fs db_dir = Some (Dir entries) ->
  In template entries ->
  exists m',
    outcome (scan_templates fs files m) = Ok m'
    /\ template ∈ templates m'
    /\ outcome (find_templates fs m' db_dir) = Ok true.
Proof.
  intros Hsubs Hfile Hopen Ht Hne Hrest Hdir Hentry.
  assert (Hup : forall m1 m2 : Matches,
            extends m1 m2 -> template ∈ templates m1 -> template ∈ templates m2).
  { intros m1 m2 [(_ & _ & _ & Htm) _] H. now apply Htm. }
  assert (Hstep : forall s s',
            outcome (scan_subs_line s ("file " +:+ open +:+ template +:+ rest)) = Ok s' ->
            template ∈ templates s').
  { intros s s'. unfold scan_subs_line.
    rewrite (match_file_line open template rest Hopen Ht Hne Hrest).
    unfold group1. cbn [group Nat.eqb]. rewrite bind_ret. intros [= <-]. cbn.
    apply elem_of_union. left. now apply elem_of_singleton. }
  assert (Hfile' : forall m1 m2,
            outcome (scan_subsfile fs m1 subsfile) = Ok m2 -> template ∈ templates m2).
  { intros m1 m2. unfold scan_subsfile, os.isfile, os.readlines. rewrite Hfile. cbn [negb].
    rewrite outcome_lift_bind.
    destruct (for_each_reaches extends extends_refl extends_trans
                scan_subs_line scan_subs_line_extends
                (fun s => template ∈ templates s)
                ("file " +:+ open +:+ template +:+ rest)
                (before ++ ("file " +:+ open +:+ template +:+ rest) :: after)
                Hstep Hup (in_elt _ _ _) m1) as (st & -> & _ & Hq).
    now intros [= <-]. }
  unfold scan_templates. rewrite outcome_bind.
  destruct (for_each_up extends extends_refl extends_trans (scan_dbfile fs)
              scan_dbfile_extends (db files) m) as (m1 & -> & H1).
  destruct (for_each_reaches extends extends_refl extends_trans (scan_subsfile fs)
              scan_subsfile_extends (fun m' => template ∈ templates m') subsfile
              (subs files) Hfile' Hup Hsubs m1) as (m2 & -> & _ & Hm2).
  exists m2. split; [reflexivity|]. split; [exact Hm2|]. unfold find_templates.
  apply (find_templates_loop_found db_dir entries template).
  - unfold os.listdir. now rewrite Hdir.
  - exact Hentry.
  - now apply list_elem_of_In, elem_of_elements.
Qed.

End Scan.

Lemma record_usage_detected_witness :
  (In "axis.template" (db Fixture.sources)
   /\ lookup_path Fixture.fs_sources "axis.template"
      = Some (File (["# one axis" +:+ nl]
                    ++ ("record(" +:+ "motor" +:+ "," +:+ "$(P)$(M)) {" +:+ nl)
                       :: ["}" +:+ nl]))
   /\ all_in record_class "motor" = true
   /\ lookup_path Fixture.fs_sources "/mods/motor/7.0.1/3.15/dbd/motor.dbd"
      = Some (File ["recordtype(motor) {" +:+ nl])
   /\ Str.contains ("recordtype(" +:+ "motor" +:+ ")") ("recordtype(motor) {" +:+ nl) = true)
  /\ exists m',
       outcome (scan_templates Fixture.fs_sources Fixture.sources empty_matches) = Ok m'
       /\ "motor" ∈ records m'
       /\ outcome (find_records Fixture.fs_sources m' "/mods/motor/7.0.1/3.15/dbd/motor.dbd")
          = Ok true.
Proof.
  split; [repeat split; try reflexivity; now left|].
  apply (record_usage_detected Fixture.fs_sources Fixture.sources empty_matches
           "axis.template" ["# one axis" +:+ nl] ["}" +:+ nl] "motor" ("$(P)$(M)) {" +:+ nl)
           "/mods/motor/7.0.1/3.15/dbd/motor.dbd" ["recordtype(motor) {" +:+ nl]
           ("recordtype(motor) {" +:+ nl)).
  - now left.
  - reflexivity.
  - reflexivity.
  - discriminate.
  - intros H. apply member_In in H. discriminate H.
  - reflexivity.
  - now left.
  - reflexivity.
Defined.

Lemma template_usage_detected_witness :
  (In "axis.substitutions" (subs Fixture.sources)
   /\ lookup_path Fixture.fs_sources "axis.substitutions"
      = Some (File ([] ++ ("file " +:+ "" +:+ "basic_motor.template" +:+ (" {" +:+ nl))
                          :: ["}" +:+ nl]))
   /\ all_in file_class "basic_motor.template" = true
   /\ starts_in file_class (" {" +:+ nl) = false
   /\ lookup_path Fixture.fs_sources "/mods/motor/7.0.1/db"
      = Some (Dir ["basic_motor.template"; "README"]))
  /\ exists m',
       outcome (scan_templates Fixture.fs_sources Fixture.sources empty_matches) = Ok m'
       /\ "basic_motor.template" ∈ templates m'
       /\ outcome (find_templates Fixture.fs_sources m' "/mods/motor/7.0.1/db") = Ok true.
Proof.
  split; [repeat split; try reflexivity; now left|].
  apply (template_usage_detected Fixture.fs_sources Fixture.sources empty_matches
           "axis.substitutions" [] ["}" +:+ nl] "" "basic_motor.template" (" {" +:+ nl)
           "/mods/motor/7.0.1/db" ["basic_motor.template"; "README"]).
  - now left.
  - reflexivity.
  - now left.
  - reflexivity.
  - discriminate.
  - reflexivity.
  - reflexivity.
  - now left.
Defined.

End evidence_facts.

(** ** get_prerequisites: the search for evidence returns, and what it logs *)

Module search_facts.

Import StrFacts check_excludes check_excludes_facts.
Import get_prerequisites Selection Resolution selection_facts monad_facts.
Import evidence_facts.

#[local] Arguments mbind : simpl never.
#[local] Arguments lift : simpl never.
#[local] Arguments logger : simpl never.

Lemma logger_evidence {A : Type} (lvl : level) (format : string) (args : list string)
    (m : M A) :
  In format evidence_formats ->
  Forall evidence_record (log m) ->
  Forall evidence_record (log (logger lvl format args ;; m)).
Proof.
  intros Hformat Hm. rewrite log_logger_bind. now constructor.
Qed.

Lemma group1_log (mo : Re.captures) : log (group1 mo) = [].
Proof. unfold group1. now destruct (Re.group mo 1). Qed.

Lemma scan_record_log (state : string * Matches) (line : string) :
  Forall evidence_record (log (scan_record state line)).
Proof.
  unfold scan_record. destruct (Re.match_ pat_record line) as [mo|]; [|constructor].
  apply log_bind_all; [rewrite group1_log; constructor|]. intros record _.
  destruct (negb (member record EPICS_BASE_RECORDS)); [constructor|].
  apply logger_evidence; [cbn; tauto | constructor].
Qed.

Lemma scan_dtyp_log (state : string * Matches) (line : string) :
  Forall evidence_record (log (scan_dtyp state line)).
Proof.
  unfold scan_dtyp. destruct (Re.match_ pat_dtyp line) as [mo|]; [|constructor].
  apply log_bind_all; [rewrite group1_log; constructor|]. intros dtyp _.
  destruct (negb (member dtyp EPICS_BASE_DEVICESUPPORTS)); [constructor|].
  apply logger_evidence; [cbn; tauto | constructor].
Qed.

Lemma scan_subs_line_log (m : Matches) (line : string) : log (scan_subs_line m line) = [].
Proof.
  unfold scan_subs_line. destruct (Re.match_ pat_file line) as [mo|]; [|reflexivity].
  rewrite log_bind, group1_log. now destruct (outcome (group1 mo)).
Qed.

Section Search.

Variable fs : FileSystem.

(** *** The three loops over the sources *)

Lemma scan_depfile_returns (m : Matches) (dfile : string) :
  exists m', outcome (scan_depfile fs m dfile) = Ok m'.
Proof.
  unfold scan_depfile, os.isfile, os.readlines.
  destruct (lookup_path fs dfile) as [[lines|entries]|]; cbn [negb].
  - rewrite outcome_lift_bind. now eexists.
  - rewrite outcome_logger_bind. now eexists.
  - rewrite outcome_logger_bind. now eexists.
Qed.

(** The three loops run to their end, whatever the files hold. *)
Lemma scan_sources_returns (files : Files) (m : Matches) :
  exists m', outcome (scan_sources fs files m) = Ok m'.
Proof.
  unfold scan_sources. rewrite outcome_bind.
  destruct (for_each_returns (fun _ => True) (scan_depfile fs) (dep files)
              (fun s x _ => match scan_depfile_returns s x with
                            | ex_intro _ s' H => ex_intro _ s' (conj H I)
                            end) m I) as (m1 & -> & _).
  destruct (scan_templates_up fs files m1) as (m2 & H2 & _). now exists m2.
Qed.

Lemma scan_depfile_log (m : Matches) (dfile : string) :
  Forall evidence_record (log (scan_depfile fs m dfile)).
Proof.
  unfold scan_depfile. destruct (negb (os.isfile fs dfile)).
  - apply logger_evidence; [cbn; tauto | constructor].
  - rewrite log_lift_bind. destruct (os.readlines fs dfile); constructor.
Qed.

Lemma scan_dbfile_log (m : Matches) (dbfile : string) :
  Forall evidence_record (log (scan_dbfile fs m dbfile)).
Proof.
  unfold scan_dbfile. destruct (negb (os.isfile fs dbfile)).
  - apply logger_evidence; [cbn; tauto | constructor].
  - rewrite log_lift_bind. destruct (os.readlines fs dbfile) as [lines|e]; [|constructor].
    apply log_bind_all; [|constructor].
    apply for_each_log_all. intros s line. unfold scan_db_line.
    apply log_bind_all; [apply scan_record_log|]. intros s' _. apply scan_dtyp_log.
Qed.

Lemma scan_subsfile_log (m : Matches) (subsfile : string) :
  Forall evidence_record (log (scan_subsfile fs m subsfile)).
Proof.
  unfold scan_subsfile. destruct (negb (os.isfile fs subsfile)).
  - apply logger_evidence; [cbn; tauto | constructor].
  - rewrite log_lift_bind. destruct (os.readlines fs subsfile) as [lines|e]; [|constructor].
    apply for_each_log_all. intros s line. rewrite scan_subs_line_log. constructor.
Qed.

(** All that the three loops write are messages of the search for
    evidence. *)
Lemma scan_sources_log (files : Files) (m : Matches) :
  Forall evidence_record (log (scan_sources fs files m)).
Proof.
  unfold scan_sources, scan_templates.
  apply log_bind_all; [apply for_each_log_all; intros; apply scan_depfile_log|].
  intros m1 _.
  apply log_bind_all; [apply for_each_log_all; intros; apply scan_dbfile_log|].
  intros m2 _. apply for_each_log_all. intros. apply scan_subsfile_log.
Qed.

(** *** The four [find_*] methods *)

Lemma find_headers_loop_returns (common_dir : string) (headers : list string) :
  exists b, outcome (find_headers_loop fs common_dir headers) = Ok b.
Proof.
  induction headers as [|header rest IH]; cbn [find_headers_loop]; [now eexists|].
  rewrite outcome_logger_bind.
  destruct (existsb _ _); [|exact IH]. rewrite outcome_logger_bind. now eexists.
Qed.

Lemma find_records_loop_returns (dbd_file : string) (records : list string) :
  os.isfile fs dbd_file = true ->
  exists b, outcome (find_records_loop fs dbd_file records) = Ok b.
Proof.
  intros Hfile. unfold os.isfile in Hfile.
  induction records as [|record rest IH]; cbn [find_records_loop]; [now eexists|].
  rewrite outcome_logger_bind, outcome_lift_bind. unfold os.readlines.
  destruct (lookup_path fs dbd_file) as [[lines|entries]|]; try discriminate.
  destruct (existsb _ _); [|exact IH]. rewrite outcome_logger_bind. now eexists.
Qed.

Lemma find_templates_loop_returns (db_dir : string) (templates : list string) :
  os.isdir fs db_dir = true ->
  exists b, outcome (find_templates_loop fs db_dir templates) = Ok b.
Proof.
  intros Hdir. unfold os.isdir in Hdir.
  induction templates as [|template rest IH]; cbn [find_templates_loop]; [now eexists|].
  rewrite outcome_logger_bind, outcome_lift_bind. unfold os.listdir.
  destruct (lookup_path fs db_dir) as [[lines|entries]|]; try discriminate.
  destruct (member template entries); [|exact IH]. rewrite outcome_logger_bind. now eexists.
Qed.

Lemma find_headers_log (m : Matches) (common_dir : string) :
  Forall evidence_record (log (find_headers fs m common_dir)).
Proof.
  unfold find_headers. induction (elements (headers m)) as [|header rest IH]; cbn [find_headers_loop].
  - constructor.
  - apply logger_evidence; [cbn; tauto|].
    destruct (existsb _ _); [|exact IH].
    apply logger_evidence; [cbn; tauto | constructor].
Qed.

Lemma find_records_log (m : Matches) (dbd_file : string) :
  Forall evidence_record (log (find_records fs m dbd_file)).
Proof.
  unfold find_records. induction (elements (records m)) as [|record rest IH]; cbn [find_records_loop].
  - constructor.
  - apply logger_evidence; [cbn; tauto|]. rewrite log_lift_bind.
    destruct (os.readlines fs dbd_file) as [lines|e]; [|constructor].
    destruct (existsb _ _); [|exact IH].
    apply logger_evidence; [cbn; tauto | constructor].
Qed.

Lemma find_templates_log (m : Matches) (db_dir : string) :
  Forall evidence_record (log (find_templates fs m db_dir)).
Proof.
  unfold find_templates. induction (elements (templates m)) as [|template rest IH]; cbn [find_templates_loop].
  - constructor.
  - apply logger_evidence; [cbn; tauto|]. rewrite log_lift_bind.
    destruct (os.listdir fs db_dir) as [entries|e]; [|constructor].
    destruct (member template entries); [|exact IH].
    apply logger_evidence; [cbn; tauto | constructor].
Qed.

(** *** The device supports *)

Variable device_line : string * string -> string -> result bool.

Abbreviation find_dtyps := (find_dtyps fs device_line).
Abbreviation has_evidence := (has_evidence fs device_line).

Lemma any_device_line_returns (dtyp : string * string) (lines : list string) :
  (forall d line, exists b, device_line d line = Ok b) ->
  exists b, any_device_line device_line dtyp lines = Ok b.
Proof.
  intros Hdevice. induction lines as [|line rest IH]; cbn [any_device_line]; [now eexists|].
  destruct (Hdevice dtyp line) as [[|] ->]; rewrite rbind_Ok; [now eexists | exact IH].
Qed.

Lemma find_dtyps_loop_returns (dbd_file : string) (dtyps : list (string * string)) :
  (forall d line, exists b, device_line d line = Ok b) ->
  os.isfile fs dbd_file = true ->
  exists b, outcome (find_dtyps_loop fs device_line dbd_file dtyps) = Ok b.
Proof.
  intros Hdevice Hfile. unfold os.isfile in Hfile.
  induction dtyps as [|dtyp rest IH]; cbn [find_dtyps_loop]; [now eexists|].
  rewrite outcome_logger_bind, outcome_lift_bind. unfold os.readlines.
  destruct (lookup_path fs dbd_file) as [[lines|entries]|]; try discriminate.
  rewrite outcome_lift_bind.
  destruct (any_device_line_returns dtyp lines Hdevice) as [[|] ->]; [|exact IH].
  rewrite outcome_logger_bind. now eexists.
Qed.

Lemma find_dtyps_log (m : Matches) (dbd_file : string) :
  Forall evidence_record (log (find_dtyps m dbd_file)).
Proof.
  unfold get_prerequisites.find_dtyps.
  induction (elements (dtyps m)) as [|dtyp rest IH]; cbn [find_dtyps_loop].
  - constructor.
  - apply logger_evidence; [cbn; tauto|]. rewrite log_lift_bind.
    destruct (os.readlines fs dbd_file) as [lines|e]; [|constructor].
    rewrite log_lift_bind.
    destruct (any_device_line device_line dtyp lines) as [[|]|e]; [| exact IH | constructor].
    apply logger_evidence; [cbn; tauto | constructor].
Qed.

(** *** The tests on one version of an installed module *)

Lemma has_evidence_log (self : DependencyResolver) (m path version : string) :
  Forall evidence_record (log (has_evidence self m path version)).
Proof.
  unfold get_prerequisites.has_evidence.
  apply log_bind_all.
  { destruct (os.isdir fs _); [apply find_headers_log | constructor]. }
  intros [|] _; [constructor|].
  apply log_bind_all.
  { destruct (os.isfile fs _); [apply find_records_log | constructor]. }
  intros [|] _; [constructor|].
  apply log_bind_all.
  { destruct (os.isfile fs _); [apply find_dtyps_log | constructor]. }
  intros [|] _; [constructor|].
  destruct (os.isdir fs _); [apply find_templates_log | constructor].
Qed.

(** The tests return when the trial of a device pattern does. *)
Lemma has_evidence_returns (self : DependencyResolver) (m path version : string) :
  (forall d line, exists b, device_line d line = Ok b) ->
  exists b, outcome (has_evidence self m path version) = Ok b.
Proof.
  intros Hdevice. unfold get_prerequisites.has_evidence.
  set (hdr := os.join path [version; _eb_version self; "include"]).
  set (dbd := os.join path [version; _eb_version self; "dbd"; m +:+ ".dbd"]).
  set (dbdir := os.join path [version; "db"]).
  assert (Hh : exists b, outcome (if os.isdir fs hdr then find_headers fs (_matches self) hdr
                                  else mret false) = Ok b).
  { destruct (os.isdir fs hdr); [apply find_headers_loop_returns | now exists false]. }
  rewrite outcome_bind. destruct Hh as [[|] ->]; [now exists true|].
  assert (Hr : exists b, outcome (if os.isfile fs dbd then find_records fs (_matches self) dbd
                                  else mret false) = Ok b).
  { destruct (os.isfile fs dbd) eqn:Hf;
      [now apply find_records_loop_returns | now exists false]. }
  rewrite outcome_bind. destruct Hr as [[|] ->]; [now exists true|].
  assert (Hd : exists b, outcome (if os.isfile fs dbd then find_dtyps (_matches self) dbd
                                  else mret false) = Ok b).
  { destruct (os.isfile fs dbd) eqn:Hf;
      [now apply find_dtyps_loop_returns | now exists false]. }
  rewrite outcome_bind. destruct Hd as [[|] ->]; [now exists true|].
  destruct (os.isdir fs dbdir) eqn:Hdir;
    [now apply find_templates_loop_returns | now exists false].
Qed.

End Search.

(** A message of the search for evidence is none of the detection. *)
Lemma evidence_not_detection (m : string) (r : log_record) :
  evidence_record r -> ~ detection_of m r.
Proof.
  unfold evidence_record, evidence_formats, detection_of, detection_formats.
  intros He [Hd _]. cbn [In] in He, Hd.
  repeat (destruct He as [He|He]; [rewrite <- He in Hd; clear He; intuition discriminate|]).
  exact He.
Qed.

End search_facts.

(** ** get_prerequisites: the resolver *)

Module resolver_facts.

Import StrFacts check_excludes check_excludes_facts.
Import get_prerequisites Selection Resolution selection_facts monad_facts.
Import version_facts search_facts.

#[local] Arguments mbind : simpl never.
#[local] Arguments lift : simpl never.
#[local] Arguments logger : simpl never.

Section Resolver.

Variable fs : FileSystem.
Variable env : Environ.
Variable device_line : string * string -> string -> result bool.

Abbreviation add_dependency := (add_dependency fs env).
Abbreviation has_evidence := (has_evidence fs device_line).
Abbreviation scan_versions := (scan_versions fs env device_line).
Abbreviation resolve_module := (resolve_module fs env device_line).
Abbreviation resolve := (resolve fs env device_line).

(** A record that the loop over the installed modules may write while it is
    at module [m]: a record of the detection about [m], or a record of the
    search for evidence. *)
Abbreviation written_at m :=
  (fun r : log_record => detection_of m r \/ evidence_record r).

(** *** What the log of [module_version] speaks of *)

Lemma module_version_log (module comp_version eb_version ta : string) :
  Forall (detection_of module)
    (log (module_version fs env module comp_version eb_version ta)).
Proof.
  destruct (lookup_cases fs module (arch_default_file env eb_version ta)) as [d1 H1].
  unfold module_version. rewrite H1, log_lift_bind.
  destruct d1 as [d1|e]; [|constructor].
  destruct (Str.truthy d1); [constructor|].
  destruct (lookup_cases fs module (epics_default_file env eb_version)) as [d2 H2].
  rewrite H2, log_lift_bind.
  destruct d2 as [d2|e]; [|constructor].
  destruct (Str.truthy d2); [constructor|].
  rewrite log_lift_bind. destruct (installed_versions _ _ _ _ _) as [versions|e]; [|constructor].
  set (found := if decide (versions = ∅) then _ else _).
  assert (Hfound : log found = []).
  { subst found. destruct (decide (versions = ∅)); [reflexivity|].
    rewrite log_lift_bind. now destruct (sorted_by_module_key _). }
  rewrite log_bind, Hfound. destruct (outcome found) as [[v|]|e]; try constructor.
  - split; [cbn; tauto | reflexivity].
  - constructor.
Qed.

(** *** [depends_on] and [add_dependency] *)

Lemma depends_on_spec (self : DependencyResolver) (m : string) :
  depends_on self m = true <-> exists v, (m, v) ∈ _dependencies self.
Proof.
  unfold depends_on. rewrite existsb_exists. split.
  - intros ([m' v] & Hin & Heq). simpl in Heq. apply String.eqb_eq in Heq as ->.
    exists v. now apply elem_of_elements, list_elem_of_In.
  - intros [v Hv]. exists (m, v). split; [|apply String.eqb_refl].
    now apply list_elem_of_In, elem_of_elements.
Qed.

Lemma add_dependency_adds (self self' : DependencyResolver) (m : string) :
  outcome (add_dependency self m) = Ok self' -> adds m self self'.
Proof.
  unfold get_prerequisites.add_dependency.
  destruct (existsb _ _) eqn:Hud.
  - intros [= <-]. now left.
  - rewrite outcome_bind.
    destruct (outcome (module_version _ _ _ _ _ _)) as [v|e]; [|discriminate].
    rewrite outcome_bind. cbn [outcome logger]. intros [= <-].
    right. split; [|now exists v].
    intros Hin. apply not_true_iff_false in Hud. apply Hud.
    apply existsb_exists. exists m. split; [exact Hin | apply String.eqb_refl].
Qed.

Lemma add_dependency_log (self : DependencyResolver) (m : string) :
  Forall (detection_of m) (log (add_dependency self m)).
Proof.
  unfold get_prerequisites.add_dependency.
  destruct (existsb _ _); [constructor|].
  apply log_bind_all; [apply module_version_log|]. intros v _.
  rewrite log_logger_bind.
  constructor; [split; [cbn; tauto | reflexivity] | constructor].
Qed.

(** *** The scan of one installed module *)

Lemma scan_versions_adds (self self' : DependencyResolver) (m path : string)
    (versions : list string) :
  outcome (scan_versions self m path versions) = Ok self' -> adds m self self'.
Proof.
  induction versions as [|version rest IH]; cbn [get_prerequisites.scan_versions].
  - intros [= <-]. now left.
  - destruct (negb (os.isdir fs _)); [exact IH|].
    destruct (negb (is_strict_version version)).
    + rewrite outcome_logger_bind. exact IH.
    + rewrite outcome_logger_bind, outcome_bind.
      destruct (outcome (has_evidence _ _ _ _)) as [[|]|e]; [| exact IH | discriminate].
      apply add_dependency_adds.
Qed.

Lemma scan_versions_log (self : DependencyResolver) (m path : string)
    (versions : list string) :
  Forall (written_at m) (log (scan_versions self m path versions)).
Proof.
  induction versions as [|version rest IH]; cbn [get_prerequisites.scan_versions].
  - constructor.
  - destruct (negb (os.isdir fs _)); [exact IH|].
    destruct (negb (is_strict_version version)).
    + rewrite log_logger_bind. constructor; [|exact IH]. left.
      split; [cbn; tauto | reflexivity].
    + rewrite log_logger_bind. constructor; [left; split; [cbn; tauto | reflexivity]|].
      apply log_bind_all.
      * eapply Forall_impl; [apply has_evidence_log|]. intros r Hr. now right.
      * intros [|] _; [|exact IH].
        eapply Forall_impl; [apply add_dependency_log|]. intros r Hr. now left.
Qed.

(** A module that the resolver already depends on is passed over: no test,
    no record in the log, no change. *)
Lemma resolve_module_known (self : DependencyResolver) (m : string) :
  depends_on self m = true -> resolve_module self m = mret self.
Proof.
  intros H. unfold get_prerequisites.resolve_module. rewrite H.
  now destruct (String.eqb m (_name self)).
Qed.

Lemma resolve_module_adds (self self' : DependencyResolver) (m : string) :
  outcome (resolve_module self m) = Ok self' ->
  self' = self \/ (depends_on self m = false /\ adds m self self').
Proof.
  unfold get_prerequisites.resolve_module.
  destruct (String.eqb m (_name self)); [intros [= <-]; now left|].
  destruct (depends_on self m) eqn:Hdep; [intros [= <-]; now left|].
  destruct (negb (os.isdir fs _) || islink fs _); [intros [= <-]; now left|].
  rewrite outcome_lift_bind.
  destruct (os.listdir fs _) as [versions|e]; [|discriminate].
  intros H. right. split; [reflexivity|]. now apply scan_versions_adds in H.
Qed.

Lemma resolve_module_log (self : DependencyResolver) (m : string) :
  Forall (written_at m) (log (resolve_module self m)).
Proof.
  unfold get_prerequisites.resolve_module.
  destruct (String.eqb m (_name self)); [constructor|].
  destruct (depends_on self m); [constructor|].
  destruct (negb (os.isdir fs _) || islink fs _); [constructor|].
  rewrite log_lift_bind.
  destruct (os.listdir fs _) as [versions|e]; [|constructor].
  apply scan_versions_log.
Qed.

(** *** The loop over the installed modules *)

(** [resolve] is its three loops over the sources, which change the
    evidence of the resolver and nothing else, and the loop over the
    installed modules. *)
Lemma resolve_outcome (self self' : DependencyResolver) :
  outcome (resolve self) = Ok self' ->
  exists matches installed,
    outcome (scan_sources fs (_files self) (_matches self)) = Ok matches
    /\ os.listdir fs (_prefix self) = Ok installed
    /\ outcome (for_each resolve_module installed (set_matches self matches)) = Ok self'.
Proof.
  unfold get_prerequisites.resolve. rewrite outcome_bind.
  destruct (outcome (scan_sources fs _ _)) as [matches|e]; [|discriminate].
  rewrite outcome_lift_bind. cbn [_prefix set_matches].
  destruct (os.listdir fs (_prefix self)) as [installed|e]; [|discriminate].
  intros H. now exists matches, installed.
Qed.

(** An invariant of the loop over the installed modules, which holds of
    the resolver whatever its evidence is, holds of what [resolve]
    leaves. *)
Lemma resolve_invariant_deps (P : DependencyResolver -> Prop)
    (self self' : DependencyResolver) :
  (forall s x s', P s -> outcome (resolve_module s x) = Ok s' -> P s') ->
  (forall matches, P (set_matches self matches)) ->
  outcome (resolve self) = Ok self' -> P self'.
Proof.
  intros Hstep Hself H. apply resolve_outcome in H as (matches & installed & _ & _ & H).
  exact (for_each_invariant P resolve_module installed Hstep _ _ (Hself matches) H).
Qed.

(** *** Names stay unique *)

Lemma unique_names_add (deps : gset dependency) (m : string) (v : option string) :
  unique_names deps -> (forall v', (m, v') ∉ deps) ->
  unique_names ({[ (m, v) ]} ∪ deps).
Proof.
  intros Hu Hm m' v1 v2 H1 H2.
  apply elem_of_union in H1 as [H1|H1], H2 as [H2|H2].
  - apply elem_of_singleton in H1, H2. congruence.
  - apply elem_of_singleton in H1. injection H1 as -> ->. now apply Hm in H2.
  - apply elem_of_singleton in H2. injection H2 as -> ->. now apply Hm in H1.
  - exact (Hu m' v1 v2 H1 H2).
Qed.

Lemma resolve_module_unique (self self' : DependencyResolver) (m : string) :
  unique_names (_dependencies self) ->
  outcome (resolve_module self m) = Ok self' ->
  unique_names (_dependencies self').
Proof.
  intros Hu H. apply resolve_module_adds in H as [->|[Hdep [->|(_ & v & ->)]]]; auto.
  simpl. apply unique_names_add; [exact Hu|].
  intros v' Hv'. apply not_true_iff_false in Hdep. apply Hdep.
  apply depends_on_spec. now exists v'.
Qed.

Lemma resolve_unique (self self' : DependencyResolver) :
  unique_names (_dependencies self) ->
  outcome (resolve self) = Ok self' ->
  unique_names (_dependencies self').
Proof.
  intros Hu. apply (resolve_invariant_deps (fun s => unique_names (_dependencies s))).
  - intros s x s' Hs Hx. exact (resolve_module_unique s s' x Hs Hx).
  - intros matches. exact Hu.
Qed.

(** *** The dependencies [__init__] records *)

Abbreviation override_version := (override_version fs env).

Lemma init_loop_spec (name eb_version ta : string) (ud : list string) :
  forall deps deps',
    outcome (init_loop fs env name eb_version ta ud deps) = Ok deps' ->
    forall d,
      d ∈ deps' <->
      d ∈ deps
      \/ exists u, In u ud /\ fst d = override_name u /\ fst d <> name
                   /\ outcome (override_version eb_version ta u) = Ok (snd d).
Proof.
  induction ud as [|u ud IH]; intros deps deps' H d; simpl in H.
  - injection H as <-. split; [now left|]. intros [Hd|(u & [] & _)]. exact Hd.
  - rewrite outcome_bind in H.
    destruct (outcome (override_version eb_version ta u)) as [mv|e] eqn:Hmv; [|discriminate].
    rewrite outcome_bind in H.
    assert (Hwarn : outcome (if has_unsupported_char (override_name u)
                             then logger WARNING "Library {} contains unsupported characters"
                                    [override_name u]
                             else mret ()) = Ok tt)
      by now destruct (has_unsupported_char _).
    rewrite Hwarn in H.
    destruct (String.eqb_spec (override_name u) name) as [Hname|Hname].
    + rewrite (IH _ _ H d). split.
      * intros [Hd|(u' & Hin & Hrest)]; [now left|]. right. exists u'. split; [now right | exact Hrest].
      * intros [Hd|(u' & [<-|Hin] & Hfst & Hne & Hout)]; [now left | | ].
        -- congruence.
        -- right. now exists u'.
    + rewrite (IH _ _ H d). rewrite elem_of_union, elem_of_singleton. split.
      * intros [[->|Hd]|(u' & Hin & Hrest)].
        -- right. exists u. simpl. auto.
        -- now left.
        -- right. exists u'. split; [now right | exact Hrest].
      * intros [Hd|(u' & [<-|Hin] & Hfst & Hne & Hout)].
        -- left. now right.
        -- left. left. destruct d as [m v]. simpl in *. congruence.
        -- right. now exists u'.
Qed.

Lemma init_spec (name : string) (files : Files) (prefix eb_version ta : string)
    (ud : list string) (self : DependencyResolver) :
  outcome (__init__ fs env name files prefix eb_version ta ud) = Ok self ->
  _ud self = ud
  /\ forall d,
       d ∈ _dependencies self <->
       exists u, In u ud /\ fst d = override_name u /\ fst d <> name
                 /\ outcome (override_version eb_version ta u) = Ok (snd d).
Proof.
  unfold __init__. rewrite outcome_bind. cbn [outcome logger]. rewrite outcome_bind.
  destruct (outcome (init_loop _ _ _ _ _ _ _)) as [deps|e] eqn:Hloop; [|discriminate].
  intros [= <-]. split; [reflexivity|]. intros d. cbn [_dependencies].
  rewrite (init_loop_spec _ _ _ _ _ _ Hloop d). split.
  - intros [Hd|Hd]; [set_solver | exact Hd].
  - intros Hd. now right.
Qed.

(** C4. If no module is named by two user overrides, a module appears at
    most once in the dependency set that [__init__] builds and in the one
    that [resolve] leaves: the detection adds a module only when the
    resolver does not depend on it yet. *)
Theorem dependency_names_unique (name : string) (files : Files)
    (prefix eb_version ta : string) (ud : list string) (self : DependencyResolver) :
  NoDup (map override_name ud) ->
  outcome (__init__ fs env name files prefix eb_version ta ud) = Ok self ->
  unique_names (list_deps self)
  /\ forall self', outcome (resolve self) = Ok self' -> unique_names (list_deps self').
Proof.
  intros Hnd Hinit. apply init_spec in Hinit as [_ Hdeps].
  assert (Hu : unique_names (_dependencies self)).
  { intros m v1 v2 H1 H2.
    apply Hdeps in H1 as (u1 & Hin1 & Hn1 & _ & Ho1).
    apply Hdeps in H2 as (u2 & Hin2 & Hn2 & _ & Ho2).
    simpl in *. assert (u1 = u2) as <-.
    { apply (NoDup_map_eq override_name ud); auto. congruence. }
    congruence. }
  split; [exact Hu|]. intros self'. now apply resolve_unique.
Qed.

(** *** A user override is final *)

Lemma override_name_override (m v : string) :
  comma_free v = true -> override_name (override m v) = m.
Proof.
  intros Hv. unfold override_name, override. now rewrite (rsplit1_entry m v Hv).
Qed.

Lemma resolve_keeps (m : string) (P : option string -> Prop) (self self' : DependencyResolver) :
  (exists v, (m, v) ∈ _dependencies self) ->
  (forall v, (m, v) ∈ _dependencies self <-> P v) ->
  outcome (resolve self) = Ok self' ->
  forall v, (m, v) ∈ _dependencies self' <-> P v.
Proof.
  intros Hex HP.
  apply (resolve_invariant_deps (fun s => forall v, (m, v) ∈ _dependencies s <-> P v)).
  - intros s x s' Hs Hx.
    apply resolve_module_adds in Hx as [->|[Hdep [->|(_ & v & ->)]]]; auto.
    intros v'. cbn [_dependencies set_dependencies].
    rewrite elem_of_union, elem_of_singleton, <- Hs. split; [|now right].
    intros [[= <- <-]|Hv']; [|exact Hv'].
    exfalso. apply not_true_iff_false in Hdep. apply Hdep.
    apply depends_on_spec. destruct Hex as [w Hw]. exists w. apply Hs. now apply HP.
  - intros matches. exact HP.
Qed.

(** While the resolver depends on [m], the loop over the installed modules
    writes no record of the detection about [m]: where it is at [m] it
    passes over it, and where it is at another module its records of the
    detection are about that module. The three loops over the sources write
    no record of the detection at all. *)
Lemma resolve_silent (m : string) (self : DependencyResolver) :
  (exists v, (m, v) ∈ _dependencies self) ->
  Forall (fun r => ~ detection_of m r) (log (resolve self)).
Proof.
  intros Hex. unfold get_prerequisites.resolve. apply log_bind_all.
  { eapply Forall_impl; [apply scan_sources_log|].
    intros r Hr. now apply evidence_not_detection. }
  intros matches _. rewrite log_lift_bind. cbn [_prefix set_matches].
  destruct (os.listdir fs _) as [installed|e]; [|constructor].
  apply (for_each_log (fun s => exists v, (m, v) ∈ _dependencies s)).
  - intros s x Hs _.
    destruct (String.eqb_spec x m) as [->|Hne].
    + rewrite resolve_module_known; [constructor | now apply depends_on_spec].
    + eapply Forall_impl; [apply resolve_module_log|].
      intros r [[_ Hx]|Hr]; [|now apply evidence_not_detection].
      intros [_ Hm]. unfold speaks_of in *. congruence.
  - intros s x s' [v Hv] Hx.
    apply resolve_module_adds in Hx as [->|[_ [->|(_ & w & ->)]]]; eauto.
    exists v. cbn [_dependencies set_dependencies]. apply elem_of_union. now right.
  - exact Hex.
Qed.

(** C8. A user override [m,v] decides the dependency on [m]: the set that
    [__init__] builds and the set that [resolve] leaves hold the pair
    [(m, v)] and no other pair for [m], and the detection is not run for
    [m]. Each time the loop of [resolve] over the installed modules comes to
    [m], in whatever state the resolver is by then, it passes over it with
    no test, no change and no record in the log; and [resolve] writes no
    record of the detection about [m]: no version of [m] is skipped or
    checked against, no dependency on [m] is found, no version is selected
    for it. The resolver is not the one of [m] itself, and [m,v] is the
    only override that names [m]. With [m] = baz and [v] = 2.1.0 this is the
    scenario of the specification. *)
Theorem user_override_wins (m v name : string) (files : Files)
    (prefix eb_version ta : string) (ud : list string) (self : DependencyResolver) :
  comma_free v = true ->
  name <> m ->
  In (override m v) ud ->
  (forall u, In u ud -> override_name u = m -> u = override m v) ->
  outcome (__init__ fs env name files prefix eb_version ta ud) = Ok self ->
  (forall v', (m, v') ∈ list_deps self <-> v' = Some v)
  /\ (forall self', outcome (resolve self) = Ok self' ->
        forall v', (m, v') ∈ list_deps self' <-> v' = Some v)
  /\ Forall (fun r => ~ detection_of m r) (log (resolve self))
  /\ (forall matches before s,
        outcome (for_each resolve_module before (set_matches self matches)) = Ok s ->
        resolve_module s m = mret s).
Proof.
  intros Hv Hname Hin Honly Hinit.
  apply init_spec in Hinit as [_ Hdeps].
  assert (Hover : outcome (override_version eb_version ta (override m v)) = Ok (Some v)).
  { unfold get_prerequisites.override_version, override.
    now rewrite (rsplit1_entry m v Hv). }
  assert (Hm : forall v', (m, v') ∈ _dependencies self <-> v' = Some v).
  { intros v'. rewrite Hdeps. cbn [fst snd]. split.
    - intros (u & Hu & Hn & _ & Hout).
      rewrite (Honly u Hu (eq_sym Hn)) in Hout. congruence.
    - intros ->. exists (override m v). repeat split; auto.
      now rewrite override_name_override. }
  assert (Hex : exists v', (m, v') ∈ _dependencies self).
  { exists (Some v). now apply Hm. }
  split; [exact Hm|]. split.
  { intros self' Hres. exact (resolve_keeps m _ self self' Hex Hm Hres). }
  split; [now apply resolve_silent|].
  intros matches before s Hs. apply resolve_module_known, depends_on_spec.
  refine (for_each_invariant (fun s => exists v', (m, v') ∈ _dependencies s)
            resolve_module before _ (set_matches self matches) s Hex Hs).
  intros s1 x s2 [w Hw] Hx.
  apply resolve_module_adds in Hx as [->|[_ [->|(_ & w' & ->)]]]; eauto.
  exists w. cbn [_dependencies set_dependencies]. apply elem_of_union. now right.
Qed.

(** *** The resolver returns *)

Section Returns.

Variables eb_version ta : string.

(** The mapping files of the base version hold no bare module name, and the
    trial of a device pattern on a line raises nothing. *)
Hypothesis mapping_files :
  forall module,
    no_bare_entry fs (arch_default_file env eb_version ta) module
    /\ no_bare_entry fs (epics_default_file env eb_version) module.
Hypothesis device_patterns : forall dtyp line, exists b, device_line dtyp line = Ok b.

Lemma module_version_returns (module comp_version : string) :
  exists r, outcome (module_version fs env module comp_version eb_version ta) = Ok r.
Proof.
  destruct (mapping_files module) as [H1 H2].
  destruct (default_lookup_returns fs _ module H1) as (d1 & Hl1).
  destruct (default_lookup_returns fs _ module H2) as (d2 & Hl2).
  destruct (module_version_outcome fs env module comp_version eb_version ta (Ok d1) Hl1)
    as (d2' & versions & r3 & Hl2' & _ & _ & Hout).
  rewrite Hl2 in Hl2'. injection Hl2' as <-.
  rewrite Hout. destruct (Str.truthy d1); [now eexists|].
  destruct (Str.truthy d2); now eexists.
Qed.

Abbreviation configured := (configured eb_version ta).

Lemma add_dependency_returns (self : DependencyResolver) (m : string) :
  configured self ->
  exists self', outcome (add_dependency self m) = Ok self' /\ configured self'.
Proof.
  intros [Heb Hta]. unfold get_prerequisites.add_dependency.
  destruct (existsb _ _); [now exists self|].
  rewrite outcome_bind, Heb, Hta.
  destruct (module_version_returns m "") as [v ->].
  rewrite outcome_bind. cbn [outcome logger]. eexists. split; [reflexivity|].
  split; assumption.
Qed.

Lemma scan_versions_returns (self : DependencyResolver) (m path : string)
    (versions : list string) :
  configured self ->
  exists self', outcome (scan_versions self m path versions) = Ok self' /\ configured self'.
Proof.
  intros Hself.
  induction versions as [|version rest IH]; cbn [get_prerequisites.scan_versions].
  - now exists self.
  - destruct (negb (os.isdir fs _)); [exact IH|].
    destruct (negb (is_strict_version version)).
    + rewrite outcome_logger_bind. exact IH.
    + rewrite outcome_logger_bind, outcome_bind.
      destruct (has_evidence_returns fs device_line self m path version device_patterns)
        as [[|] ->]; [|exact IH].
      now apply add_dependency_returns.
Qed.

Lemma resolve_module_returns (self : DependencyResolver) (m : string) :
  configured self ->
  exists self', outcome (resolve_module self m) = Ok self' /\ configured self'.
Proof.
  intros Hself. unfold get_prerequisites.resolve_module.
  destruct (String.eqb m (_name self)); [now exists self|].
  destruct (depends_on self m); [now exists self|].
  unfold os.isdir, os.listdir.
  destruct (lookup_path fs (os.join (_prefix self) [m])) as [[lines|entries]|];
    cbn [negb orb]; try (now exists self).
  destruct (islink fs _); [now exists self|].
  rewrite outcome_lift_bind. now apply scan_versions_returns.
Qed.

Lemma init_loop_returns (name : string) (ud : list string) (deps : gset dependency) :
  exists deps', outcome (init_loop fs env name eb_version ta ud deps) = Ok deps'.
Proof.
  revert deps. induction ud as [|u ud IH]; intros deps; simpl.
  - now exists deps.
  - rewrite outcome_bind.
    assert (Hv : exists v, outcome (override_version eb_version ta u) = Ok v).
    { unfold get_prerequisites.override_version.
      destruct (Str.rsplit1 "," u) as [|a [|b [|c l]]];
        try apply module_version_returns. now exists (Some b). }
    destruct Hv as [v ->]. rewrite outcome_bind.
    assert (Hwarn : outcome (if has_unsupported_char (override_name u)
                             then logger WARNING "Library {} contains unsupported characters"
                                    [override_name u]
                             else mret ()) = Ok tt)
      by now destruct (has_unsupported_char _).
    rewrite Hwarn. destruct (String.eqb _ _); apply IH.
Qed.


End Returns.

End Resolver.

End resolver_facts.

(** ** get_prerequisites: the transitive closure *)

Module recursive_solve_facts.

Import check_excludes get_prerequisites Selection Resolution.

(** C5. At depth 0 [recursive_solve] writes its warning and returns the
    empty set: it does not recurse, it does not raise, and the dependency
    it was called with is not part of what it returns. *)
Theorem recursive_solve_depth_zero (fs : FileSystem) (env : Environ)
    (module : dependency) (args : Args) :
  recursive_solve fs env module args 0
  = mkM [mkRecord WARNING "Reached depth 10, not looking further." []] (Ok ∅).
Proof. reflexivity. Qed.

(** C5, as stated, fails: the set returned at depth 0 is not the singleton
    of the dependency. *)
Lemma recursive_solve_depth_zero_drops_module :
  outcome (recursive_solve Fixture.fs Fixture.env ("baz", Some "1.10.0") Fixture.args 0)
  = Ok ∅
  /\ (∅ : gset dependency) <> {[ ("baz", Some "1.10.0") ]}.
Proof.
  split; [reflexivity|].
  intros H. assert (Hin : ("baz", Some "1.10.0") ∈ (∅ : gset dependency)).
  { rewrite H. now apply elem_of_singleton. }
  now apply not_elem_of_empty in Hin.
Qed.

(** C10. With a version and a depth above 0, a module whose include
    directory or whose recorded dependency file is missing is returned
    alone: [recursive_solve] returns the singleton of the dependency, it
    does not raise, and all it writes is one record, of level DEBUG or
    WARNING, that names the missing path. *)
Theorem recursive_solve_missing_files (fs : FileSystem) (env : Environ)
    (name version : string) (args : Args) (depth : nat) :
  version <> "" ->
  (0 < depth)%nat ->
  os.isdir fs (include_dir args name version) = false
  \/ os.isfile fs (recorded_depfile env args name version) = false ->
  outcome (recursive_solve fs env (name, Some version) args depth)
  = Ok {[ (name, Some version) ]}
  /\ exists lvl path,
       log (recursive_solve fs env (name, Some version) args depth)
       = [mkRecord lvl "Could not find {}" [path]]
       /\ (lvl = DEBUG \/ lvl = WARNING).
Proof.
  intros Hversion Hdepth Hmissing.
  destruct depth as [|depth]; [lia|]. cbn [recursive_solve fst snd].
  destruct (String.eqb_spec version "") as [->|_]; [congruence|].
  destruct (os.isdir fs (include_dir args name version)) eqn:Hdir; cbn [negb].
  - destruct Hmissing as [Hd|Hf]; [discriminate|]. rewrite Hf. cbn [negb].
    split; [reflexivity|]. exists WARNING, (recorded_depfile env args name version). auto.
  - split; [reflexivity|]. exists DEBUG, (include_dir args name version). auto.
Qed.

Lemma recursive_solve_missing_files_witness :
  ("1.9.0" <> ""
   /\ (0 < 10)%nat
   /\ (os.isdir Fixture.fs (include_dir Fixture.args "baz" "1.9.0") = false
       \/ os.isfile Fixture.fs (recorded_depfile Fixture.env Fixture.args "baz" "1.9.0")
          = false))
  /\ outcome (recursive_solve Fixture.fs Fixture.env ("baz", Some "1.9.0") Fixture.args 10)
     = Ok {[ ("baz", Some "1.9.0") ]}.
Proof.
  assert (H1 : "1.9.0" <> "") by discriminate.
  assert (H2 : (0 < 10)%nat) by lia.
  assert (H3 : os.isdir Fixture.fs (include_dir Fixture.args "baz" "1.9.0") = false
               \/ os.isfile Fixture.fs
                    (recorded_depfile Fixture.env Fixture.args "baz" "1.9.0") = false)
    by (left; reflexivity).
  split; [auto|].
  exact (proj1 (recursive_solve_missing_files Fixture.fs Fixture.env "baz" "1.9.0"
                  Fixture.args 10 H1 H2 H3)).
Defined.

End recursive_solve_facts.

(** ** The properties on the small installation *)

Module fixture_facts.

Import check_excludes get_prerequisites Selection Resolution.
Import selection_facts resolver_facts.

(** Every line of the mapping files of the installation holds a comma. *)
Lemma fixture_mapping_files (module : string) :
  no_bare_entry Fixture.fs (arch_default_file Fixture.env "3.15" "linux") module
  /\ no_bare_entry Fixture.fs (epics_default_file Fixture.env "3.15") module.
Proof.
  split; intros lines Hlines; vm_compute in Hlines; [discriminate|].
  injection Hlines as <-. repeat constructor.
  intros [Heq Hfree]. rewrite <- Heq in Hfree. discriminate Hfree.
Qed.


(** C4, as stated, fails: two overrides for one module, both kept. *)
Lemma duplicate_overrides_both_kept :
  exists self,
    outcome (Fixture.resolved ["baz,1.0.0"; "baz,2.0.0"]) = Ok self
    /\ ("baz", Some "1.0.0") ∈ list_deps self
    /\ ("baz", Some "2.0.0") ∈ list_deps self.
Proof.
  eexists. split; [vm_compute; reflexivity|]. split; compute_done.
Qed.

Lemma dependency_names_unique_witness :
  (NoDup (map override_name ["baz,2.1.0"; "pthread"])
   /\ outcome (__init__ Fixture.fs Fixture.env "app" Fixture.files "/mods" "3.15" "linux"
                 ["baz,2.1.0"; "pthread"])
      = Ok (Fixture.initial ["baz,2.1.0"; "pthread"]))
  /\ unique_names (list_deps (Fixture.initial ["baz,2.1.0"; "pthread"]))
  /\ unique_names
       (list_deps (Fixture.returned (Fixture.initial [])
                     (Fixture.resolved ["baz,2.1.0"; "pthread"]))).
Proof.
  assert (H1 : NoDup (map override_name ["baz,2.1.0"; "pthread"])) by compute_done.
  assert (H2 : outcome (__init__ Fixture.fs Fixture.env "app" Fixture.files "/mods" "3.15"
                          "linux" ["baz,2.1.0"; "pthread"])
               = Ok (Fixture.initial ["baz,2.1.0"; "pthread"]))
    by (vm_compute; reflexivity).
  split; [auto|].
  destruct (dependency_names_unique Fixture.fs Fixture.env Fixture.device_line
              "app" Fixture.files "/mods" "3.15" "linux" ["baz,2.1.0"; "pthread"]
              _ H1 H2) as [Hinit Hres].
  split; [exact Hinit|]. apply Hres. vm_compute. reflexivity.
Defined.

Lemma user_override_wins_witness :
  (comma_free "2.1.0" = true
   /\ "app" <> "baz"
   /\ In (override "baz" "2.1.0") ["baz,2.1.0"; "pthread"]
   /\ (forall u, In u ["baz,2.1.0"; "pthread"] -> override_name u = "baz" ->
         u = override "baz" "2.1.0")
   /\ outcome (__init__ Fixture.fs Fixture.env "app" Fixture.files "/mods" "3.15" "linux"
                 ["baz,2.1.0"; "pthread"])
      = Ok (Fixture.initial ["baz,2.1.0"; "pthread"]))
  /\ ("baz", Some "1.10.0")
       ∈ list_deps (Fixture.returned (Fixture.initial []) (Fixture.resolved ["pthread"]))
  /\ (forall v, ("baz", v)
                  ∈ list_deps (Fixture.returned (Fixture.initial [])
                                 (Fixture.resolved ["baz,2.1.0"; "pthread"]))
                <-> v = Some "2.1.0")
  /\ Forall (fun r => ~ detection_of "baz" r)
       (log (resolve Fixture.fs Fixture.env Fixture.device_line
               (Fixture.initial ["baz,2.1.0"; "pthread"]))).
Proof.
  assert (H1 : comma_free "2.1.0" = true) by reflexivity.
  assert (H2 : "app" <> "baz") by discriminate.
  assert (H3 : In (override "baz" "2.1.0") ["baz,2.1.0"; "pthread"]) by (left; reflexivity).
  assert (H4 : forall u, In u ["baz,2.1.0"; "pthread"] -> override_name u = "baz" ->
                 u = override "baz" "2.1.0").
  { intros u [<-|[<-|[]]] Hu; [reflexivity | discriminate Hu]. }
  assert (H5 : outcome (__init__ Fixture.fs Fixture.env "app" Fixture.files "/mods" "3.15"
                          "linux" ["baz,2.1.0"; "pthread"])
               = Ok (Fixture.initial ["baz,2.1.0"; "pthread"]))
    by (vm_compute; reflexivity).
  split; [auto 6|]. split; [compute_done|].
  destruct (user_override_wins Fixture.fs Fixture.env Fixture.device_line
              "baz" "2.1.0" "app" Fixture.files "/mods" "3.15" "linux"
              ["baz,2.1.0"; "pthread"] _ H1 H2 H3 H4 H5) as (_ & Hres & Hlog & _).
  split; [|exact Hlog]. apply Hres. vm_compute. reflexivity.
Defined.

End fixture_facts.

(** ** get_prerequisites: what the detection adds *)

Module detection_facts.

Import StrFacts check_excludes check_excludes_facts.
Import get_prerequisites Selection Resolution selection_facts monad_facts resolver_facts.

#[local] Arguments mbind : simpl never.
#[local] Arguments lift : simpl never.
#[local] Arguments logger : simpl never.

(** An invariant of a loop, for a body that keeps it on the elements of
    the list. *)
Lemma for_each_invariant_in {A S : Type} (P : S -> Prop) (body : S -> A -> M S)
    (xs : list A) :
  (forall s x s', In x xs -> P s -> outcome (body s x) = Ok s' -> P s') ->
  forall acc s', P acc -> outcome (for_each body xs acc) = Ok s' -> P s'.
Proof.
  induction xs as [|x xs IH]; intros Hbody acc s' Hacc H; simpl in H.
  - injection H as <-. exact Hacc.
  - rewrite outcome_bind in H.
    destruct (outcome (body acc x)) as [acc'|e] eqn:Hx; [|discriminate].
    apply (IH (fun s y s'' Hy => Hbody s y s'' (or_intror Hy)) acc' s'); [|exact H].
    exact (Hbody acc x acc' (or_introl eq_refl) Hacc Hx).
Qed.

(** What holds of the elements gone through, for a body that extends it by
    one element. *)
Lemma for_each_prefix {A S : Type} (P : list A -> S -> Prop) (body : S -> A -> M S)
    (xs : list A) :
  (forall done x s s', P done s -> outcome (body s x) = Ok s' -> P (done ++ [x]) s') ->
  forall acc s', P [] acc -> outcome (for_each body xs acc) = Ok s' -> P xs s'.
Proof.
  intros Hbody.
  assert (Hgen : forall done acc s',
            P done acc -> outcome (for_each body xs acc) = Ok s' -> P (done ++ xs) s').
  { induction xs as [|x xs IH]; intros done acc s' Hacc H; simpl in H.
    - injection H as <-. now rewrite app_nil_r.
    - rewrite outcome_bind in H.
      destruct (outcome (body acc x)) as [acc'|e] eqn:Hx; [|discriminate].
      replace (done ++ x :: xs) with ((done ++ [x]) ++ xs) by now rewrite <- app_assoc.
      apply (IH (done ++ [x]) acc' s'); [|exact H].
      exact (Hbody done x acc acc' Hacc Hx). }
  intros acc s' Hacc H. exact (Hgen [] acc s' Hacc H).
Qed.

Section Detection.

Variable fs : FileSystem.
Variable env : Environ.
Variable device_line : string * string -> string -> result bool.

Abbreviation add_dependency := (add_dependency fs env).
Abbreviation has_evidence := (has_evidence fs device_line).
Abbreviation scan_versions := (scan_versions fs env device_line).
Abbreviation resolve_module := (resolve_module fs env device_line).
Abbreviation resolve := (resolve fs env device_line).

Abbreviation added := (added fs env).

Lemma add_dependency_step (self self' : DependencyResolver) (m : string) :
  outcome (add_dependency self m) = Ok self' -> self' = self \/ added m self self'.
Proof.
  unfold get_prerequisites.add_dependency.
  destruct (existsb _ _) eqn:Hud.
  - intros [= <-]. now left.
  - rewrite outcome_bind.
    destruct (outcome (module_version _ _ _ _ _ _)) as [v|e] eqn:Hv; [|discriminate].
    rewrite outcome_bind. cbn [outcome logger]. intros [= <-].
    right. split; [|now exists v].
    intros Hin. apply not_true_iff_false in Hud. apply Hud.
    apply existsb_exists. exists m. split; [exact Hin | apply String.eqb_refl].
Qed.

Lemma scan_versions_step (self self' : DependencyResolver) (m path : string)
    (versions : list string) :
  outcome (scan_versions self m path versions) = Ok self' ->
  self' = self \/ added m self self'.
Proof.
  induction versions as [|version rest IH]; cbn [get_prerequisites.scan_versions].
  - intros [= <-]. now left.
  - destruct (negb (os.isdir fs _)); [exact IH|].
    destruct (negb (is_strict_version version)).
    + rewrite outcome_logger_bind. exact IH.
    + rewrite outcome_logger_bind, outcome_bind.
      destruct (outcome (has_evidence _ _ _ _)) as [[|]|e]; [| exact IH | discriminate].
      apply add_dependency_step.
Qed.

(** The body of the loop over the installed modules changes the resolver
    only for a module that is not its own, that it does not depend on yet
    and that is a directory and no link. *)
Lemma resolve_module_step (self self' : DependencyResolver) (m : string) :
  outcome (resolve_module self m) = Ok self' ->
  self' = self
  \/ (m <> _name self
      /\ os.isdir fs (os.join (_prefix self) [m]) = true
      /\ islink fs (os.join (_prefix self) [m]) = false
      /\ added m self self').
Proof.
  unfold get_prerequisites.resolve_module.
  destruct (String.eqb_spec m (_name self)) as [_|Hname]; [intros [= <-]; now left|].
  destruct (depends_on self m); [intros [= <-]; now left|].
  destruct (os.isdir fs (os.join (_prefix self) [m])) eqn:Hdir; cbn [negb orb];
    [|intros [= <-]; now left].
  destruct (islink fs (os.join (_prefix self) [m])) eqn:Hlink; [intros [= <-]; now left|].
  rewrite outcome_lift_bind.
  destruct (os.listdir fs _) as [versions|e]; [|discriminate].
  intros H. apply scan_versions_step in H as [->|H]; [now left|]. right. auto.
Qed.

(** What [resolve] keeps and what it adds. *)
Lemma resolve_invariant (self self' : DependencyResolver) :
  outcome (resolve self) = Ok self' ->
  same_module self self'
  /\ _dependencies self ⊆ _dependencies self'
  /\ forall d, d ∈ _dependencies self' ->
       d ∈ _dependencies self \/ detectable fs env self d.
Proof.
  intros H. apply resolve_outcome in H as (matches & installed & _ & Hlist & H).
  refine (for_each_invariant_in
            (fun s => same_module self s
                      /\ _dependencies self ⊆ _dependencies s
                      /\ forall d, d ∈ _dependencies s ->
                           d ∈ _dependencies self \/ detectable fs env self d)
            _ _ _ _ _ _ H).
  - intros s x s' Hin (Hsame & Hsub & Hprov) Hx.
    apply resolve_module_step in Hx
      as [->|(Hname & Hdir & Hlink & Hud & v & Hv & ->)]; [auto|].
    destruct Hsame as (Hn & Hp & Heb & Hta & Hu).
    split; [repeat split; assumption|].
    cbn [_dependencies set_dependencies]. split; [set_solver|].
    intros d Hd. apply elem_of_union in Hd as [Hd|Hd]; [|now apply Hprov].
    apply elem_of_singleton in Hd as ->. right. unfold detectable. cbn [fst snd].
    rewrite <- Hn, <- Hp, <- Heb, <- Hta, <- Hu.
    split; [exists installed; rewrite Hp; auto|]. auto 6.
  - split; [repeat split|]. split; [reflexivity|]. intros d Hd. now left.
Qed.

(** X12. [resolve] removes no dependency, and a dependency that it adds is
    detectable: its module is an installed one, a directory and no link
    under the installation root, other than the module of the resolver and
    named by no user override, and its version is the one [module_version]
    selects for the module without comparison version, whichever version
    directory the evidence was found in. *)
Theorem resolve_adds_detectable (self self' : DependencyResolver) :
  outcome (resolve self) = Ok self' ->
  list_deps self ⊆ list_deps self'
  /\ forall d, d ∈ list_deps self' -> d ∈ list_deps self \/ detectable fs env self d.
Proof.
  intros H. now apply resolve_invariant in H as (_ & Hsub & Hprov).
Qed.

Lemma init_name (name : string) (files : Files) (prefix eb_version ta : string)
    (ud : list string) (self : DependencyResolver) :
  outcome (__init__ fs env name files prefix eb_version ta ud) = Ok self ->
  _name self = name.
Proof.
  unfold __init__. rewrite outcome_bind. cbn [outcome logger]. rewrite outcome_bind.
  destruct (outcome (init_loop _ _ _ _ _ _ _)) as [deps|e]; [|discriminate].
  now intros [= <-].
Qed.

(** X13. A module does not depend on itself: neither the user overrides that
    [__init__] records nor the detection of [resolve] put the module of the
    resolver into its dependencies, at whatever version. *)
Theorem no_dependency_on_itself (name : string) (files : Files)
    (prefix eb_version ta : string) (ud : list string) (self : DependencyResolver) :
  outcome (__init__ fs env name files prefix eb_version ta ud) = Ok self ->
  (forall v, (name, v) ∉ list_deps self)
  /\ forall self', outcome (resolve self) = Ok self' ->
       forall v, (name, v) ∉ list_deps self'.
Proof.
  intros Hinit. pose proof (init_name _ _ _ _ _ _ _ Hinit) as Hname.
  apply init_spec in Hinit as [_ Hdeps].
  assert (Hself : forall v, (name, v) ∉ _dependencies self).
  { intros v Hv. apply Hdeps in Hv as (u & _ & _ & Hne & _). now apply Hne. }
  split; [exact Hself|]. intros self' Hres v Hv.
  apply resolve_invariant in Hres as (_ & _ & Hprov).
  destruct (Hprov _ Hv) as [Hold|(_ & Hne & _)]; [now apply (Hself v)|].
  apply Hne. now rewrite Hname.
Qed.

End Detection.

(** *** The transitive closure *)

Section Closure.

Variable fs : FileSystem.
Variable env : Environ.

Lemma recursive_solve_member (module : dependency) (args : Args) (depth : nat)
    (deps : gset dependency) :
  (0 < depth)%nat ->
  outcome (recursive_solve fs env module args depth) = Ok deps ->
  module ∈ deps.
Proof.
  intros Hdepth H. destruct depth as [|depth]; [lia|]. cbn [recursive_solve] in H.
  assert (Hret : forall m : M unit,
            outcome m = Ok tt ->
            outcome (m ;; mret ({[ module ]} : gset dependency)) = Ok deps ->
            module ∈ deps).
  { intros m Hm Hout. rewrite outcome_bind, Hm in Hout.
    injection Hout as <-. now apply elem_of_singleton. }
  destruct (snd module) as [version|].
  - destruct (String.eqb version "");
      [injection H as <-; now apply elem_of_singleton|].
    destruct (negb (os.isdir fs _)); [now apply Hret in H|].
    destruct (negb (os.isfile fs _)); [now apply Hret in H|].
    rewrite outcome_lift_bind in H.
    destruct (os.readlines fs _) as [lines|e]; [|discriminate].
    refine (for_each_invariant (fun acc => module ∈ acc) _ _ _ _ _ _ H);
      [|now apply elem_of_singleton].
    intros s line s' Hs Hline. rewrite outcome_bind in Hline.
    destruct (outcome (line_dependency fs env args line)) as [rmodule|e]; [|discriminate].
    rewrite outcome_bind in Hline.
    destruct (outcome (recursive_solve fs env rmodule args depth)) as [more|e];
      [|discriminate].
    injection Hline as <-. apply elem_of_union. now left.
  - injection H as <-. now apply elem_of_singleton.
Qed.

(** X14. Above depth 0, the set that [recursive_solve] returns holds the
    dependency it was called with; and for a dependency without version (a
    system library) it holds nothing else, and nothing is logged. *)
Theorem recursive_solve_holds_module (module : dependency) (args : Args) (depth : nat)
    (deps : gset dependency) :
  (0 < depth)%nat ->
  outcome (recursive_solve fs env module args depth) = Ok deps ->
  module ∈ deps
  /\ (Str.truthy (snd module) = false ->
      recursive_solve fs env module args depth = mkM [] (Ok {[ module ]})).
Proof.
  intros Hdepth H. split; [exact (recursive_solve_member module args depth deps Hdepth H)|].
  intros Hv. destruct depth as [|depth]; [lia|]. cbn [recursive_solve].
  destruct (snd module) as [version|]; [|reflexivity].
  cbn [Str.truthy] in Hv. apply negb_false_iff in Hv. now rewrite Hv.
Qed.

(** X15. The set that [main] prints holds every dependency of the resolver: the
    resolver's own set without [--recursive], and with it the union of the
    closures, each of which holds the dependency it starts from. *)
Theorem main_deps_hold_direct (recursive : bool) (dpres : DependencyResolver)
    (args : Args) (deps : gset dependency) :
  outcome (main_deps fs env recursive dpres args) = Ok deps ->
  list_deps dpres ⊆ deps.
Proof.
  unfold main_deps. destruct recursive; [|now intros [= <-]].
  intros H.
  assert (Hall : forall d, In d (elements (list_deps dpres)) -> d ∈ deps).
  { refine (for_each_prefix (fun done acc => forall d, In d done -> d ∈ acc)
              _ _ _ _ _ _ H); [|intros d []].
    intros done x s s' Hs Hx. rewrite outcome_bind in Hx.
    destruct (outcome (recursive_solve fs env x args 10)) as [more|e] eqn:Hmore;
      [|discriminate].
    injection Hx as <-. intros d Hd. apply elem_of_union.
    apply in_app_or in Hd as [Hd|[<-|[]]]; [left; now apply Hs|].
    right. apply (recursive_solve_member x args 10 more); [lia | exact Hmore]. }
  intros d Hd. apply Hall. now apply list_elem_of_In, elem_of_elements.
Qed.

End Closure.

Lemma recursive_solve_holds_module_witness :
  ((0 < 10)%nat
   /\ outcome (recursive_solve Fixture.fs Fixture.env ("baz", Some "1.10.0") Fixture.args 10)
      = Ok {[ ("baz", Some "1.10.0"); ("asyn", Some "4.2.0") ]})
  /\ ("baz", Some "1.10.0")
       ∈ ({[ ("baz", Some "1.10.0"); ("asyn", Some "4.2.0") ]} : gset dependency).
Proof.
  assert (H1 : (0 < 10)%nat) by lia.
  assert (H2 : outcome (recursive_solve Fixture.fs Fixture.env ("baz", Some "1.10.0")
                          Fixture.args 10)
               = Ok {[ ("baz", Some "1.10.0"); ("asyn", Some "4.2.0") ]})
    by (vm_compute; reflexivity).
  split; [auto|].
  exact (proj1 (recursive_solve_holds_module Fixture.fs Fixture.env ("baz", Some "1.10.0")
                  Fixture.args 10 _ H1 H2)).
Defined.

Lemma resolve_adds_detectable_witness :
  outcome (resolve Fixture.fs Fixture.env Fixture.device_line (Fixture.initial ["pthread"]))
  = Ok (Fixture.returned (Fixture.initial []) (Fixture.resolved ["pthread"]))
  /\ list_deps (Fixture.initial ["pthread"])
       ⊆ list_deps (Fixture.returned (Fixture.initial []) (Fixture.resolved ["pthread"]))
  /\ forall d,
       d ∈ list_deps (Fixture.returned (Fixture.initial []) (Fixture.resolved ["pthread"])) ->
       d ∈ list_deps (Fixture.initial ["pthread"])
       \/ detectable Fixture.fs Fixture.env (Fixture.initial ["pthread"]) d.
Proof.
  assert (H : outcome (resolve Fixture.fs Fixture.env Fixture.device_line
                         (Fixture.initial ["pthread"]))
              = Ok (Fixture.returned (Fixture.initial []) (Fixture.resolved ["pthread"])))
    by (vm_compute; reflexivity).
  split; [exact H|].
  exact (resolve_adds_detectable Fixture.fs Fixture.env Fixture.device_line _ _ H).
Defined.

Lemma no_dependency_on_itself_witness :
  outcome (__init__ Fixture.fs Fixture.env "app" Fixture.files "/mods" "3.15" "linux"
             ["app,1.0.0"; "pthread"])
  = Ok (Fixture.initial ["app,1.0.0"; "pthread"])
  /\ (forall v, ("app", v) ∉ list_deps (Fixture.initial ["app,1.0.0"; "pthread"]))
  /\ forall v,
       ("app", v)
         ∉ list_deps (Fixture.returned (Fixture.initial [])
                        (Fixture.resolved ["app,1.0.0"; "pthread"])).
Proof.
  assert (H : outcome (__init__ Fixture.fs Fixture.env "app" Fixture.files "/mods" "3.15"
                         "linux" ["app,1.0.0"; "pthread"])
              = Ok (Fixture.initial ["app,1.0.0"; "pthread"]))
    by (vm_compute; reflexivity).
  split; [exact H|].
  destruct (no_dependency_on_itself Fixture.fs Fixture.env Fixture.device_line "app"
              Fixture.files "/mods" "3.15" "linux" ["app,1.0.0"; "pthread"] _ H)
    as [Hinit Hres].
  split; [exact Hinit|]. apply Hres. vm_compute. reflexivity.
Defined.

Lemma main_deps_hold_direct_witness :
  outcome (main_deps Fixture.fs Fixture.env true (Fixture.initial ["asyn,4.2.0"; "pthread"])
             Fixture.args)
  = Ok {[ ("pthread", None); ("asyn", Some "4.2.0") ]}
  /\ list_deps (Fixture.initial ["asyn,4.2.0"; "pthread"])
       ⊆ {[ ("pthread", None); ("asyn", Some "4.2.0") ]}.
Proof.
  assert (H : outcome (main_deps Fixture.fs Fixture.env true
                         (Fixture.initial ["asyn,4.2.0"; "pthread"]) Fixture.args)
              = Ok {[ ("pthread", None); ("asyn", Some "4.2.0") ]})
    by (vm_compute; reflexivity).
  split; [exact H|].
  exact (main_deps_hold_direct Fixture.fs Fixture.env true _ Fixture.args _ H).
Defined.

End detection_facts.

(** ** get_prerequisites: the output formats *)

Module format_facts.

Import Re StrFacts PatternFacts check_excludes check_excludes_facts.
Import get_prerequisites Selection Resolution Shapes greedy_facts.
Import selection_facts version_facts priority_facts.

(** A loop that only appends to its result: what was there before the loop
    stays in front. *)
Lemma fold_left_prefix {A : Type} (f : string -> A -> string) (p : string) (l : list A) :
  (forall res m, f (p +:+ res) m = p +:+ f res m) ->
  forall acc, fold_left f l (p +:+ acc) = p +:+ fold_left f l acc.
Proof.
  intros Hf. induction l as [|m l IH]; intros acc; [reflexivity|].
  cbn [fold_left]. now rewrite Hf, IH.
Qed.

Lemma fold_left_filter {A S : Type} (f : S -> A -> S) (g : A -> bool) (l : list A) :
  (forall res m, g m = false -> f res m = res) ->
  forall acc, fold_left f (List.filter g l) acc = fold_left f l acc.
Proof.
  intros Hf. induction l as [|m l IH]; intros acc; [reflexivity|].
  cbn [List.filter fold_left]. destruct (g m) eqn:Hg.
  - cbn [fold_left]. apply IH.
  - rewrite (Hf acc m Hg). apply IH.
Qed.

(** Concatenations, written with the parentheses to the right. *)
Ltac norm_append :=
  repeat first [rewrite append_assoc | rewrite append_cons | rewrite append_nil].

(** X16. The flags for the compiler, for make and for MSI name the directories
    of the dependencies that have a version and of no other: a dependency
    without version, a system library, adds nothing to them. And
    [format_make] is [format_cflags] behind the name of the variable. *)
Theorem include_flags_of_versioned (modules : list dependency)
    (epics_base prefix osclass : string) :
  format_make modules epics_base prefix osclass
  = "DEPENDENCIES_INCLUDES =" +:+ format_cflags modules epics_base prefix osclass
  /\ format_cflags (versioned modules) epics_base prefix osclass
     = format_cflags modules epics_base prefix osclass
  /\ format_make (versioned modules) epics_base prefix osclass
     = format_make modules epics_base prefix osclass
  /\ format_dbflags (versioned modules) prefix = format_dbflags modules prefix.
Proof.
  split; [|split; [|split]].
  - unfold format_make, format_cflags.
    change "DEPENDENCIES_INCLUDES = " with ("DEPENDENCIES_INCLUDES =" +:+ " ").
    apply fold_left_prefix. intros res m.
    destruct (Str.truthy (snd m)); [|reflexivity].
    cbv zeta. now rewrite !append_assoc.
  - apply fold_left_filter. intros res m Hm. now rewrite Hm.
  - apply fold_left_filter. intros res m Hm. now rewrite Hm.
  - apply fold_left_filter. intros res m Hm. now rewrite Hm.
Qed.

(** *** The dependency file *)

Lemma format_dep_acc (modules : list dependency) (acc : string) :
  fold_left (fun res module =>
      if Str.truthy (snd module) then
        let version := Str.split "." (default "" (snd module)) in
        match version with
        | v0 :: v1 :: _ => res +:+ (fst module +:+ "," +:+ v0 +:+ "." +:+ v1 +:+ "+" +:+ nl)
        | [v0] => res +:+ (fst module +:+ "," +:+ v0 +:+ nl)
        | [] => res
        end
      else res +:+ (fst module +:+ nl))
    modules acc
  = acc +:+ format_dep modules.
Proof.
  unfold format_dep. rewrite <- (append_empty_r acc) at 1.
  apply fold_left_prefix. intros res m.
  destruct (Str.truthy (snd m)); [|now rewrite append_assoc].
  cbv zeta. destruct (Str.split "." (default "" (snd m))) as [|v0 [|v1 vs]];
    [reflexivity | now rewrite append_assoc | now rewrite append_assoc].
Qed.

Lemma comma_free_append (a b : string) :
  comma_free (a +:+ b) = comma_free a && comma_free b.
Proof.
  induction a as [|c a IH]; [reflexivity|].
  rewrite append_cons. cbn [comma_free]. now rewrite IH, andb_assoc.
Qed.

Lemma comma_free_digits (g : string) : Str.all_digits g = true -> comma_free g = true.
Proof.
  induction g as [|c g IH]; [reflexivity|]. cbn [Str.all_digits comma_free].
  intros H. apply andb_true_iff in H as [Hc Hg].
  now rewrite (proj2 (digit_not_sep c Hc)), (IH Hg).
Qed.

Lemma split_comma_free (s : string) : comma_free s = true -> Str.split "," s = [s].
Proof.
  induction s as [|c s IH]; [reflexivity|]. cbn [comma_free Str.split].
  intros H. apply andb_true_iff in H as [Hc Hs]. apply negb_true_iff in Hc.
  now rewrite Hc, (IH Hs).
Qed.

(** [split(',')] cuts a line [name,spec] into its two parts. *)
Lemma split_comma_entry (name spec : string) :
  comma_free name = true -> comma_free spec = true ->
  Str.split "," (name +:+ String "," spec) = [name; spec].
Proof.
  intros Hname Hspec. induction name as [|c name IH].
  - rewrite append_nil. cbn [Str.split]. cbn [Ascii.eqb Bool.eqb].
    now rewrite (split_comma_free spec Hspec).
  - cbn [comma_free] in Hname. apply andb_true_iff in Hname as [Hc Hname].
    apply negb_true_iff in Hc. rewrite append_cons. cbn [Str.split].
    now rewrite Hc, (IH Hname).
Qed.

Lemma lstrip_length (s : string) : (String.length (Str.lstrip s) <= String.length s)%nat.
Proof.
  induction s as [|c s IH]; [reflexivity|]. cbn [Str.lstrip].
  destruct (Str.is_space c); simpl; lia.
Qed.

(** A text that [lstrip] leaves as it is keeps its head when a text is
    appended to it. *)
Lemma lstrip_append (name rest : string) :
  Str.lstrip name = name -> name <> EmptyString ->
  Str.lstrip (name +:+ rest) = name +:+ rest.
Proof.
  destruct name as [|c name]; [congruence|]. intros H _.
  rewrite append_cons. cbn [Str.lstrip] in *.
  destruct (Str.is_space c); [|reflexivity].
  pose proof (lstrip_length name) as Hlen. rewrite H in Hlen. simpl in Hlen. lia.
Qed.

(** [rstrip] removes the end of the line after a character that is no
    white space. *)
Lemma rstrip_line (p : string) (c : ascii) :
  Str.is_space c = false ->
  Str.rstrip (p +:+ String c nl) = p +:+ String c EmptyString.
Proof.
  intros Hc. induction p as [|x p IH].
  - rewrite !append_nil. unfold nl. cbn [Str.rstrip].
    change (Str.is_space "010") with true. cbv iota. now rewrite Hc.
  - rewrite !append_cons. cbn [Str.rstrip]. rewrite IH.
    now destruct p.
Qed.

Section ReadBack.

Variable fs : FileSystem.
Variable env : Environ.
Variable args : Args.


End ReadBack.


End format_facts.

(** ** get_prerequisites: the vpath format and empty lines *)

Module edge_facts.

Import StrFacts check_excludes check_excludes_facts.
Import get_prerequisites Selection Resolution selection_facts resolver_facts.
Import version_facts detection_facts format_facts.

#[local] Arguments mbind : simpl never.
#[local] Arguments lift : simpl never.
#[local] Arguments logger : simpl never.

(** The two components of the state of a loop over pairs, when the first
    one only collects and the second one does not look at the first. *)
Lemma fold_left_pair {A B C : Type} (f : B -> A -> B) (g : A -> C) (l : list A) :
  forall (out : list C) (res : B),
    fold_left (fun state x => (fst state ++ [g x], f (snd state) x)) l (out, res)
    = (out ++ map g l, fold_left f l res).
Proof.
  induction l as [|x l IH]; intros out res; cbn [fold_left map fst snd].
  - now rewrite app_nil_r.
  - rewrite IH. now rewrite <- app_assoc.
Qed.

Lemma fold_left_same {A S : Type} (f g : S -> A -> S) (l : list A) :
  (forall s x, f s x = g s x) -> forall acc, fold_left f l acc = fold_left g l acc.
Proof.
  intros Hfg. induction l as [|x l IH]; intros acc; [reflexivity|].
  cbn [fold_left]. now rewrite Hfg, IH.
Qed.

(** X21. [format_vpath] prints the name of every dependency it goes through,
    with or without version, one name on a line and in the order of the
    iteration, before its caller prints the result; and like the other
    formats its result names the directories of the dependencies that have
    a version only. *)
Theorem format_vpath_prints_names (modules : list dependency)
    (epics_base prefix osclass : string) :
  fst (format_vpath modules epics_base prefix osclass) = map fst modules
  /\ snd (format_vpath (versioned modules) epics_base prefix osclass)
     = snd (format_vpath modules epics_base prefix osclass).
Proof.
  pose (f := fun (res : string) (module : dependency) =>
               if Str.truthy (snd module) then
                 ((((((res +:+ os.join prefix [fst module; default "" (snd module);
                                                epics_base; "include"])
                      +:+ " ")
                     +:+ os.join prefix [fst module; default "" (snd module); epics_base;
                                         "include"; "os"; osclass])
                    +:+ " ")
                   +:+ os.join prefix [fst module; default "" (snd module); epics_base;
                                       "include"; "os"; "default"])
                  +:+ " ")
               else res).
  assert (Hfold : forall l,
            format_vpath l epics_base prefix osclass
            = (map fst l, fold_left f l " ")).
  { intros l. unfold format_vpath.
    etransitivity; [|exact (fold_left_pair f fst l [] " ")].
    apply fold_left_same. intros state module. subst f. cbv beta zeta.
    now destruct (Str.truthy (snd module)). }
  rewrite !Hfold. cbn [fst snd]. split; [reflexivity|].
  apply fold_left_filter. intros res m Hm. subst f. cbv beta. now rewrite Hm.
Qed.

(** *** An empty line in a recorded dependency file *)

Section EmptyLine.

Variable fs : FileSystem.
Variable env : Environ.
Variable args : Args.

(** [recursive_solve] on a module version whose include directory and
    recorded dependency file exist: the loop over the lines of the file. *)
Lemma recursive_solve_lines (name version : string) (depth : nat) (lines : list string) :
  version <> "" ->
  os.isdir fs (include_dir args name version) = true ->
  lookup_path fs (recorded_depfile env args name version) = Some (File lines) ->
  recursive_solve fs env (name, Some version) args (S depth)
  = for_each (fun deps line =>
                rmodule ← line_dependency fs env args line;
                more ← recursive_solve fs env rmodule args depth;
                mret (deps ∪ more))
      lines {[ (name, Some version) ]}.
Proof.
  intros Hversion Hdir Hfile. cbn [recursive_solve fst snd].
  destruct (String.eqb_spec version "") as [->|_]; [congruence|].
  rewrite Hdir. unfold os.isfile, os.readlines. rewrite Hfile. cbn [negb].
  now rewrite bind_lift_Ok.
Qed.

(** A line that [strip] empties is read as the module with the empty
    name. *)
Lemma line_dependency_empty (line : string) :
  Str.strip line = "" ->
  line_dependency fs env args line
  = (found ← module_version fs env "" "" (epicsbase args) (targetarch args);
     mret ("", found)).
Proof. intros Hline. unfold line_dependency. now rewrite Hline. Qed.

(** X22. An empty line in a recorded dependency file is not passed over: a line
    that holds white space only is read as a dependency on the module with
    the empty name, at the version [module_version] selects for that name,
    and with two levels or more to go (the default is 10) the set that
    [recursive_solve] returns holds a dependency with the empty name. *)
Theorem recursive_solve_empty_line (name version : string) (depth : nat)
    (lines : list string) (line : string) (deps : gset dependency) :
  version <> "" ->
  os.isdir fs (include_dir args name version) = true ->
  lookup_path fs (recorded_depfile env args name version) = Some (File lines) ->
  In line lines ->
  Str.strip line = "" ->
  outcome (recursive_solve fs env (name, Some version) args (S (S depth))) = Ok deps ->
  line_dependency fs env args line
  = (found ← module_version fs env "" "" (epicsbase args) (targetarch args);
     mret ("", found))
  /\ exists found, ("", found) ∈ deps.
Proof.
  intros Hversion Hdir Hfile Hin Hline H.
  split; [now apply line_dependency_empty|].
  rewrite (recursive_solve_lines name version (S depth) lines Hversion Hdir Hfile) in H.
  refine (for_each_prefix
            (fun done acc => In line done -> exists found, ("", found) ∈ acc)
            _ _ _ _ _ _ H Hin); [|intros []].
  clear H. intros done x s s' Hs Hx Hdone.
  rewrite outcome_bind in Hx.
  destruct (outcome (line_dependency fs env args x)) as [rmodule|e] eqn:Hr; [|discriminate].
  rewrite outcome_bind in Hx.
  destruct (outcome (recursive_solve fs env rmodule args (S depth))) as [more|e] eqn:Hmore;
    [|discriminate].
  injection Hx as <-.
  apply in_app_or in Hdone as [Hdone|[<-|[]]].
  - destruct (Hs Hdone) as [found Hfound]. exists found. apply elem_of_union. now left.
  - rewrite (line_dependency_empty x Hline), outcome_bind in Hr.
    destruct (outcome (module_version fs env "" "" _ _)) as [found|e]; [|discriminate].
    injection Hr as <-. exists found. apply elem_of_union. right.
    apply (recursive_solve_member fs env ("", found) args (S depth) more); [lia | exact Hmore].
Qed.

End EmptyLine.

Lemma recursive_solve_empty_line_witness :
  ("1.0.0" <> ""
   /\ os.isdir Fixture.fs_empty_line (include_dir Fixture.args "baz" "1.0.0") = true
   /\ lookup_path Fixture.fs_empty_line (recorded_depfile Fixture.env Fixture.args "baz" "1.0.0")
      = Some (File ["pthread" +:+ nl; nl])
   /\ In nl ["pthread" +:+ nl; nl]
   /\ Str.strip nl = ""
   /\ outcome (recursive_solve Fixture.fs_empty_line Fixture.env ("baz", Some "1.0.0")
                 Fixture.args 2)
      = Ok {[ ("baz", Some "1.0.0"); ("pthread", None); ("", None) ]})
  /\ exists found,
       ("", found)
         ∈ ({[ ("baz", Some "1.0.0"); ("pthread", None); ("", None) ]} : gset dependency).
Proof.
  assert (H1 : "1.0.0" <> "") by discriminate.
  assert (H2 : os.isdir Fixture.fs_empty_line (include_dir Fixture.args "baz" "1.0.0") = true)
    by reflexivity.
  assert (H3 : lookup_path Fixture.fs_empty_line
                 (recorded_depfile Fixture.env Fixture.args "baz" "1.0.0")
               = Some (File ["pthread" +:+ nl; nl])) by reflexivity.
  assert (H4 : In nl ["pthread" +:+ nl; nl]) by (right; now left).
  assert (H5 : Str.strip nl = "") by reflexivity.
  assert (H6 : outcome (recursive_solve Fixture.fs_empty_line Fixture.env
                          ("baz", Some "1.0.0") Fixture.args 2)
               = Ok {[ ("baz", Some "1.0.0"); ("pthread", None); ("", None) ]})
    by (vm_compute; reflexivity).
  split; [auto 7|].
  exact (proj2 (recursive_solve_empty_line Fixture.fs_empty_line Fixture.env Fixture.args
                  "baz" "1.0.0" 0 ["pthread" +:+ nl; nl] nl _ H1 H2 H3 H4 H5 H6)).
Defined.

End edge_facts.
